(** * Watermark-removal batch pipeline: a shallow embedding

    The development follows the TypeScript sources of the repository:

    - [src/lib/watermark-api.ts]              (module [WatermarkApi])
    - [src/app/api/process-images/route.ts]   (modules [Retry], [ProcessImages])
    - [src/app/api/status/route.ts]           (module [StatusRoute])
    - the gallery extraction route            (module [ExtractGallery])
    - the key validation and key test routes  (modules [ValidateApi],
                                               [TestApi], [TestFal])
    - [src/app/page.tsx]                      (module [Page])

    A string is modelled by the sequence of its UTF-16 code units, one
    [ascii] per unit, so the model holds the strings whose units are below
    256; [length], [substring] and [trim] count and classify units as
    JavaScript does.

    Promises are modelled by their settled outcome ([Resolved] / [Rejected]),
    [try]/[catch] by an exception monad, the network, the clock and the
    order in which concurrent tasks complete by explicit environment
    records, and the process-wide [progressStore] map by a [gmap].

    The file has three parts: the model, the vocabulary the properties are
    stated with, and the properties. *)

From Stdlib Require Import ZArith Lia String Ascii DecimalString.
From stdpp Require Import base option strings list gmap.

Set Warnings "-register-all".
Local Open Scope string_scope.
Local Open Scope list_scope.

(* ===================================================================== *)
(** ** JavaScript strings and values *)
(* ===================================================================== *)

Module JS.

(** [s.startsWith(p)] *)
Definition startsWith (s p : string) : bool := String.prefix p s.

(** [s.includes(sub)] *)
Fixpoint includes (s sub : string) : bool :=
  String.prefix sub s ||
  match s with
  | EmptyString => false
  | String _ s' => includes s' sub
  end.

Fixpoint drop_chars (n : nat) (s : string) : string :=
  match n, s with
  | O, _ => s
  | S _, EmptyString => EmptyString
  | S n', String _ s' => drop_chars n' s'
  end.

(** [s.substring(0, n)] *)
Definition substring0 (n : nat) (s : string) : string := String.substring 0 n s.

(** [s.replace(pat, rep)] with a string pattern: the first occurrence only. *)
Fixpoint replace (s pat rep : string) : string :=
  if String.prefix pat s then rep +:+ drop_chars (String.length pat) s
  else match s with
       | EmptyString => EmptyString
       | String c s' => String c (replace s' pat rep)
       end.

Definition is_digit (c : ascii) : bool :=
  let n := nat_of_ascii c in (48 <=? n)%nat && (n <=? 57)%nat.

Fixpoint drop_digits (s : string) : string :=
  match s with
  | String c s' => if is_digit c then drop_digits s' else s
  | EmptyString => EmptyString
  end.

Definition starts_with_digit (s : string) : bool :=
  match s with
  | String c _ => is_digit c
  | EmptyString => false
  end.

(** [s.replace(/<tag>\d+/, rep)] for a literal [tag]: the leftmost position
    where [tag] is followed by at least one digit; the digits are matched
    greedily and the whole match is replaced. *)
Fixpoint replace_tag_digits (s tag rep : string) : string :=
  let rest := drop_chars (String.length tag) s in
  if String.prefix tag s && starts_with_digit rest
  then rep +:+ drop_digits rest
  else match s with
       | EmptyString => EmptyString
       | String c s' => String c (replace_tag_digits s' tag rep)
       end.

(** White space and line terminators, as [String.prototype.trim] strips
    them.  A string is the sequence of its UTF-16 code units, and the model
    holds the units below 256; of the characters ECMAScript strips these
    are TAB, LF, VT, FF, CR (9-13), the space (32) and the no-break space
    (160).  The others (U+1680, U+2000 to U+200A, U+2028, U+2029, U+202F,
    U+205F, U+3000, U+FEFF) are units the model does not hold. *)
Definition is_space (c : ascii) : bool :=
  let n := nat_of_ascii c in
  (n =? 32)%nat || ((9 <=? n)%nat && (n <=? 13)%nat) || (n =? 160)%nat.

Fixpoint trim_start (s : string) : string :=
  match s with
  | String c s' => if is_space c then trim_start s' else s
  | EmptyString => EmptyString
  end.

Fixpoint trim_end (s : string) : string :=
  match s with
  | EmptyString => EmptyString
  | String c s' =>
      match trim_end s' with
      | EmptyString => if is_space c then EmptyString else String c EmptyString
      | t => String c t
      end
  end.

(** [s.trim()] (ASCII white space) *)
Definition trim (s : string) : string := trim_end (trim_start s).

(** [s.split(sep)[0]] for a one-character separator *)
Fixpoint before_char (sep : ascii) (s : string) : string :=
  match s with
  | EmptyString => EmptyString
  | String c s' => if Ascii.eqb c sep then EmptyString else String c (before_char sep s')
  end.

(** Truthiness of a string: the empty string is falsy. *)
Definition nonempty (s : string) : bool :=
  match s with EmptyString => false | _ => true end.

(** Truthiness of a possibly [undefined]/[null] string. *)
Definition truthy_str (o : option string) : bool :=
  match o with Some s => nonempty s | None => false end.

(** [a || b] on possibly absent strings *)
Definition or_str (a b : option string) : option string :=
  if truthy_str a then a else b.

Definition string_of_nat (n : nat) : string := NilZero.string_of_uint (Nat.to_uint n).
Definition string_of_Z (z : Z) : string := NilZero.string_of_int (Z.to_int z).

(** JSON values as [JSON.parse] returns them, plus [undefined] for absent
    properties.  Numbers are restricted to integers. *)
Inductive value : Type :=
| VUndef
| VNull
| VBool (b : bool)
| VNum (z : Z)
| VStr (s : string)
| VArr (items : list value)
| VObj (fields : list (string * value)).

(** What [throw] can raise: an [Error] object with its message, or any
    other value. *)
Inductive Thrown : Type :=
| ErrorObj (message : string)
| NonError.

(** [error instanceof Error ? error.message : fallback] *)
Definition error_message (e : Thrown) (fallback : string) : string :=
  match e with
  | ErrorObj m => m
  | NonError => fallback
  end.

(** The body of a [try] block: either a thrown value or a result. *)
Definition Exc (A : Type) : Type := Thrown + A.

Definition throw {A} (e : Thrown) : Exc A := inl e.
Definition ret {A} (a : A) : Exc A := inr a.
Definition bind {A B} (m : Exc A) (k : A -> Exc B) : Exc B :=
  match m with
  | inl e => inl e
  | inr a => k a
  end.

(** A settled promise. *)
Inductive Outcome (A : Type) : Type :=
| Resolved (v : A)
| Rejected (e : Thrown).
Arguments Resolved {A} v.
Arguments Rejected {A} e.

(** [await p] inside a [try] block. *)
Definition await {A} (p : Outcome A) : Exc A :=
  match p with
  | Resolved v => inr v
  | Rejected e => inl e
  end.

(** An [async] function body settles its promise. *)
Definition settle {A} (m : Exc A) : Outcome A :=
  match m with
  | inr v => Resolved v
  | inl e => Rejected e
  end.

Definition truthy (v : value) : bool :=
  match v with
  | VUndef | VNull => false
  | VBool b => b
  | VNum z => negb (z =? 0)%Z
  | VStr s => nonempty s
  | VArr _ | VObj _ => true
  end.

(** [a || b] *)
Definition or_val (a b : value) : value := if truthy a then a else b.

Fixpoint assoc (k : string) (fs : list (string * value)) : value :=
  match fs with
  | [] => VUndef
  | (k', v) :: fs' => if String.eqb k k' then v else assoc k fs'
  end.

Definition type_error : Thrown := ErrorObj "Cannot read properties of undefined".

(** [v.key] for a named (non-index) property. *)
Definition get_prop (v : value) (key : string) : Exc value :=
  match v with
  | VUndef | VNull => throw type_error
  | VObj fs => ret (assoc key fs)
  | VArr l => ret (if String.eqb key "length" then VNum (Z.of_nat (length l)) else VUndef)
  | VStr s => ret (if String.eqb key "length" then VNum (Z.of_nat (String.length s)) else VUndef)
  | VBool _ | VNum _ => ret VUndef
  end.

Definition char_at (i : nat) (s : string) : value :=
  match String.get i s with
  | Some c => VStr (String c EmptyString)
  | None => VUndef
  end.

(** [v[i]] *)
Definition get_index (v : value) (i : nat) : Exc value :=
  match v with
  | VUndef | VNull => throw type_error
  | VObj fs => ret (assoc (string_of_nat i) fs)
  | VArr l => ret (nth i l VUndef)
  | VStr s => ret (char_at i s)
  | VBool _ | VNum _ => ret VUndef
  end.

(** [v?.key] and [v?.[i]] *)
Definition get_prop_opt (v : value) (key : string) : Exc value :=
  match v with
  | VUndef | VNull => ret VUndef
  | _ => get_prop v key
  end.

Definition get_index_opt (v : value) (i : nat) : Exc value :=
  match v with
  | VUndef | VNull => ret VUndef
  | _ => get_index v i
  end.

(** [v > 0]; a string operand is not converted (array and string lengths
    are numbers). *)
Definition gt_zero (v : value) : bool :=
  match v with
  | VNum z => (0 <? z)%Z
  | VBool b => b
  | _ => false
  end.

Definition strict_eq_str (v : value) (s : string) : bool :=
  match v with
  | VStr s' => String.eqb s' s
  | _ => false
  end.

Definition join_comma (l : list string) : string :=
  match l with
  | [] => EmptyString
  | x :: xs => fold_left (fun acc y => acc +:+ "," +:+ y) xs x
  end.

(** String conversion in a template literal. *)
Fixpoint to_string (v : value) : string :=
  match v with
  | VUndef => "undefined"
  | VNull => "null"
  | VBool true => "true"
  | VBool false => "false"
  | VNum z => string_of_Z z
  | VStr s => s
  | VArr l =>
      join_comma
        ((fix items (l : list value) : list string :=
            match l with
            | [] => []
            | x :: xs =>
                match x with
                | VUndef | VNull => EmptyString
                | _ => to_string x
                end :: items xs
            end) l)
  | VObj _ => "[object Object]"
  end.

End JS.

Export JS.

Declare Scope exc_scope.
Delimit Scope exc_scope with exc.
Notation "'let*' x ':=' m 'in' k" := (JS.bind m (fun x => k))
  (at level 10, x name, m at level 100, k at level 200) : exc_scope.
Notation "'do*' m 'in' k" := (JS.bind m (fun _ => k))
  (at level 10, m at level 100, k at level 200) : exc_scope.

(* ===================================================================== *)
(** ** The network as seen through [fetch] *)
(* ===================================================================== *)

Module Http.

(** A [Response]: its status line, the outcome of reading the body
    ([response.text()]) and the outcome of parsing the body as JSON
    ([JSON.parse] of the text, [response.json()]). *)
Record Response : Type := mkResponse {
  status : Z;
  statusText : string;
  text : Outcome string;
  json : Exc value;
}.

(** [response.ok] *)
Definition ok (r : Response) : bool := (200 <=? status r)%Z && (status r <=? 299)%Z.

(** What the outside world answers during one call of a provider adapter:
    the first and the second [fetch] it issues, and the clock. *)
Record CallEnv : Type := mkCallEnv {
  fetch1 : Outcome Response;
  fetch2 : Outcome Response;
  now : Z;
}.

End Http.

(* ===================================================================== *)
(** ** Provider adapter: [src/lib/watermark-api.ts] *)
(* ===================================================================== *)

Module WatermarkApi.
Import Http.
Local Open Scope exc_scope.

Record ApiSettings : Type := mkApiSettings {
  provider : string;
  apiKey : string;
  endpoint : option string;
}.

Record WatermarkRemovalResult : Type := mkResult {
  success : bool;
  processedImageUrl : value;
  error : option string;
  jobId : value;
}.

(** [try { m } catch (e) { h e }] *)
Definition try_catch {A} (m : Exc A) (h : Thrown -> Exc A) : Exc A :=
  match m with
  | inl e => h e
  | inr a => inr a
  end.

(** The [catch] block shared by every variant: a resolved failure. *)
Definition failure (e : Thrown) (fallback : string) : WatermarkRemovalResult :=
  {| success := false;
     processedImageUrl := VUndef;
     error := Some (error_message e fallback);
     jobId := VUndef |}.

Definition err_local_url : Thrown :=
  ErrorObj "Image URL must be publicly accessible. Local URLs are not supported by Fal.ai".
Definition err_cannot_access (imageUrl : string) : Thrown :=
  ErrorObj ("Cannot access image URL: " +:+ imageUrl).
Definition err_not_accessible (r : Response) : Thrown :=
  ErrorObj ("Image URL is not accessible: " +:+ string_of_Z (status r) +:+ " " +:+ statusText r).
Definition err_fal_html (r : Response) (responseText : string) : Thrown :=
  ErrorObj ("Fal API error: " +:+ string_of_Z (status r) +:+ " - " +:+ statusText r
            +:+ ". Response: " +:+ substring0 100 responseText).
Definition err_download (imageUrl : string) : Thrown :=
  ErrorObj ("Cannot download image from URL: " +:+ imageUrl
            +:+ ". Please ensure the URL is publicly accessible.").
Definition err_401 : Thrown := ErrorObj "Invalid API key. Please check your Fal.ai API key.".
Definition err_403 : Thrown :=
  ErrorObj "Access forbidden. Please check your Fal.ai API key permissions.".
Definition err_fal (r : Response) (detail : value) : Thrown :=
  ErrorObj ("Fal API error: " +:+ string_of_Z (status r) +:+ " - "
            +:+ to_string (or_val detail (VStr (statusText r)))).
Definition err_invalid_json (responseText : string) : Thrown :=
  ErrorObj ("Invalid JSON response from Fal.ai: " +:+ substring0 100 responseText).
Definition err_no_images : Thrown :=
  ErrorObj "No processed images returned from Flux Kontext".

(** Lines 49-59: the reachability probe ([HEAD] request); whatever goes
    wrong inside is replaced by one message. *)
Definition probe (env : CallEnv) (imageUrl : string) : Exc unit :=
  try_catch
    (let* testResponse := await (fetch1 env) in
     if negb (ok testResponse) then throw (err_not_accessible testResponse)
     else ret tt)
    (fun _ => throw (err_cannot_access imageUrl)).

(** Lines 93-127: a non-success status from Fal. *)
Definition fal_error_response (response : Response) (responseText imageUrl : string)
  : Exc WatermarkRemovalResult :=
  let* errorData :=
    try_catch (json response) (fun _ => throw (err_fal_html response responseText)) in
  do* (if (status response =? 422)%Z then
         let* d := get_prop errorData "detail" in
         let* detail := get_index_opt d 0 in
         let* ty := get_prop_opt detail "type" in
         if strict_eq_str ty "file_download_error" then throw (err_download imageUrl)
         else ret tt
       else ret tt) in
  if (status response =? 401)%Z then throw err_401
  else if (status response =? 403)%Z then throw err_403
  else
    let* d := get_prop errorData "detail" in
    throw (err_fal response d).

(** Lines 129-150: a success status from Fal. *)
Definition fal_success_response (env : CallEnv) (response : Response) (responseText : string)
  : Exc WatermarkRemovalResult :=
  let* result :=
    try_catch (json response) (fun _ => throw (err_invalid_json responseText)) in
  let* images := get_prop result "images" in
  let* has_images :=
    (if truthy images then
       let* len := get_prop images "length" in ret (gt_zero len)
     else ret false) in
  if (has_images : bool) then
    let* first := get_index images 0 in
    let* url := get_prop first "url" in
    let* request_id := get_prop result "request_id" in
    ret {| success := true;
           processedImageUrl := url;
           error := None;
           jobId := or_val request_id (VStr ("flux_" +:+ string_of_Z (now env))) |}
  else throw err_no_images.

(** Lines 39-150: the [try] block of [removeWithFluxKontext]. *)
Definition fal_try (env : CallEnv) (imageUrl filename : string)
  : Exc WatermarkRemovalResult :=
  if startsWith imageUrl "/" || includes imageUrl "placeholder.svg"
  then throw err_local_url
  else
    do* probe env imageUrl in
    let* response := await (fetch2 env) in
    let* responseText := await (text response) in
    if negb (ok response) then fal_error_response response responseText imageUrl
    else fal_success_response env response responseText.

Definition removeWithFluxKontext (env : CallEnv) (imageUrl filename : string)
  : Outcome WatermarkRemovalResult :=
  match fal_try env imageUrl filename with
  | inr r => Resolved r
  | inl e => Resolved (failure e "Unknown error occurred")
  end.

(** The single-request variants share their shape: one [POST], a status
    check, the JSON body, and two fields read from it. *)
Definition single_request_try (env : CallEnv) (url_field job_field : string)
  : Exc WatermarkRemovalResult :=
  let* response := await (fetch1 env) in
  if negb (ok response)
  then throw (ErrorObj ("API request failed: " +:+ statusText response))
  else
    let* result := json response in
    let* url := get_prop result url_field in
    let* job := get_prop result job_field in
    ret {| success := true; processedImageUrl := url; error := None; jobId := job |}.

Definition lightpdf_try (env : CallEnv) : Exc WatermarkRemovalResult :=
  let* uploadResponse := await (fetch1 env) in
  if negb (ok uploadResponse)
  then throw (ErrorObj ("Upload failed: " +:+ statusText uploadResponse))
  else
    let* uploadResult := json uploadResponse in
    let* fileId := get_prop uploadResult "file_id" in
    let* processResponse := await (fetch2 env) in
    if negb (ok processResponse)
    then throw (ErrorObj ("Processing failed: " +:+ statusText processResponse))
    else
      let* processResult := json processResponse in
      let* url := get_prop processResult "download_url" in
      let* job := get_prop processResult "job_id" in
      ret {| success := true; processedImageUrl := url; error := None; jobId := job |}.

Definition catch_all (m : Exc WatermarkRemovalResult) : Outcome WatermarkRemovalResult :=
  match m with
  | inr r => Resolved r
  | inl e => Resolved (failure e "Unknown error")
  end.

Definition removeLightPDF (env : CallEnv) (imageUrl filename : string) :=
  catch_all (lightpdf_try env).

Definition removeWatermarkRemover (env : CallEnv) (imageUrl filename : string) :=
  catch_all (single_request_try env "result_url" "job_id").

Definition removeRapidAPI (env : CallEnv) (imageUrl filename : string) :=
  catch_all (single_request_try env "output_url" "request_id").

Definition removeCustom (settings : ApiSettings) (env : CallEnv) (imageUrl filename : string) :=
  catch_all
    (if negb (truthy_str (endpoint settings))
     then throw (ErrorObj "Custom endpoint not configured")
     else single_request_try env "processed_url" "job_id").

(** Lines 21-36: dispatch on the configured provider string. *)
Definition removeWatermark (settings : ApiSettings) (env : CallEnv)
    (imageUrl filename : string) : Outcome WatermarkRemovalResult :=
  if String.eqb (provider settings) "fal" then removeWithFluxKontext env imageUrl filename
  else if String.eqb (provider settings) "lightpdf" then removeLightPDF env imageUrl filename
  else if String.eqb (provider settings) "watermarkremover"
       then removeWatermarkRemover env imageUrl filename
  else if String.eqb (provider settings) "rapidapi" then removeRapidAPI env imageUrl filename
  else if String.eqb (provider settings) "custom" then removeCustom settings env imageUrl filename
  else Rejected (ErrorObj "Unsupported API provider").

Definition recognized (p : string) : Prop :=
  p = "fal" \/ p = "lightpdf" \/ p = "watermarkremover" \/ p = "rapidapi" \/ p = "custom".

End WatermarkApi.

(* ===================================================================== *)
(** ** Retry wrapper: [route.ts], lines 31-53 *)
(* ===================================================================== *)

Module Retry.

Definition maxRetries : nat := 3.
Definition retryDelay : Z := 2000.
Definition backoffMultiplier : Z := 2.

(** What one task does to the outside world, in order: invocations of the
    wrapped operation (numbered from 0) and [setTimeout] waits. *)
Inductive Effect : Type :=
| Call (attempt : nat)
| Sleep (ms : Z).

Record World : Type := mkWorld {
  calls : nat;
  log : list Effect;
}.

Definition start : World := {| calls := 0; log := [] |}.

(** An asynchronous operation, run against the world. *)
Definition Async (T : Type) : Type := World -> Outcome T * World.

(** Invoking an operation whose [k]-th invocation settles as [op k]. *)
Definition invoke {T} (op : nat -> Outcome T) : Async T :=
  fun w => (op (calls w), {| calls := S (calls w); log := log w ++ [Call (calls w)] |}).

(** [await new Promise((resolve) => setTimeout(resolve, delay))] *)
Definition sleep (delay : Z) (w : World) : World :=
  {| calls := calls w; log := log w ++ [Sleep delay] |}.

Fixpoint retryWithBackoff {T} (fn : Async T) (retries : nat) (delay : Z) : Async T :=
  fun w =>
    match fn w with
    | (Resolved v, w') => (Resolved v, w')
    | (Rejected error, w') =>
        match retries with
        | S retries' =>
            retryWithBackoff fn retries' (delay * backoffMultiplier) (sleep delay w')
        | O => (Rejected error, w')
        end
    end.

(** The attempts made and the waits taken, read off the log. *)
Definition attempts (w : World) : nat := calls w.

Fixpoint waits (l : list Effect) : list Z :=
  match l with
  | [] => []
  | Sleep ms :: l' => ms :: waits l'
  | Call _ :: l' => waits l'
  end.

End Retry.

(* ===================================================================== *)
(** ** Batch pipeline: [src/app/api/process-images/route.ts] *)
(* ===================================================================== *)

Module ProcessingResult.
Inductive Status : Type := Success | Error | Processing.

Record t : Type := mk {
  originalUrl : string;
  processedUrl : value;
  filename : string;
  status : Status;
  message : option string;
  jobId : value;
}.
End ProcessingResult.

Module ProcessingProgress.
Inductive Status : Type := Processing | Completed | Error.

Record t : Type := mk {
  total : nat;
  completed : nat;
  current : string;
  status : Status;
  results : list ProcessingResult.t;
}.
End ProcessingProgress.

(** HTTP replies of the route handlers ([NextResponse.json]). *)
Module Reply.
Inductive Body : Type :=
| Results (results : list ProcessingResult.t) (sessionId : option string) (demoMode : bool)
| Progress (p : ProcessingProgress.t)
| ErrorBody (error : string).

Record t : Type := mk { code : Z; body : Body }.

Definition json (b : Body) : t := {| code := 200; body := b |}.
Definition error (msg : string) (c : Z) : t := {| code := c; body := ErrorBody msg |}.
End Reply.

Module ProcessImages.
Import Http.
Local Open Scope exc_scope.

(** The process-wide [progressStore]; a missing form field makes the key
    [null], here [None]. *)
Abbreviation Store := (gmap (option string) ProcessingProgress.t).

Record Image : Type := mkImage {
  url : string;
  filename : string;
  isUploaded : bool;
}.

(** Lines 55-91. [oracle k] is what the network answers during the
    [k]-th provider call of this task. *)
Definition processImageWithRetry (settings : WatermarkApi.ApiSettings)
    (oracle : nat -> CallEnv) (imageUrl filename : string)
  : ProcessingResult.t * Retry.World :=
  let fn := Retry.invoke (fun k => WatermarkApi.removeWatermark settings (oracle k) imageUrl filename) in
  match Retry.retryWithBackoff fn Retry.maxRetries Retry.retryDelay Retry.start with
  | (Resolved result, w) =>
      if WatermarkApi.success result && truthy (WatermarkApi.processedImageUrl result)
      then ({| ProcessingResult.originalUrl := imageUrl;
               ProcessingResult.processedUrl := WatermarkApi.processedImageUrl result;
               ProcessingResult.filename := filename;
               ProcessingResult.status := ProcessingResult.Success;
               ProcessingResult.message := None;
               ProcessingResult.jobId := WatermarkApi.jobId result |}, w)
      else ({| ProcessingResult.originalUrl := imageUrl;
               ProcessingResult.processedUrl := VStr imageUrl;
               ProcessingResult.filename := filename;
               ProcessingResult.status := ProcessingResult.Error;
               ProcessingResult.message :=
                 or_str (WatermarkApi.error result) (Some "Processing failed");
               ProcessingResult.jobId := VUndef |}, w)
  | (Rejected error, w) =>
      ({| ProcessingResult.originalUrl := imageUrl;
          ProcessingResult.processedUrl := VStr imageUrl;
          ProcessingResult.filename := filename;
          ProcessingResult.status := ProcessingResult.Error;
          ProcessingResult.message := Some (error_message error "Unknown error");
          ProcessingResult.jobId := VUndef |}, w)
  end.

(** *** Progress updates (lines 252-273) *)

(** Lines 253-257: record the task as the current one. *)
Definition begin_task (sessionId : option string) (image : Image) (store : Store) : Store :=
  match store !! sessionId with
  | Some currentProgress =>
      <[sessionId :=
          {| ProcessingProgress.total := ProcessingProgress.total currentProgress;
             ProcessingProgress.completed := ProcessingProgress.completed currentProgress;
             ProcessingProgress.current := filename image;
             ProcessingProgress.status := ProcessingProgress.status currentProgress;
             ProcessingProgress.results := ProcessingProgress.results currentProgress |}]> store
  | None => store
  end.

(** Lines 262-273: count the task, append its result, and close the
    snapshot when the count reaches the total. *)
Definition finish_task (sessionId : option string) (result : ProcessingResult.t)
    (store : Store) : Store :=
  match store !! sessionId with
  | Some updatedProgress =>
      let completed' := S (ProcessingProgress.completed updatedProgress) in
      let results' := ProcessingProgress.results updatedProgress ++ [result] in
      let done := (ProcessingProgress.total updatedProgress <=? completed')%nat in
      <[sessionId :=
          {| ProcessingProgress.total := ProcessingProgress.total updatedProgress;
             ProcessingProgress.completed := completed';
             ProcessingProgress.current :=
               if done then EmptyString else ProcessingProgress.current updatedProgress;
             ProcessingProgress.status :=
               if done then ProcessingProgress.Completed
               else ProcessingProgress.status updatedProgress;
             ProcessingProgress.results := results' |}]> store
  | None => store
  end.

(** *** The scheduler loop (lines 244-280) *)

(** [l.slice(i, j)] *)
Definition slice {A} (i j : nat) (l : list A) : list A := take (j - i) (drop i l).

(** The windows the [for] loop cuts, starting from index [i]:
    [for (; i < l.length; i += limit) l.slice(i, i + limit)].
    [None] when the fuel runs out before the loop condition fails. *)
Fixpoint batch_windows {A} (limit : nat) (l : list A) (fuel i : nat)
  : option (list (list A)) :=
  if (length l <=? i)%nat then Some []
  else match fuel with
       | O => None
       | S fuel' => cons (slice i (i + limit) l) <$> batch_windows limit l fuel' (i + limit)
       end.

Inductive Event : Type :=
| Started (task : nat)
| Finished (task : nat).

(** The state of a running batch: the store, every store state an
    observer could have seen so far (oldest first), the scheduling events,
    the results pushed to the response, the number of windows awaited, and
    each task's provider calls and waits. *)
Record Run : Type := mkRun {
  store : Store;
  observed : list Store;
  events : list Event;
  results : list ProcessingResult.t;
  windows : nat;
  worlds : list (nat * Retry.World);
}.

Definition step_begin (sessionId : option string) (r : Run) (task : nat * Image) : Run :=
  let s := begin_task sessionId task.2 (store r) in
  {| store := s; observed := observed r ++ [s];
     events := events r ++ [Started task.1];
     results := results r; windows := windows r; worlds := worlds r |}.

Definition step_finish (sessionId : option string)
    (done : list (nat * ProcessingResult.t)) (r : Run) (pos : nat) : Run :=
  match done !! pos with
  | Some (task, result) =>
      let s := finish_task sessionId result (store r) in
      {| store := s; observed := observed r ++ [s];
         events := events r ++ [Finished task];
         results := results r; windows := windows r; worlds := worlds r |}
  | None => r
  end.

(** One window: every task of the batch starts (the synchronous prefix of
    each [async] callback), the tasks complete in the order [order]
    (positions within the window), and [Promise.all] hands back the
    results in input order. *)
Definition run_window (settings : WatermarkApi.ApiSettings)
    (oracle : nat -> nat -> CallEnv) (sessionId : option string)
    (order : list nat) (r : Run) (batch : list (nat * Image)) : Run :=
  let r1 := foldl (step_begin sessionId) r batch in
  let outcomes :=
    map (fun task : nat * Image =>
           (task.1, processImageWithRetry settings (oracle task.1) (url task.2) (filename task.2)))
        batch in
  let done := map (fun o : nat * (ProcessingResult.t * Retry.World) => (o.1, o.2.1)) outcomes in
  let r2 := foldl (step_finish sessionId done) r1 order in
  {| store := store r2; observed := observed r2; events := events r2;
     results := results r2 ++ map snd done;
     windows := S (windows r2);
     worlds := worlds r2 ++ map (fun o : nat * (ProcessingResult.t * Retry.World) => (o.1, o.2.2)) outcomes |}.

Fixpoint run_windows (settings : WatermarkApi.ApiSettings)
    (oracle : nat -> nat -> CallEnv) (sessionId : option string)
    (sched : nat -> list nat) (r : Run) (ws : list (list (nat * Image))) : Run :=
  match ws with
  | [] => r
  | batch :: ws' =>
      run_windows settings oracle sessionId sched
        (run_window settings oracle sessionId (sched (windows r)) r batch) ws'
  end.

Definition indexed {A} (l : list A) : list (nat * A) := zip (seq 0 (length l)) l.

(** Lines 230-280: seed the snapshot, then run the windows one after the
    other.  [limit] is the concurrency limit. *)
Definition processBatch (limit : nat) (settings : WatermarkApi.ApiSettings)
    (oracle : nat -> nat -> CallEnv) (sched : nat -> list nat)
    (sessionId : option string) (imagesToProcess : list Image) (store0 : Store)
  : option Run :=
  let progress :=
    {| ProcessingProgress.total := length imagesToProcess;
       ProcessingProgress.completed := 0;
       ProcessingProgress.current := EmptyString;
       ProcessingProgress.status := ProcessingProgress.Processing;
       ProcessingProgress.results := [] |} in
  let s := <[sessionId := progress]> store0 in
  let r0 := {| store := s; observed := [s]; events := []; results := [];
               windows := 0; worlds := [] |} in
  run_windows settings oracle sessionId sched r0
    <$> batch_windows limit (indexed imagesToProcess) (length imagesToProcess) 0.

Definition concurrencyLimit : nat := 2.

(** *** The request handlers *)

(** An uploaded [File]: its name, MIME type, and the outcome of reading it
    and encoding it in base 64. *)
Record File : Type := mkFile {
  name : string;
  type : string;
  base64 : Outcome string;
}.

(** The parsed multipart form.  [fileCount] is the result of
    [Number.parseInt], [None] standing for [NaN]. *)
Record FormData : Type := mkFormData {
  sessionId : option string;
  galleryUrl : option string;
  fileCount : option Z;
  file : nat -> option File;
}.

(** The JSON body answered by the gallery extraction route. *)
Inductive ExtractBody : Type :=
| Images (images : list Image)
| Failure (error : string).

Record ExtractResponse : Type := mkExtractResponse {
  ex_ok : bool;
  ex_json : Exc ExtractBody;
}.

(** Everything outside the handler: the process environment variables,
    the blob storage, the gallery extraction route, the provider (per task
    and per attempt) and the order in which the tasks of each window
    complete. *)
Record Env : Type := mkEnv {
  DEMO_MODE : option string;
  FAL_KEY : option string;
  FAL_API_KEY : option string;
  put : nat -> Outcome string;
  extract_gallery : string -> Outcome ExtractResponse;
  oracle : nat -> nat -> CallEnv;
  sched : nat -> list nat;
}.

(** Calls that leave the process. *)
Inductive External : Type :=
| PutBlob (i : nat)
| FetchExtract (galleryUrl : string)
| Provider (task : nat) (e : Retry.Effect).

Definition sampleImages : list (string * string) :=
  [ ("/placeholder.svg?height=400&width=600&text=Sample+Image+1+with+Watermark", "sample_1.jpg");
    ("/placeholder.svg?height=400&width=600&text=Sample+Image+2+with+Watermark", "sample_2.jpg");
    ("/placeholder.svg?height=400&width=600&text=Sample+Image+3+with+Watermark", "sample_3.jpg") ].

(** Lines 114-121 *)
Definition demo_results : list ProcessingResult.t :=
  map (fun image : string * string =>
         {| ProcessingResult.originalUrl := image.1;
            ProcessingResult.processedUrl :=
              VStr (JS.replace image.1 "with+Watermark" "Watermark+Removed");
            ProcessingResult.filename := image.2;
            ProcessingResult.status := ProcessingResult.Success;
            ProcessingResult.message := Some "Demo processing completed";
            ProcessingResult.jobId := VUndef |})
      sampleImages.

(** Lines 141-171: the upload loop over [file_0 .. file_(fileCount-1)]. *)
Fixpoint upload_files (env : Env) (form : FormData) (indices : list nat)
    (imagesToProcess : list Image) (ext : list External)
  : Exc (list Image) * list External :=
  match indices with
  | [] => (ret imagesToProcess, ext)
  | i :: rest =>
      match file form i with
      | None => upload_files env form rest imagesToProcess ext
      | Some f =>
          match put env i with
          | Resolved blobUrl =>
              upload_files env form rest
                (imagesToProcess ++ [{| url := blobUrl; filename := name f; isUploaded := true |}])
                (ext ++ [PutBlob i])
          | Rejected _ =>
              match base64 f with
              | Resolved b =>
                  upload_files env form rest
                    (imagesToProcess ++
                       [{| url := "data:" +:+ type f +:+ ";base64," +:+ b;
                           filename := name f; isUploaded := true |}])
                    (ext ++ [PutBlob i])
              | Rejected e => (throw e, ext ++ [PutBlob i])
              end
          end
      end
  end.

Definition file_indices (form : FormData) : list nat :=
  match fileCount form with
  | Some n => seq 0 (Z.to_nat n)
  | None => []
  end.

(** Lines 178-186 *)
Definition processedGalleryUrl (galleryUrl : string) : string :=
  let trimmed := trim galleryUrl in
  if includes trimmed "?pid=" || includes trimmed "&id="
  then before_char "?" trimmed
  else trimmed.

(** Lines 175-210 *)
Definition extract_step (env : Env) (form : FormData) (imagesToProcess : list Image)
    (ext : list External) : Exc (list Image) * list External :=
  match galleryUrl form with
  | Some g =>
      if nonempty g && nonempty (trim g) then
        let target := processedGalleryUrl g in
        (WatermarkApi.try_catch
           (let* extractResponse := await (extract_gallery env target) in
            let* body := ex_json extractResponse in
            if ex_ok extractResponse then
              match body with
              | Images images =>
                  ret (imagesToProcess ++
                         map (fun img => {| url := url img; filename := filename img;
                                            isUploaded := false |}) images)
              | Failure _ => throw type_error
              end
            else
              throw (ErrorObj ("Gallery extraction failed: " +:+
                                 match body with
                                 | Failure error => error
                                 | Images _ => "undefined"
                                 end)))
           (fun error =>
              if (length imagesToProcess =? 0)%nat then throw error else ret imagesToProcess),
         ext ++ [FetchExtract target])
      else (ret imagesToProcess, ext)
  | None => (ret imagesToProcess, ext)
  end.

Definition fallbackImages : list Image :=
  [ {| url := "https://images.unsplash.com/photo-1503023345310-bd7c1de61c7d?w=800&h=600&fit=crop";
       filename := "sample_landscape.jpg"; isUploaded := false |};
    {| url := "https://images.unsplash.com/photo-1516117172878-fd2c41f4a759?w=800&h=600&fit=crop";
       filename := "sample_architecture.jpg"; isUploaded := false |} ].

(** Lines 135-226: the image source resolver. *)
Definition resolve_images (env : Env) (form : FormData) : Exc (list Image) * list External :=
  match upload_files env form (file_indices form) [] [] with
  | (inl e, ext) => (inl e, ext)
  | (inr uploaded, ext) =>
      match extract_step env form uploaded ext with
      | (inl e, ext') => (inl e, ext')
      | (inr imgs, ext') =>
          (ret (if (length imgs =? 0)%nat then fallbackImages else imgs), ext')
      end
  end.

Definition demoMode (env : Env) : bool :=
  match DEMO_MODE env with
  | Some s => String.eqb s "true"
  | None => false
  end.

(** [process.env.FAL_KEY || process.env.FAL_API_KEY || ""] *)
Definition apiKey (env : Env) : option string :=
  or_str (or_str (FAL_KEY env) (FAL_API_KEY env)) (Some EmptyString).

Definition apiSettings (env : Env) : WatermarkApi.ApiSettings :=
  {| WatermarkApi.provider := "fal";
     WatermarkApi.apiKey := default EmptyString (apiKey env);
     WatermarkApi.endpoint := Some EmptyString |}.

(** What a [POST] leaves behind: the reply, the store, the store states
    that were observable on the way, the scheduling events, the number of
    windows awaited and the calls that left the process. *)
Record Served : Type := mkServed {
  reply : Reply.t;
  store_after : Store;
  observable : list Store;
  scheduling : list Event;
  windows_awaited : nat;
  external : list External;
}.

Definition provider_calls (worlds : list (nat * Retry.World)) : list External :=
  flat_map (fun tw : nat * Retry.World => map (Provider tw.1) (Retry.log tw.2)) worlds.

Definition failed (e : Thrown) (store0 : Store) (ext : list External) : Served :=
  {| reply := Reply.error (error_message e "Failed to process images") 500;
     store_after := store0; observable := []; scheduling := [];
     windows_awaited := 0; external := ext |}.

(** Lines 93-292.  [request] is the outcome of [request.formData()];
    [None] stands for a handler that never answers. *)
Definition POST (env : Env) (request : Outcome FormData) (store0 : Store) : option Served :=
  match request with
  | Rejected e => Some (failed e store0 [])
  | Resolved formData =>
      if demoMode env || negb (truthy_str (apiKey env)) then
        Some {| reply := Reply.json (Reply.Results demo_results (sessionId formData) true);
                store_after := store0; observable := []; scheduling := [];
                windows_awaited := 0; external := [] |}
      else
        match resolve_images env formData with
        | (inl e, ext) => Some (failed e store0 ext)
        | (inr imagesToProcess, ext) =>
            match processBatch concurrencyLimit (apiSettings env) (oracle env) (sched env)
                    (sessionId formData) imagesToProcess store0 with
            | Some r =>
                Some {| reply := Reply.json (Reply.Results (results r) (sessionId formData) false);
                        store_after := store r;
                        observable := observed r;
                        scheduling := events r;
                        windows_awaited := windows r;
                        external := ext ++ provider_calls (worlds r) |}
            | None => None
            end
        end
  end.

(** Lines 294-309.  [sessionId] is [searchParams.get("sessionId")]. *)
Definition GET (sessionId : option string) (store0 : Store) : Reply.t :=
  if negb (truthy_str sessionId) then Reply.error "Session ID required" 400
  else match store0 !! sessionId with
       | None => Reply.error "Session not found" 404
       | Some progress => Reply.json (Reply.Progress progress)
       end.

End ProcessImages.

(* ===================================================================== *)
(** ** Status route: [src/app/api/status/route.ts] *)
(* ===================================================================== *)

Module StatusRoute.

Record Env : Type := mkEnv {
  FAL_KEY : option string;
  FAL_API_KEY : option string;
  DEMO_MODE : option string;
  FAL_EMAIL : option string;
  FAL_PASSWORD : option string;
}.

Record Body : Type := mkBody {
  demoMode : bool;
  apiConfigured : bool;
  apiKeyFormat : string;
  provider : string;
  message : string;
  keyLength : nat;
  keyPrefix : option string;
  emailConfigured : bool;
  passwordConfigured : bool;
}.

(** [process.env.FAL_KEY || process.env.FAL_API_KEY] *)
Definition apiKey (env : Env) : option string := or_str (FAL_KEY env) (FAL_API_KEY env).

(** [apiKey && apiKey.length > 10], as a truth value *)
Definition isValidFormat (apiKey : option string) : bool :=
  match apiKey with
  | Some k => nonempty k && (10 <? String.length k)%nat
  | None => false
  end.

Definition GET (env : Env) : Body :=
  let apiKey := apiKey env in
  let demoMode :=
    match DEMO_MODE env with Some s => String.eqb s "true" | None => false end in
  let isValidFormat := isValidFormat apiKey in
  {| demoMode := demoMode;
     apiConfigured := truthy_str apiKey;
     apiKeyFormat := if isValidFormat then "valid" else "invalid";
     provider := if demoMode then "demo" else if truthy_str apiKey then "fal" else "demo";
     message :=
       if demoMode then "Running in demo mode (DEMO_MODE=true)"
       else if truthy_str apiKey
            then "Fal.ai API key configured " +:+
                 (if isValidFormat then "(format looks correct)" else "(please check format)")
            else "No API key found - running in demo mode";
     keyLength :=
       match apiKey with
       | Some k => if nonempty k then String.length k else 0
       | None => 0
       end;
     keyPrefix :=
       match apiKey with
       | Some k => if nonempty k then Some (substring0 4 k +:+ "...") else None
       | None => None
       end;
     emailConfigured := truthy_str (FAL_EMAIL env);
     passwordConfigured := truthy_str (FAL_PASSWORD env) |}.

Definition with_FAL_KEY (k : option string) (env : Env) : Env :=
  {| FAL_KEY := k; FAL_API_KEY := FAL_API_KEY env; DEMO_MODE := DEMO_MODE env;
     FAL_EMAIL := FAL_EMAIL env; FAL_PASSWORD := FAL_PASSWORD env |}.

Definition with_FAL_API_KEY (k : option string) (env : Env) : Env :=
  {| FAL_KEY := FAL_KEY env; FAL_API_KEY := k; DEMO_MODE := DEMO_MODE env;
     FAL_EMAIL := FAL_EMAIL env; FAL_PASSWORD := FAL_PASSWORD env |}.

End StatusRoute.

(* ===================================================================== *)
(** ** Gallery extraction route *)
(* ===================================================================== *)

Module ExtractGallery.
Local Open Scope exc_scope.

Record GalleryImage : Type := mkGalleryImage {
  url : string;
  filename : string;
  thumbnail : option string;
}.

(** The fetched page as the handler reads it: the raw text, and what each
    of the four cheerio queries yields in document order.
    - [img_data_src]: the [data-src] attribute of every [img[data-src]];
    - [img_src]: the [src] attribute of every [img[src]];
    - [ld_json_images]: for every [application/ld+json] script that parses
      and carries a truthy [image], its image URLs (a single one as a
      one-element list), at the declared type [string];
    - [script_urls]: for every [script], the matches of the image URL
      pattern in its text ([[]] when there is none). *)
Record Page : Type := mkPage {
  html : string;
  img_data_src : list string;
  img_src : list string;
  ld_json_images : list (list string);
  script_urls : list (list string);
}.

Record Fetched : Type := mkFetched {
  status : Z;
  statusText : string;
  page : Outcome Page;
}.

Definition ok (r : Fetched) : bool := (200 <=? status r)%Z && (status r <=? 299)%Z.

Definition highRes (src : string) : string :=
  JS.replace
    (replace_tag_digits (replace_tag_digits src "/w_" "/w_2048") "/h_" "/h_2048")
    "/c_fill" "/c_fit".

(** [images.some((img) => img.url === u)] *)
Definition some_url (images : list GalleryImage) (u : string) : bool :=
  existsb (fun img => String.eqb (url img) u) images.

Definition numbered (pattern : string) (n : nat) : string :=
  pattern +:+ "_" +:+ string_of_nat n +:+ ".jpg".

(** Strategy 1 (lines 40-57) *)
Definition strategy1 (images : list GalleryImage) (src : string) : list GalleryImage :=
  if nonempty src && includes src "pixieset" then
    images ++ [{| url := highRes src;
                  filename := numbered "pixieset_image" (length images + 1);
                  thumbnail := Some src |}]
  else images.

(** Strategy 2 (lines 59-79) *)
Definition strategy2 (images : list GalleryImage) (src : string) : list GalleryImage :=
  if nonempty src && includes src "pixieset"
     && negb (includes src "logo") && negb (includes src "icon") then
    if negb (some_url images (highRes src)) then
      images ++ [{| url := highRes src;
                    filename := numbered "pixieset_image" (length images + 1);
                    thumbnail := Some src |}]
    else images
  else images.

Definition indexed {A} (l : list A) : list (nat * A) := zip (seq 0 (length l)) l.

(** Strategy 3 (lines 81-100), one script *)
Definition strategy3 (images : list GalleryImage) (imageUrls : list string)
  : list GalleryImage :=
  foldl (fun images (e : nat * string) =>
           let '(idx, imgUrl) := e in
           if nonempty imgUrl && includes imgUrl "pixieset" then
             images ++ [{| url := imgUrl;
                           filename := numbered "structured_image" (idx + 1);
                           thumbnail := Some imgUrl |}]
           else images)
        images (indexed imageUrls).

(** Strategy 4 (lines 102-119), one script *)
Definition strategy4 (images : list GalleryImage) (imageUrlMatches : list string)
  : list GalleryImage :=
  foldl (fun images (e : nat * string) =>
           let '(idx, u) := e in
           if negb (some_url images u) then
             images ++ [{| url := u;
                           filename := numbered "js_extracted" (idx + 1);
                           thumbnail := Some u |}]
           else images)
        images (indexed imageUrlMatches).

(** Everything the four strategies push, in order. *)
Definition discovered (p : Page) : list GalleryImage :=
  let images := foldl strategy1 [] (img_data_src p) in
  let images := foldl strategy2 images (img_src p) in
  let images := foldl strategy3 images (ld_json_images p) in
  foldl strategy4 images (script_urls p).

(** [l.findIndex(p)], [None] for [-1] *)
Fixpoint findIndex {A} (p : A -> bool) (l : list A) : option nat :=
  match l with
  | [] => None
  | x :: xs => if p x then Some 0 else S <$> findIndex p xs
  end.

(** [l.filter((x, index) => f index x)], from position [i] on *)
Fixpoint filter_from {A} (f : nat -> A -> bool) (i : nat) (l : list A) : list A :=
  match l with
  | [] => []
  | x :: xs => if f i x then x :: filter_from f (S i) xs else filter_from f (S i) xs
  end.

(** Line 124 *)
Definition uniqueImages (images : list GalleryImage) : list GalleryImage :=
  filter_from
    (fun index img =>
       match findIndex (fun i => String.eqb (url i) (url img)) images with
       | Some j => (index =? j)%nat
       | None => false
       end)
    0 images.

Definition err_password : Thrown := ErrorObj "Gallery appears to be password protected".
Definition err_not_pixieset : Thrown :=
  ErrorObj "This doesn't appear to be a Pixieset gallery page".

(** Lines 33-143: from the loaded page to the returned list. *)
Definition extract_page (p : Page) : Exc (list GalleryImage) :=
  let unique := uniqueImages (discovered p) in
  do* (if (length unique =? 0)%nat then
         if includes (html p) "password" || includes (html p) "Password"
         then throw err_password
         else if negb (includes (html p) "pixieset") then throw err_not_pixieset
         else ret tt
       else ret tt) in
  ret (take 20 unique).

(** Lines 10-148 *)
Definition extractPixiesetGallery (fetched : Outcome Fetched) : Exc (list GalleryImage) :=
  WatermarkApi.try_catch
    (let* response := await fetched in
     if negb (ok response)
     then throw (ErrorObj ("HTTP " +:+ string_of_Z (status response) +:+ ": "
                           +:+ statusText response))
     else
       let* p := await (page response) in
       extract_page p)
    (fun error =>
       throw (ErrorObj ("Failed to extract gallery: " +:+ error_message error "Unknown error"))).

Inductive Body : Type :=
| Images (images : list GalleryImage)
| ErrorBody (error : string).

Record Reply : Type := mkReply { code : Z; body : Body }.

(** The outside of the handler: the WHATWG URL parser ([new URL(s)] does
    not throw) and the answer to fetching a gallery URL. *)
Record Env : Type := mkEnv {
  url_parses : string -> bool;
  fetch_gallery : string -> Outcome Fetched;
}.

Definition msg_no_images : string :=
  "No images found in the gallery. Please check the URL and ensure it's a public gallery.".

(** Lines 150-191.  [request] is the outcome of [request.json()] with
    [galleryUrl] taken out of it. *)
Definition POST (env : Env) (request : Outcome (option string)) : Reply :=
  match request with
  | Rejected error =>
      {| code := 500; body := ErrorBody (error_message error "Failed to extract gallery") |}
  | Resolved galleryUrl =>
      match galleryUrl with
      | None => {| code := 400; body := ErrorBody "Gallery URL is required" |}
      | Some g =>
          if negb (nonempty g) then {| code := 400; body := ErrorBody "Gallery URL is required" |}
          else if negb (url_parses env g)
               then {| code := 400; body := ErrorBody "Invalid URL format" |}
          else if negb (includes g "pixieset.com")
               then {| code := 400;
                       body := ErrorBody "Currently only Pixieset galleries are supported" |}
          else
            match extractPixiesetGallery (fetch_gallery env g) with
            | inl error =>
                {| code := 500;
                   body := ErrorBody (error_message error "Failed to extract gallery") |}
            | inr images =>
                if (length images =? 0)%nat
                then {| code := 404; body := ErrorBody msg_no_images |}
                else {| code := 200; body := Images images |}
            end
      end
  end.

End ExtractGallery.

(* ===================================================================== *)
(** ** Key validation route ([POST], one validator per provider) *)
(* ===================================================================== *)

Module ValidateApi.
Import Http.

(** The request body at its declared type [ApiSettings]; a field that is
    absent is [None]. *)
Record Settings : Type := mkSettings {
  provider : option string;
  apiKey : option string;
  endpoint : option string;
}.

(** [try { const response = await fetch(..); return response.ok } catch { return false }] *)
Definition validateByStatus (fetched : Outcome Response) : bool :=
  match fetched with
  | Resolved response => ok response
  | Rejected _ => false
  end.

Definition validateLightPDF (fetch : string -> Outcome Response) (apiKey : string) : bool :=
  validateByStatus (fetch "https://api.lightpdf.com/api/v1/account/info").

Definition validateWatermarkRemover (fetch : string -> Outcome Response) (apiKey : string)
  : bool :=
  validateByStatus (fetch "https://api.watermarkremover.io/v1/account").

Definition validateRapidAPI (fetch : string -> Outcome Response) (apiKey : string) : bool :=
  validateByStatus (fetch "https://watermark-remover.p.rapidapi.com/status").

Definition validateCustomEndpoint (fetch : string -> Outcome Response)
    (endpoint apiKey : string) : bool :=
  validateByStatus (fetch (endpoint +:+ "/status")).

Definition validateFalAI (fetch : string -> Outcome Response) (apiKey : string) : bool :=
  match fetch "https://fal.run/fal-ai/flux-pro/kontext" with
  | Resolved response =>
      if (status response =? 401)%Z then false
      else if (status response =? 400)%Z then true
      else ok response
  | Rejected _ => false
  end.

Inductive Body : Type :=
| Valid
| ErrorBody (error : string).

Record Reply : Type := mkReply { code : Z; body : Body }.

Definition verdict (isValid : bool) : Reply :=
  if isValid then {| code := 200; body := Valid |}
  else {| code := 401; body := ErrorBody "Invalid API key or service unavailable" |}.

(** [request] is the outcome of [request.json()]; [Resolved None] is a body
    that parses to [null]. *)
Definition POST (fetch : string -> Outcome Response) (request : Outcome (option Settings))
  : Reply :=
  match request with
  | Rejected _ | Resolved None => {| code := 500; body := ErrorBody "Validation failed" |}
  | Resolved (Some settings) =>
      match apiKey settings with
      | None => {| code := 400; body := ErrorBody "API key is required" |}
      | Some key =>
          if negb (nonempty key) then {| code := 400; body := ErrorBody "API key is required" |}
          else
            match provider settings with
            | Some p =>
                if String.eqb p "lightpdf" then verdict (validateLightPDF fetch key)
                else if String.eqb p "watermarkremover"
                     then verdict (validateWatermarkRemover fetch key)
                else if String.eqb p "rapidapi" then verdict (validateRapidAPI fetch key)
                else if String.eqb p "fal" then verdict (validateFalAI fetch key)
                else if String.eqb p "custom" then
                  if negb (truthy_str (endpoint settings))
                  then {| code := 400; body := ErrorBody "Custom endpoint URL is required" |}
                  else verdict (validateCustomEndpoint fetch
                                  (default EmptyString (endpoint settings)) key)
                else {| code := 400; body := ErrorBody "Unsupported API provider" |}
            | None => {| code := 400; body := ErrorBody "Unsupported API provider" |}
            end
      end
  end.

End ValidateApi.

(* ===================================================================== *)
(** ** Key test route ([POST] with a key in the body) *)
(* ===================================================================== *)

Module TestApi.
Import Http.
Local Open Scope exc_scope.

(** [{ success, message, details? }]; an absent [details] is [VUndef]. *)
Record TestResult : Type := mkTestResult {
  success : bool;
  message : string;
  details : value;
}.

Definition connection_failed (error : Thrown) : TestResult :=
  {| success := false;
     message := "Connection failed: " +:+ error_message error "Unknown error";
     details := VUndef |}.

Definition testFalAI (fetched : Outcome Response) : TestResult :=
  match
    (let* response := await fetched in
     let* result := json response in
     if (status response =? 401)%Z then
       ret {| success := false; message := "Invalid API key - Authentication failed";
              details := VUndef |}
     else
       let* expected :=
         (if (status response =? 400)%Z then
            let* detail := get_prop result "detail" in ret (truthy detail)
          else ret false) in
       if (expected : bool) then
         ret {| success := true; message := "API key is valid - Ready for watermark removal";
                details := VStr "Authentication successful" |}
       else if ok response then
         ret {| success := true; message := "API key is valid and working"; details := result |}
       else
         ret {| success := false;
                message := "API test failed: " +:+ string_of_Z (status response) +:+ " "
                           +:+ statusText response;
                details := result |})
  with
  | inr r => r
  | inl error => connection_failed error
  end.

Definition testLightPDF (fetched : Outcome Response) : TestResult :=
  match
    (let* response := await fetched in
     if ok response then
       let* data := json response in
       let* email := get_prop data "email" in
       ret {| success := true;
              message := "API key valid - Account: " +:+ to_string (or_val email (VStr "Unknown"));
              details := VUndef |}
     else
       ret {| success := false;
              message := "Invalid API key: " +:+ string_of_Z (status response) +:+ " "
                         +:+ statusText response;
              details := VUndef |})
  with
  | inr r => r
  | inl error => connection_failed error
  end.

Record Reply : Type := mkReply { code : Z; body : TestResult }.

Definition too_short : Reply :=
  {| code := 400;
     body := {| success := false; message := "API key appears to be too short or invalid";
                details := VUndef |} |}.

Definition unsupported : Reply :=
  {| code := 400;
     body := {| success := false; message := "Unsupported API provider for testing";
                details := VUndef |} |}.

Definition server_error : Reply :=
  {| code := 500;
     body := {| success := false; message := "Test failed due to server error";
                details := VUndef |} |}.

Section Engine.

(** [converted_lt_10 v] is [v < 10] for a value [v] that is a string, an
    array or an object, as the engine computes it: the operand is converted
    to a number, which can throw.  The handler is defined, and its
    properties are proved, for every such function. *)
Variable converted_lt_10 : value -> Exc bool.

(** [v < 10]: [undefined] converts to [NaN], [null] and the booleans to 0
    or 1. *)
Definition lt_10 (v : value) : Exc bool :=
  match v with
  | VUndef => ret false
  | VNull => ret true
  | VBool _ => ret true
  | VNum z => ret (z <? 10)%Z
  | VStr _ | VArr _ | VObj _ => converted_lt_10 v
  end.

(** Line 98: [!apiKey || apiKey.length < 10] *)
Definition too_short_key (apiKey : value) : Exc bool :=
  if negb (truthy apiKey) then ret true
  else let* len := get_prop apiKey "length" in lt_10 len.

(** Line 106: [apiKey.substring(..)] is a method of strings only. *)
Definition substring_of (apiKey : value) : Exc unit :=
  match apiKey with
  | VStr _ => ret tt
  | _ => throw type_error
  end.

(** Lines 95-122: the [try] block.  [request] is the outcome of
    [request.json()], any JSON value. *)
Definition handler (fetch : string -> Outcome Response) (request : Outcome value)
  : Exc Reply :=
  let* parsed := await request in
  let* provider := get_prop parsed "provider" in
  let* apiKey := get_prop parsed "apiKey" in
  let* short := too_short_key apiKey in
  if (short : bool) then ret too_short
  else
    do* substring_of apiKey in
    if strict_eq_str provider "fal"
    then ret {| code := 200;
                body := testFalAI (fetch "https://fal.run/fal-ai/flux-pro/kontext") |}
    else if strict_eq_str provider "lightpdf"
    then ret {| code := 200;
                body := testLightPDF (fetch "https://api.lightpdf.com/api/v1/account/info") |}
    else ret unsupported.

(** Lines 94-127 *)
Definition POST (fetch : string -> Outcome Response) (request : Outcome value) : Reply :=
  match handler fetch request with
  | inr reply => reply
  | inl _ => server_error
  end.

End Engine.

End TestApi.

(* ===================================================================== *)
(** ** Configured-key test route ([POST], key from the environment) *)
(* ===================================================================== *)

Module TestFal.
Import Http.
Local Open Scope exc_scope.

Record Env : Type := mkEnv {
  FAL_KEY : option string;
  FAL_API_KEY : option string;
  fetch : Outcome Response;
}.

(** The JSON body of a reply; absent fields are [None] / [VUndef]. *)
Record Body : Type := mkBody {
  success : option bool;
  error : option string;
  message : option string;
  details : value;
}.

Record Reply : Type := mkReply { code : Z; body : Body }.

Definition failed (error : string) (details : value) : Body :=
  {| success := Some false; error := Some error; message := None; details := details |}.

(** [!!(result.images && result.images.length > 0)] *)
Definition hasImages (result : value) : Exc bool :=
  let* images := get_prop result "images" in
  if truthy images then
    let* len := get_prop images "length" in ret (gt_zero len)
  else ret false.

(** Lines 43-120 of the handler: from the provider's answer to the body. *)
Definition test_body (env : Env) : Exc Body :=
  let* testResponse := await (fetch env) in
  let* responseText := await (text testResponse) in
  if (status testResponse =? 401)%Z then
    ret (failed "Invalid API key - Authentication failed" (VStr (substring0 200 responseText)))
  else if (status testResponse =? 403)%Z then
    ret (failed "Access forbidden - Check API key permissions"
           (VStr (substring0 200 responseText)))
  else if negb (ok testResponse) then
    match json testResponse with
    | inl _ =>
        ret (failed ("API test failed: " +:+ string_of_Z (status testResponse) +:+ " "
                     +:+ statusText testResponse)
               (VStr (substring0 200 responseText)))
    | inr errorData =>
        ret (failed ("API test failed: " +:+ string_of_Z (status testResponse)) errorData)
    end
  else
    match json testResponse with
    | inl _ =>
        ret (failed "Invalid JSON response from Fal.ai" (VStr (substring0 200 responseText)))
    | inr result =>
        let* has := hasImages result in
        let* request_id := get_prop result "request_id" in
        ret {| success := Some true; error := None;
               message := Some "API key is valid and working";
               details := VObj [ ("status", VNum (status testResponse));
                                 ("hasImages", VBool has);
                                 ("requestId", request_id) ] |}
    end.

Definition POST (env : Env) : Reply :=
  if negb (truthy_str (or_str (FAL_KEY env) (FAL_API_KEY env))) then
    {| code := 400;
       body := {| success := None; error := Some "No API key configured"; message := None;
                  details := VUndef |} |}
  else
    match test_body env with
    | inr b => {| code := 200; body := b |}
    | inl e => {| code := 200; body := failed (error_message e "Unknown error") VUndef |}
    end.

End TestFal.

(* ===================================================================== *)
(** ** The upload form of the main page: [src/app/page.tsx] *)
(* ===================================================================== *)

Module Page.

(** The part of the component state the file handlers touch. *)
Record State : Type := mkState {
  galleryUrl : string;
  selectedFiles : list ProcessImages.File;
  error : string;
}.

Definition is_image (file : ProcessImages.File) : bool :=
  startsWith (ProcessImages.type file) "image/".

(** Lines 36-52; [files] is [Array.from(event.target.files || [])]. *)
Definition handleFileSelect (files : list ProcessImages.File) (st : State) : State :=
  let imageFiles := List.filter is_image files in
  if negb (length imageFiles =? length files)%nat then
    {| galleryUrl := galleryUrl st; selectedFiles := selectedFiles st;
       error := "Only image files are supported" |}
  else if (10 <? length imageFiles)%nat then
    {| galleryUrl := galleryUrl st; selectedFiles := selectedFiles st;
       error := "Maximum 10 images allowed" |}
  else
    {| galleryUrl := galleryUrl st; selectedFiles := imageFiles; error := EmptyString |}.

(** [files.filter((_, i) => i !== index)] *)
Fixpoint remove_at {A} (index : nat) (i : nat) (files : list A) : list A :=
  match files with
  | [] => []
  | f :: rest =>
      if (i =? index)%nat then remove_at index (S i) rest
      else f :: remove_at index (S i) rest
  end.

(** Lines 54-56 *)
Definition removeFile (index : nat) (st : State) : State :=
  {| galleryUrl := galleryUrl st;
     selectedFiles := remove_at index 0 (selectedFiles st);
     error := error st |}.

(** Lines 66-88: the form sent to the processing route, as the route reads
    it back ([fileCount] through [toString] and [parseInt]). *)
Definition formData (sessionId : string) (st : State) : ProcessImages.FormData :=
  {| ProcessImages.sessionId := Some sessionId;
     ProcessImages.galleryUrl :=
       if nonempty (trim (galleryUrl st)) then Some (galleryUrl st) else None;
     ProcessImages.fileCount := Some (Z.of_nat (length (selectedFiles st)));
     ProcessImages.file := fun i => selectedFiles st !! i |}.

End Page.

(* ===================================================================== *)
(** * Vocabulary of the properties *)
(* ===================================================================== *)

(** The predicates, reference functions and sample inputs the properties
    are stated with. *)

Module AdapterSpec.
Import Http WatermarkApi Retry.

(** Peel one [bind] (or [try_catch]) off a successful [try] block. *)
Ltac peel H :=
  repeat match type of H with
  | JS.bind ?m _ = inr _ =>
      let E := fresh "E" in destruct m eqn:E; simpl in H; [discriminate H|]
  | (if ?b then _ else _) = inr _ =>
      let E := fresh "E" in destruct b eqn:E; simpl in H; try discriminate H
  | throw _ = inr _ => discriminate H
  | inl _ = inr _ => discriminate H
  | match ?m with _ => _ end = inr _ =>
      let E := fresh "E" in destruct m eqn:E; simpl in H; try discriminate H
  end.

(** A resolved result is either a success, or a failure that carries an
    error message. *)
Definition well_formed (r : WatermarkRemovalResult) : Prop :=
  success r = true \/ (success r = false /\ exists msg, error r = Some msg).

Definition probe_ok (env : CallEnv) : bool :=
  match fetch1 env with
  | Resolved r => ok r
  | Rejected _ => false
  end.

Definition invalid_url (imageUrl : string) : bool :=
  startsWith imageUrl "/" || includes imageUrl "placeholder.svg".

Definition http_failure (env : CallEnv) : bool :=
  match fetch2 env with
  | Resolved response => negb (ok response)
  | Rejected _ => true
  end.

Definition fal_settings (key : string) : ApiSettings :=
  {| WatermarkApi.provider := "fal"; WatermarkApi.apiKey := key;
     WatermarkApi.endpoint := Some EmptyString |}.

(** A request that was not answered with a success status. *)
Definition request_failed (fetched : Outcome Response) : bool :=
  match fetched with
  | Resolved response => negb (ok response)
  | Rejected _ => true
  end.

(** The [try] block of the variant [removeWatermark] dispatches to; the
    [default] of the [switch] throws. *)
Definition attempt (settings : ApiSettings) (env : CallEnv) (imageUrl filename : string)
  : Exc WatermarkRemovalResult :=
  if String.eqb (provider settings) "fal" then fal_try env imageUrl filename
  else if String.eqb (provider settings) "lightpdf" then lightpdf_try env
  else if String.eqb (provider settings) "watermarkremover"
       then single_request_try env "result_url" "job_id"
  else if String.eqb (provider settings) "rapidapi"
       then single_request_try env "output_url" "request_id"
  else if String.eqb (provider settings) "custom"
       then (if negb (truthy_str (endpoint settings))
             then throw (ErrorObj "Custom endpoint not configured")
             else single_request_try env "processed_url" "job_id")
  else throw (ErrorObj "Unsupported API provider").

(** The text the [catch] block of the variant reports for a thrown value
    that is not an [Error]. *)
Definition fallback (settings : ApiSettings) : string :=
  if String.eqb (provider settings) "fal" then "Unknown error occurred" else "Unknown error".

(** The exchange with the provider failed before a result could be read:
    for the primary variant an invalid URL, a failed probe or a failed
    submission; for the two-step variant a failed upload or a failed
    processing request; for the custom variant a missing endpoint or a
    failed request; for the others a failed request. *)
Definition exchange_failed (settings : ApiSettings) (env : CallEnv) (imageUrl : string)
  : bool :=
  if String.eqb (provider settings) "fal"
  then invalid_url imageUrl || negb (probe_ok env) || http_failure env
  else if String.eqb (provider settings) "lightpdf"
  then request_failed (fetch1 env) || request_failed (fetch2 env)
  else if String.eqb (provider settings) "custom"
  then negb (truthy_str (endpoint settings)) || request_failed (fetch1 env)
  else request_failed (fetch1 env).

(** A provider-level failure of a task: the retried provider call ends
    rejected (retries exhausted, or an error thrown), or resolves with
    [success = false]. *)
Definition provider_failure (settings : WatermarkApi.ApiSettings)
    (oracle : nat -> Http.CallEnv) (imageUrl filename : string) : Prop :=
  match Retry.retryWithBackoff
          (Retry.invoke
             (fun k => WatermarkApi.removeWatermark settings (oracle k) imageUrl filename))
          Retry.maxRetries Retry.retryDelay Retry.start with
  | (Rejected _, _) => True
  | (Resolved r, _) => WatermarkApi.success r = false
  end.

(** The backoff series [d, d*k, d*k^2, ...] of [n] waits. *)
Fixpoint backoff (n : nat) (d : Z) : list Z :=
  match n with
  | O => []
  | S n' => d :: backoff n' (d * backoffMultiplier)
  end.

End AdapterSpec.

Module RouteSpec.
Import ProcessImages.

(** A provider credential is configured when one of the two environment
    variables holds a non-empty string. *)
Definition credential_configured (env : Env) : bool :=
  truthy_str (FAL_KEY env) || truthy_str (FAL_API_KEY env).

Definition demo_active (env : Env) : Prop :=
  DEMO_MODE env = Some "true" \/ credential_configured env = false.

(** The environment runs the real provider: demo mode is off and a
    credential is configured. *)
Definition live (env : Env) : Prop :=
  demoMode env = false /\ credential_configured env = true.

(** The synthetic result for one sample image. *)
Definition synthetic (n : string) : ProcessingResult.t :=
  {| ProcessingResult.originalUrl :=
       "/placeholder.svg?height=400&width=600&text=Sample+Image+" +:+ n +:+ "+with+Watermark";
     ProcessingResult.processedUrl :=
       VStr ("/placeholder.svg?height=400&width=600&text=Sample+Image+" +:+ n
             +:+ "+Watermark+Removed");
     ProcessingResult.filename := "sample_" +:+ n +:+ ".jpg";
     ProcessingResult.status := ProcessingResult.Success;
     ProcessingResult.message := Some "Demo processing completed";
     ProcessingResult.jobId := VUndef |}.

(** [ceil(n / c)] *)
Definition ceil_div (n c : nat) : nat := (n + c - 1) / c.

(** A schedule is valid when, for every window, the completion order is a
    permutation of the window's positions: each task settles once. *)
Definition valid_schedule (limit N : nat) (sched : nat -> list nat) : Prop :=
  forall k, k * limit < N -> sched k ≡ₚ seq 0 (min limit (N - k * limit)).

Section Batch.
Variable settings : WatermarkApi.ApiSettings.
Variable oracle : nat -> nat -> Http.CallEnv.

(** The result the pipeline computes for a task, whatever the schedule. *)
Definition result_of (task : nat * Image) : ProcessingResult.t :=
  (processImageWithRetry settings (oracle task.1) (url task.2) (filename task.2)).1.

Definition done_of (batch : list (nat * Image)) : list (nat * ProcessingResult.t) :=
  map (fun task => (task.1, result_of task)) batch.

Definition finished (done : list (nat * ProcessingResult.t)) (order : list nat)
  : list Event :=
  omap (fun pos => (fun o : nat * ProcessingResult.t => Finished o.1) <$> done !! pos) order.

(** The events of one window: its starts in input order, then its
    completions in some order. *)
Definition window_block (batch : list (nat * Image)) (block : list Event) : Prop :=
  exists completions,
    block = map (fun task : nat * Image => Started task.1) batch ++ completions
    /\ completions ≡ₚ map (fun task : nat * Image => Finished task.1) batch.

End Batch.

Section Session.
Variable sessionId : option string.
Variable N : nat.

(** The snapshot invariant for a batch of [N] tasks. *)
Definition snapshot_ok (p : ProcessingProgress.t) : Prop :=
  ProcessingProgress.total p = N
  /\ length (ProcessingProgress.results p) = ProcessingProgress.completed p
  /\ ProcessingProgress.completed p <= N
  /\ (ProcessingProgress.completed p = N ->
      ProcessingProgress.status p = ProcessingProgress.Completed
      /\ ProcessingProgress.current p = EmptyString).

Definition state_ok (s : Store) : Prop :=
  exists p, s !! sessionId = Some p /\ snapshot_ok p.

(** The [completed] counter of the session in a store state. *)
Definition count (s : Store) : nat :=
  match s !! sessionId with
  | Some p => ProcessingProgress.completed p
  | None => 0
  end.

Definition monotone (l : list Store) : Prop :=
  forall i j s s', i <= j -> l !! i = Some s -> l !! j = Some s' -> count s <= count s'.

(** What holds of a running batch after [k] completions. *)
Record running (k : nat) (st : Store) (obs : list Store) : Prop := {
  run_last : last obs = Some st;
  run_count : count st = k;
  run_all : Forall state_ok obs;
  run_mono : monotone obs;
  run_head : exists s, head obs = Some s /\ count s = 0;
}.

End Session.

Definition unreachable : Http.CallEnv :=
  {| Http.fetch1 := Rejected NonError; Http.fetch2 := Rejected NonError; Http.now := 0 |}.


(** In every window the second task completes first. *)
Definition swapped (k : nat) : list nat :=
  match k with
  | O => [1; 0]
  | S _ => [0]
  end.

(** A live environment in which nothing outside answers. *)
Definition offline : Env :=
  {| DEMO_MODE := None; FAL_KEY := Some "fal_key"; FAL_API_KEY := None;
     put := fun _ => Rejected NonError;
     extract_gallery := fun _ => Rejected NonError;
     oracle := fun _ _ => unreachable;
     sched := swapped |}.

Definition empty_form : FormData :=
  {| sessionId := Some "s1"; galleryUrl := None; fileCount := Some 0%Z;
     file := fun _ => None |}.

(** The provider reachable and answering with one processed image. *)
Definition answering : Http.CallEnv :=
  {| Http.fetch1 :=
       Resolved {| Http.status := 200; Http.statusText := "OK";
                   Http.text := Resolved EmptyString; Http.json := inl NonError |};
     Http.fetch2 :=
       Resolved {| Http.status := 200; Http.statusText := "OK";
                   Http.text := Resolved "{...}";
                   Http.json :=
                     inr (VObj [("images",
                                 VArr [VObj [("url", VStr "https://fal.media/out.jpg")]])]) |};
     Http.now := 17 |}.

(** A live environment in which the provider cannot be reached for the
    first task and answers for the others. *)
Definition first_task_offline : Env :=
  {| DEMO_MODE := None; FAL_KEY := Some "fal_key"; FAL_API_KEY := None;
     put := fun _ => Rejected NonError;
     extract_gallery := fun _ => Rejected NonError;
     oracle := fun task _ => match task with O => unreachable | S _ => answering end;
     sched := swapped |}.

End RouteSpec.

Module StatusSpec.
Import StatusRoute.

(** Two keys with the same length and the same first four characters are
    indistinguishable to everything [GET] reads from the key. *)
Definition alike (k1 k2 : option string) : Prop :=
  match k1, k2 with
  | Some a, Some b => String.length a = String.length b /\ substring0 4 a = substring0 4 b
  | None, None => True
  | _, _ => False
  end.

(** What the reply keeps of the effective key. *)
Definition view (k : option string) : option (nat * string) :=
  match k with
  | Some s => if nonempty s then Some (String.length s, substring0 4 s) else None
  | None => None
  end.

(** The reply as a function of the view alone. *)
Definition render (v : option (nat * string)) (demo email password : bool) : Body :=
  let configured := match v with Some _ => true | None => false end in
  let valid := match v with Some (n, _) => (10 <? n)%nat | None => false end in
  {| demoMode := demo;
     apiConfigured := configured;
     apiKeyFormat := if valid then "valid" else "invalid";
     provider := if demo then "demo" else if configured then "fal" else "demo";
     message :=
       if demo then "Running in demo mode (DEMO_MODE=true)"
       else if configured
            then "Fal.ai API key configured " +:+
                 (if valid then "(format looks correct)" else "(please check format)")
            else "No API key found - running in demo mode";
     keyLength := match v with Some (n, _) => n | None => 0 end;
     keyPrefix := match v with Some (_, p) => Some (p +:+ "...") | None => None end;
     emailConfigured := email;
     passwordConfigured := password |}.

End StatusSpec.

Module GallerySpec.
Import ExtractGallery.

(** Deduplication by URL that keeps the first occurrence: the reference
    the filter of line 124 is compared with. *)
Fixpoint keep_first (seen l : list GalleryImage) : list GalleryImage :=
  match l with
  | [] => []
  | x :: xs =>
      if some_url seen (url x) then keep_first seen xs
      else x :: keep_first (seen ++ [x]) xs
  end.

(** The test of line 124, against the whole list [images]. *)
Definition first_occurrence (images : list GalleryImage) (index : nat) (img : GalleryImage)
  : bool :=
  match findIndex (fun i => String.eqb (url i) (url img)) images with
  | Some j => (index =? j)%nat
  | None => false
  end.

(** The URL passes the three checks of the handler. *)
Definition supported (env : Env) (g : string) : Prop :=
  nonempty g = true /\ url_parses env g = true /\ includes g "pixieset.com" = true.

(** The page could not be scraped: the fetch failed, answered a
    non-success status, or its body could not be read. *)
Definition scrape_failed (fetched : Outcome Fetched) : Prop :=
  match fetched with
  | Rejected _ => True
  | Resolved response => ok response = false \/ exists e, page response = Rejected e
  end.

(** A page behind a password form, on the gallery platform's domain. *)
Definition password_page : Page :=
  {| html := "<html><body><form>Enter password</form></body></html>";
     img_data_src := []; img_src := []; ld_json_images := []; script_urls := [] |}.

Definition password_env : Env :=
  {| url_parses := fun _ => true;
     fetch_gallery := fun _ =>
       Resolved {| status := 200; statusText := "OK"; page := Resolved password_page |} |}.








End GallerySpec.

Module RetrySpec.
Import Retry.

(** The waits of [n] consecutive failures: [d * k^i] for [i = 0 .. n-1]. *)
Definition series (n : nat) (d : Z) : list Z :=
  map (fun i => (d * backoffMultiplier ^ Z.of_nat i)%Z) (seq 0 n).

End RetrySpec.

Module AdapterSamples.
Import Http.

Definition reachable : Response :=
  {| status := 200; statusText := "OK"; text := Resolved EmptyString; json := inl NonError |}.

(** The provider answers 401 with a JSON body. *)
Definition unauthorized : Response :=
  {| status := 401; statusText := "Unauthorized";
     text := Resolved "{ detail: Invalid key }";
     json := inr (VObj [("detail", VStr "Invalid key")]) |}.

Definition unauthorized_env : CallEnv :=
  {| fetch1 := Resolved reachable; fetch2 := Resolved unauthorized; now := 0 |}.

(** A success answer whose JSON lacks the result URL. *)
Definition no_url : Response :=
  {| status := 200; statusText := "OK"; text := Resolved "{ job_id: j1 }";
     json := inr (VObj [("job_id", VStr "j1")]) |}.

Definition no_url_env : CallEnv :=
  {| fetch1 := Resolved no_url; fetch2 := Resolved no_url; now := 0 |}.

(** The provider answers 503 with an HTML page. *)
Definition busy : Response :=
  {| status := 503; statusText := "Service Unavailable";
     text := Resolved "<html>busy</html>"; json := inl (ErrorObj "Unexpected token <") |}.

Definition busy_env : CallEnv :=
  {| fetch1 := Resolved busy; fetch2 := Resolved busy; now := 0 |}.

Definition rapidapi_settings : WatermarkApi.ApiSettings :=
  {| WatermarkApi.provider := "rapidapi"; WatermarkApi.apiKey := "key";
     WatermarkApi.endpoint := None |}.

Definition watermarkremover_settings : WatermarkApi.ApiSettings :=
  {| WatermarkApi.provider := "watermarkremover"; WatermarkApi.apiKey := "key";
     WatermarkApi.endpoint := None |}.

End AdapterSamples.

Module ResolverSpec.
Import ProcessImages.

(** The task the upload loop makes of file [i]: the blob URL when the
    storage write succeeds, the inline data URL otherwise. *)
Definition uploaded_task (env : Env) (i : nat) (f : File) : Image :=
  {| url := match put env i with
            | Resolved blobUrl => blobUrl
            | Rejected _ =>
                "data:" +:+ type f +:+ ";base64," +:+
                match base64 f with
                | Resolved b => b
                | Rejected _ => EmptyString
                end
            end;
     filename := name f;
     isUploaded := true |}.

(** File [i], when present, can be turned into a task: it was stored, or
    it could be read for the inline fallback. *)
Definition usable (env : Env) (form : FormData) (i : nat) : Prop :=
  forall f, file form i = Some f ->
    (exists blobUrl, put env i = Resolved blobUrl) \/ (exists b, base64 f = Resolved b).

(** The request names no gallery: the field is absent, empty or blank. *)
Definition no_gallery (form : FormData) : Prop :=
  match galleryUrl form with
  | None => True
  | Some g => nonempty g && nonempty (trim g) = false
  end.

(** The results recorded in the session's snapshot. *)
Definition snapshot_results (sessionId : option string) (s : Store)
  : list ProcessingResult.t :=
  match s !! sessionId with
  | Some p => ProcessingProgress.results p
  | None => []
  end.

Definition with_sched (sched' : nat -> list nat) (env : Env) : Env :=
  {| DEMO_MODE := DEMO_MODE env; FAL_KEY := FAL_KEY env; FAL_API_KEY := FAL_API_KEY env;
     put := put env; extract_gallery := extract_gallery env; oracle := oracle env;
     sched := sched' |}.

(** A live environment whose storage accepts every file and whose
    provider is unreachable. *)
Definition storing : Env :=
  {| DEMO_MODE := None; FAL_KEY := Some "fal_key"; FAL_API_KEY := None;
     put := fun i => Resolved ("https://blob.example.com/" +:+ string_of_nat i);
     extract_gallery := fun _ => Rejected (ErrorObj "fetch failed");
     oracle := fun _ _ => RouteSpec.unreachable;
     sched := RouteSpec.swapped |}.

Definition photo (n : string) : File :=
  {| name := n; type := "image/jpeg"; base64 := Resolved "QUJD" |}.

Definition two_files : FormData :=
  {| sessionId := Some "s2"; galleryUrl := Some "https://studio.pixieset.com/g/";
     fileCount := Some 2%Z;
     file := fun i => match i with
                      | 0 => Some (photo "a.jpg")
                      | 1 => Some (photo "b.jpg")
                      | _ => None
                      end |}.

(** A request without files whose gallery field holds one no-break
    space. *)
Definition no_break_space_only : FormData :=
  {| sessionId := Some "s4"; galleryUrl := Some (String (ascii_of_nat 160) EmptyString);
     fileCount := Some 0%Z; file := fun _ => None |}.


End ResolverSpec.

Module PageSpec.
Import Page.

(** What the file handlers maintain: at most ten files, all of them
    images. *)
Definition well_formed (st : State) : Prop :=
  length (selectedFiles st) <= 10
  /\ Forall (fun f => is_image f = true) (selectedFiles st).

(** The page after two photographs were selected. *)
Definition two_selected : State :=
  {| galleryUrl := EmptyString;
     selectedFiles := [ResolverSpec.photo "a.jpg"; ResolverSpec.photo "b.jpg"];
     error := EmptyString |}.

End PageSpec.

Module GallerySamples.
Import ExtractGallery.

(** A page whose images come from [src] attributes and inline scripts
    only, one URL being found by both. *)
Definition src_and_scripts : Page :=
  {| html := "<html>pixieset</html>";
     img_data_src := [];
     img_src := [ "https://images.pixieset.com/w_2048/a.jpg";
                  "https://images.pixieset.com/w_2048/a.jpg" ];
     ld_json_images := [];
     script_urls := [ [ "https://images.pixieset.com/w_2048/a.jpg";
                        "https://images.pixieset.com/w_2048/b.jpg" ] ] |}.

End GallerySamples.

Module TestApiSpec.

(** The request body cannot be destructured: reading it failed, or it is
    [null]. *)
Definition unreadable (request : Outcome value) : Prop :=
  match request with
  | Rejected _ => True
  | Resolved parsed => parsed = VUndef \/ parsed = VNull
  end.

(** The request body was read and its property [name] is [v]
    ([undefined] when there is none). *)
Definition field (request : Outcome value) (name : string) (v : value) : Prop :=
  exists parsed, request = Resolved parsed /\ get_prop parsed name = inr v.

(** A readable body whose key is a number. *)
Definition numeric_key : Outcome value :=
  Resolved (VObj [("provider", VStr "fal"); ("apiKey", VNum 12345678901)]).

End TestApiSpec.

(* ===================================================================== *)
(** * Properties *)
(* ===================================================================== *)

(** ** Sanity checks of the string helpers *)

Example replace_demo :
  JS.replace "a=1&text=with+Watermark" "with+Watermark" "Watermark+Removed"
  = "a=1&text=Watermark+Removed".
Proof. reflexivity. Qed.

Example replace_tag_digits_demo :
  JS.replace_tag_digits "https://x/w_400/h_30/a.jpg" "/w_" "/w_2048"
  = "https://x/w_2048/h_30/a.jpg".
Proof. reflexivity. Qed.

Example trim_demo : JS.trim "  a b  " = "a b".
Proof. reflexivity. Qed.

Example trim_no_break_space_demo :
  JS.trim (String (ascii_of_nat 160) ("a" +:+ String (ascii_of_nat 160) EmptyString)) = "a".
Proof. reflexivity. Qed.

Example highRes_demo :
  ExtractGallery.highRes "https://images.pixieset.com/w_400/h_300/c_fill/a.jpg"
  = "https://images.pixieset.com/w_2048/h_2048/c_fit/a.jpg".
Proof. reflexivity. Qed.

(* ===================================================================== *)
(** ** Provider adapter and retry wrapper *)
(* ===================================================================== *)

Module AdapterFacts.
Import Http WatermarkApi AdapterSpec.

Lemma fal_success_response_true env response responseText r :
  fal_success_response env response responseText = inr r -> success r = true.
Proof.
  unfold fal_success_response. intros H. peel H.
  injection H as <-. reflexivity.
Qed.

Lemma fal_error_response_throws response responseText imageUrl r :
  fal_error_response response responseText imageUrl = inr r -> False.
Proof.
  unfold fal_error_response. intros H. peel H.
Qed.

Lemma fal_try_true env imageUrl filename r :
  fal_try env imageUrl filename = inr r -> success r = true.
Proof.
  unfold fal_try. intros H. peel H.
  - exfalso. eapply fal_error_response_throws; eassumption.
  - eapply fal_success_response_true; eassumption.
Qed.

Lemma single_request_try_true env uf jf r :
  single_request_try env uf jf = inr r -> success r = true.
Proof.
  unfold single_request_try. intros H. peel H.
  injection H as <-. reflexivity.
Qed.

Lemma lightpdf_try_true env r :
  lightpdf_try env = inr r -> success r = true.
Proof.
  unfold lightpdf_try. intros H. peel H.
  injection H as <-. reflexivity.
Qed.

Lemma failure_well_formed e fallback : well_formed (failure e fallback).
Proof. right. split; [reflexivity|]. eexists; reflexivity. Qed.

Lemma catch_all_resolves (m : Exc WatermarkRemovalResult) :
  (forall r, m = inr r -> success r = true) ->
  exists r, catch_all m = Resolved r /\ well_formed r.
Proof.
  intros Hm. destruct m as [e|r]; simpl.
  - eexists; split; [reflexivity|apply failure_well_formed].
  - exists r. split; [reflexivity|]. left. apply Hm. reflexivity.
Qed.

Lemma removeWithFluxKontext_resolves env imageUrl filename :
  exists r, removeWithFluxKontext env imageUrl filename = Resolved r /\ well_formed r.
Proof.
  unfold removeWithFluxKontext.
  destruct (fal_try env imageUrl filename) as [e|r] eqn:E.
  - eexists; split; [reflexivity|apply failure_well_formed].
  - exists r. split; [reflexivity|]. left. eapply fal_try_true; eassumption.
Qed.

Lemma recognized_resolves settings env imageUrl filename :
  recognized (provider settings) ->
  exists r, removeWatermark settings env imageUrl filename = Resolved r /\ well_formed r.
Proof.
  unfold recognized, removeWatermark.
  intros [H|[H|[H|[H|H]]]]; rewrite H; simpl.
  - apply removeWithFluxKontext_resolves.
  - apply catch_all_resolves. intros r. apply lightpdf_try_true.
  - apply catch_all_resolves. intros r. apply single_request_try_true.
  - apply catch_all_resolves. intros r. apply single_request_try_true.
  - apply catch_all_resolves. intros r Hr.
    destruct (negb (truthy_str (endpoint settings))); [discriminate Hr|].
    eapply single_request_try_true; eassumption.
Qed.

Lemma unrecognized_rejects settings env imageUrl filename :
  ~ recognized (provider settings) ->
  removeWatermark settings env imageUrl filename
  = Rejected (ErrorObj "Unsupported API provider").
Proof.
  unfold recognized, removeWatermark. intros H.
  repeat match goal with
  | |- context [String.eqb ?a ?b] =>
      let E := fresh "E" in
      destruct (String.eqb_spec a b) as [E|E]; [exfalso; apply H; rewrite E; auto 10|]
  end.
  reflexivity.
Qed.

Lemma rejects_only_unrecognized settings env imageUrl filename e :
  removeWatermark settings env imageUrl filename = Rejected e ->
  ~ recognized (provider settings).
Proof.
  intros H Hrec.
  destruct (recognized_resolves settings env imageUrl filename Hrec) as (r & Hr & _).
  congruence.
Qed.

(** The three failure classes of the primary variant. *)
Lemma fal_local_url env imageUrl filename :
  startsWith imageUrl "/" || includes imageUrl "placeholder.svg" = true ->
  removeWithFluxKontext env imageUrl filename
  = Resolved (failure err_local_url "Unknown error occurred").
Proof. intros H. unfold removeWithFluxKontext, fal_try. rewrite H. reflexivity. Qed.

Lemma fal_probe_failure env imageUrl filename :
  startsWith imageUrl "/" || includes imageUrl "placeholder.svg" = false ->
  probe_ok env = false ->
  removeWithFluxKontext env imageUrl filename
  = Resolved (failure (err_cannot_access imageUrl) "Unknown error occurred").
Proof.
  intros Hv Hp. unfold removeWithFluxKontext, fal_try, probe, probe_ok in *. rewrite Hv.
  destruct (fetch1 env) as [r|e]; simpl.
  - rewrite Hp. reflexivity.
  - reflexivity.
Qed.

Lemma fal_http_failure env imageUrl filename response :
  startsWith imageUrl "/" || includes imageUrl "placeholder.svg" = false ->
  probe_ok env = true ->
  fetch2 env = Resolved response ->
  ok response = false ->
  exists e, removeWithFluxKontext env imageUrl filename
            = Resolved (failure e "Unknown error occurred").
Proof.
  intros Hv Hp Hf Hok. unfold removeWithFluxKontext, fal_try, probe, probe_ok in *.
  rewrite Hv. destruct (fetch1 env) as [r|e]; [|discriminate Hp]. simpl.
  rewrite Hp, Hf. simpl.
  destruct (text response) as [t|e]; simpl.
  - rewrite Hok. simpl.
    destruct (fal_error_response response t imageUrl) as [e|r'] eqn:E.
    + eexists; reflexivity.
    + exfalso. eapply fal_error_response_throws; eassumption.
  - eexists; reflexivity.
Qed.

End AdapterFacts.

Module RetryFacts.
Import Retry AdapterSpec.

(** An operation that resolves is not retried. *)
Lemma retry_resolved {T} (fn : Async T) retries delay w v w' :
  fn w = (Resolved v, w') ->
  retryWithBackoff fn retries delay w = (Resolved v, w').
Proof. intros H. destruct retries; simpl; rewrite H; reflexivity. Qed.

Lemma retry_invoke_resolved {T} (op : nat -> Outcome T) retries delay v :
  op 0 = Resolved v ->
  retryWithBackoff (invoke op) retries delay start
  = (Resolved v, {| calls := 1; log := [Call 0] |}).
Proof. intros H. apply retry_resolved. unfold invoke, start. simpl. rewrite H. reflexivity. Qed.

Lemma waits_app l1 l2 : waits (l1 ++ l2) = waits l1 ++ waits l2.
Proof.
  induction l1 as [|[a|ms] l1 IH]; simpl; [reflexivity| assumption |].
  rewrite IH. reflexivity.
Qed.

Lemma retry_step_rejected {T} (op : nat -> Outcome T) n delay w e :
  op (calls w) = Rejected e ->
  retryWithBackoff (invoke op) (S n) delay w
  = retryWithBackoff (invoke op) n (delay * backoffMultiplier)
      (sleep delay {| calls := S (calls w); log := log w ++ [Call (calls w)] |}).
Proof. intros H. cbn [retryWithBackoff]. unfold invoke at 1. rewrite H. reflexivity. Qed.

(** An operation that rejects every time is invoked [retries + 1] times,
    with the backoff series between the invocations, and the rejection of
    the last invocation is what the wrapper rejects with. *)
Lemma retry_always_rejecting {T} (op : nat -> Outcome T) (err : nat -> Thrown) :
  (forall k, op k = Rejected (err k)) ->
  forall retries delay w,
    (retryWithBackoff (invoke op) retries delay w).1 = Rejected (err (calls w + retries))
    /\ calls (retryWithBackoff (invoke op) retries delay w).2 = calls w + retries + 1
    /\ waits (log (retryWithBackoff (invoke op) retries delay w).2)
       = waits (log w) ++ backoff retries delay.
Proof.
  intros Hop. induction retries as [|n IH]; intros delay w.
  - simpl. unfold invoke. rewrite Hop. simpl.
    replace (calls w + 0) with (calls w) by lia.
    split; [reflexivity|]. split; [lia|].
    rewrite waits_app. reflexivity.
  - rewrite (retry_step_rejected op n delay w (err (calls w))) by apply Hop.
    destruct (IH (delay * backoffMultiplier)%Z
                (sleep delay {| calls := S (calls w); log := log w ++ [Call (calls w)] |}))
      as (H1 & H2 & H3).
    rewrite H1, H2, H3. simpl.
    split; [f_equal; f_equal; lia|]. split; [lia|].
    rewrite !waits_app. simpl. rewrite <- !app_assoc. reflexivity.
Qed.

Example default_backoff : backoff maxRetries retryDelay = [2000; 4000; 8000]%Z.
Proof. reflexivity. Qed.

End RetryFacts.

Module PipelineFacts.
Import Http WatermarkApi Retry ProcessImages.
Import AdapterSpec AdapterFacts RetryFacts.

(** A recognized provider resolves, so the retry wrapper sees a success
    at the first invocation and neither waits nor retries. *)
Lemma recognized_single_attempt settings oracle imageUrl filename retries delay :
  recognized (provider settings) ->
  exists r,
    removeWatermark settings (oracle 0) imageUrl filename = Resolved r
    /\ retryWithBackoff
         (invoke (fun k => removeWatermark settings (oracle k) imageUrl filename))
         retries delay start
       = (Resolved r, {| calls := 1; log := [Call 0] |}).
Proof.
  intros Hrec.
  destruct (recognized_resolves settings (oracle 0) imageUrl filename Hrec) as (r & Hr & _).
  exists r. split; [assumption|].
  apply (retry_invoke_resolved
           (fun k => removeWatermark settings (oracle k) imageUrl filename)).
  assumption.
Qed.

(** Validation, probe and HTTP failures of the primary variant all end in
    the [catch] block. *)
Lemma fal_failure env imageUrl filename :
  invalid_url imageUrl || negb (probe_ok env) || http_failure env = true ->
  exists e, removeWithFluxKontext env imageUrl filename
            = Resolved (failure e "Unknown error occurred").
Proof.
  intros H. unfold invalid_url in H.
  destruct (startsWith imageUrl "/" || includes imageUrl "placeholder.svg") eqn:Hv.
  { eexists. apply fal_local_url. assumption. }
  destruct (probe_ok env) eqn:Hp.
  2:{ eexists. apply fal_probe_failure; assumption. }
  simpl in H. unfold http_failure in H.
  destruct (fetch2 env) as [response|e] eqn:Hf.
  - apply (fal_http_failure env imageUrl filename response); try assumption.
    destruct (ok response); [discriminate H|reflexivity].
  - unfold removeWithFluxKontext, fal_try, probe, probe_ok in *. rewrite Hv.
    destruct (fetch1 env) as [r|e']; [|discriminate Hp]. simpl. rewrite Hp, Hf. simpl.
    eexists; reflexivity.
Qed.

Lemma processImageWithRetry_resolved settings oracle imageUrl filename r :
  removeWatermark settings (oracle 0) imageUrl filename = Resolved r ->
  processImageWithRetry settings oracle imageUrl filename
  = (if success r && truthy (processedImageUrl r)
     then {| ProcessingResult.originalUrl := imageUrl;
             ProcessingResult.processedUrl := processedImageUrl r;
             ProcessingResult.filename := filename;
             ProcessingResult.status := ProcessingResult.Success;
             ProcessingResult.message := None;
             ProcessingResult.jobId := jobId r |}
     else {| ProcessingResult.originalUrl := imageUrl;
             ProcessingResult.processedUrl := VStr imageUrl;
             ProcessingResult.filename := filename;
             ProcessingResult.status := ProcessingResult.Error;
             ProcessingResult.message := or_str (error r) (Some "Processing failed");
             ProcessingResult.jobId := VUndef |},
     {| calls := 1; log := [Call 0] |}).
Proof.
  intros Hr. unfold processImageWithRetry.
  rewrite (retry_invoke_resolved
             (fun k => removeWatermark settings (oracle k) imageUrl filename)
             maxRetries retryDelay r Hr).
  destruct (success r && truthy (processedImageUrl r)); reflexivity.
Qed.

End PipelineFacts.

Module CatchFacts.
Import Http WatermarkApi AdapterSpec AdapterFacts.

(** Every recognized variant is its [try] block under its [catch] block. *)
Lemma removeWatermark_attempt settings env imageUrl filename :
  recognized (provider settings) ->
  removeWatermark settings env imageUrl filename
  = Resolved match attempt settings env imageUrl filename with
             | inr r => r
             | inl e => failure e (fallback settings)
             end.
Proof.
  unfold recognized, removeWatermark, attempt, fallback.
  intros [H|[H|[H|[H|H]]]]; rewrite H; simpl.
  - unfold removeWithFluxKontext. destruct (fal_try env imageUrl filename); reflexivity.
  - unfold removeLightPDF, catch_all. destruct (lightpdf_try env); reflexivity.
  - unfold removeWatermarkRemover, catch_all. destruct (single_request_try _ _ _); reflexivity.
  - unfold removeRapidAPI, catch_all. destruct (single_request_try _ _ _); reflexivity.
  - unfold removeCustom, catch_all.
    destruct (negb (truthy_str (endpoint settings))); [reflexivity|].
    destruct (single_request_try _ _ _); reflexivity.
Qed.

Lemma single_request_returns env uf jf r :
  single_request_try env uf jf = inr r ->
  success r = true /\ error r = None /\ request_failed (fetch1 env) = false.
Proof.
  unfold single_request_try, request_failed. intros H.
  destruct (fetch1 env) as [response|e]; simpl in H; [|discriminate H].
  destruct (ok response); simpl in H; [|discriminate H].
  peel H. injection H as <-. auto.
Qed.

Lemma lightpdf_returns env r :
  lightpdf_try env = inr r ->
  success r = true /\ error r = None
  /\ request_failed (fetch1 env) || request_failed (fetch2 env) = false.
Proof.
  unfold lightpdf_try, request_failed. intros H.
  destruct (fetch1 env) as [upload|e]; simpl in H; [|discriminate H].
  destruct (ok upload); simpl in H; [|discriminate H].
  destruct (json upload) as [e|uploadResult]; simpl in H; [discriminate H|].
  destruct (get_prop uploadResult "file_id") as [e|fileId]; simpl in H; [discriminate H|].
  destruct (fetch2 env) as [processing|e]; simpl in H; [|discriminate H].
  destruct (ok processing); simpl in H; [|discriminate H].
  peel H. injection H as <-. auto.
Qed.

Lemma fal_returns env imageUrl filename r :
  fal_try env imageUrl filename = inr r ->
  success r = true /\ error r = None
  /\ invalid_url imageUrl || negb (probe_ok env) || http_failure env = false.
Proof.
  intros H. split; [eapply fal_try_true; exact H|].
  split.
  - unfold fal_try in H. peel H.
    + exfalso. eapply fal_error_response_throws; eassumption.
    + unfold fal_success_response in H. peel H. injection H as <-. reflexivity.
  - destruct (invalid_url imageUrl || negb (probe_ok env) || http_failure env) eqn:Hf;
      [|reflexivity].
    destruct (PipelineFacts.fal_failure env imageUrl filename Hf) as (e & He).
    unfold removeWithFluxKontext in He. rewrite H in He. injection He as ->.
    apply fal_try_true in H. discriminate H.
Qed.

(** What the [try] block of a variant returns is a success without an
    error message, and it returns only when the exchange did not fail. *)
Lemma attempt_returns settings env imageUrl filename r :
  attempt settings env imageUrl filename = inr r ->
  success r = true /\ error r = None /\ exchange_failed settings env imageUrl = false.
Proof.
  unfold attempt, exchange_failed.
  destruct (String.eqb (provider settings) "fal"); [apply fal_returns|].
  destruct (String.eqb (provider settings) "lightpdf"); [apply lightpdf_returns|].
  destruct (String.eqb (provider settings) "watermarkremover") eqn:Hw.
  { destruct (String.eqb (provider settings) "custom") eqn:Hc.
    - apply String.eqb_eq in Hw, Hc. congruence.
    - apply single_request_returns. }
  destruct (String.eqb (provider settings) "rapidapi") eqn:Hr.
  { destruct (String.eqb (provider settings) "custom") eqn:Hc.
    - apply String.eqb_eq in Hr, Hc. congruence.
    - apply single_request_returns. }
  destruct (String.eqb (provider settings) "custom"); [|discriminate].
  destruct (negb (truthy_str (endpoint settings))); [discriminate|].
  simpl. apply single_request_returns.
Qed.

End CatchFacts.

(** C10. For each of the five recognized provider variants
    [removeWatermark] resolves, whatever the network answers, with what its
    [try] block returned, a success without an error message, or, when
    anything was thrown inside the [try] block, with [success = false] and
    the message of the thrown error ([Unknown error] when it is not an
    [Error]).  In particular a failed exchange (for the primary variant an
    invalid URL, a failed probe or a failed submission; for the others a
    request that is rejected or answered with a non-success status, or a
    missing custom endpoint) gives [success = false] with an error message.
    It rejects exactly when the provider string is not recognized.  Hence
    the retry wrapper, run over a recognized provider, sees a resolution at
    its first invocation: one call, no wait. *)
Theorem removeWatermark_never_rejects
    (settings : WatermarkApi.ApiSettings) (oracle : nat -> Http.CallEnv)
    (imageUrl filename : string) :
  (WatermarkApi.recognized (WatermarkApi.provider settings) ->
     exists r,
       WatermarkApi.removeWatermark settings (oracle 0) imageUrl filename = Resolved r
       /\ ((AdapterSpec.attempt settings (oracle 0) imageUrl filename = inr r
            /\ WatermarkApi.success r = true /\ WatermarkApi.error r = None)
           \/ (exists e,
                 AdapterSpec.attempt settings (oracle 0) imageUrl filename = inl e
                 /\ r = {| WatermarkApi.success := false;
                           WatermarkApi.processedImageUrl := VUndef;
                           WatermarkApi.error :=
                             Some (error_message e (AdapterSpec.fallback settings));
                           WatermarkApi.jobId := VUndef |}))
       /\ (WatermarkApi.success r = true
           \/ (WatermarkApi.success r = false /\ exists msg, WatermarkApi.error r = Some msg))
       /\ (AdapterSpec.exchange_failed settings (oracle 0) imageUrl = true ->
           WatermarkApi.success r = false
           /\ WatermarkApi.processedImageUrl r = VUndef
           /\ exists msg, WatermarkApi.error r = Some msg)
       /\ forall retries delay,
            Retry.retryWithBackoff
              (Retry.invoke
                 (fun k => WatermarkApi.removeWatermark settings (oracle k) imageUrl filename))
              retries delay Retry.start
            = (Resolved r, {| Retry.calls := 1; Retry.log := [Retry.Call 0] |}))
  /\ (WatermarkApi.provider settings = "fal" ->
      AdapterSpec.invalid_url imageUrl
      || negb (AdapterSpec.probe_ok (oracle 0))
      || AdapterSpec.http_failure (oracle 0) = true ->
      exists msg,
        WatermarkApi.removeWatermark settings (oracle 0) imageUrl filename
        = Resolved {| WatermarkApi.success := false;
                      WatermarkApi.processedImageUrl := VUndef;
                      WatermarkApi.error := Some msg;
                      WatermarkApi.jobId := VUndef |})
  /\ ((exists e, WatermarkApi.removeWatermark settings (oracle 0) imageUrl filename = Rejected e)
      <-> ~ WatermarkApi.recognized (WatermarkApi.provider settings)).
Proof.
  split; [|split].
  - intros Hrec.
    pose proof (CatchFacts.removeWatermark_attempt settings (oracle 0) imageUrl filename Hrec)
      as Hr.
    eexists. split; [exact Hr|].
    destruct (AdapterSpec.attempt settings (oracle 0) imageUrl filename) as [e|r] eqn:Ha.
    + split; [right; exists e; split; reflexivity|].
      split; [right; split; [reflexivity|eexists; reflexivity]|].
      split; [intros _; split; [reflexivity|split; [reflexivity|eexists; reflexivity]]|].
      intros retries delay.
      apply (RetryFacts.retry_invoke_resolved
               (fun k => WatermarkApi.removeWatermark settings (oracle k) imageUrl filename)).
      exact Hr.
    + destruct (CatchFacts.attempt_returns settings (oracle 0) imageUrl filename r Ha)
        as (Hs & He & Hx).
      split; [left; auto|]. split; [left; exact Hs|].
      split; [intros Hf; congruence|].
      intros retries delay.
      apply (RetryFacts.retry_invoke_resolved
               (fun k => WatermarkApi.removeWatermark settings (oracle k) imageUrl filename)).
      exact Hr.
  - intros Hp Hfail. unfold WatermarkApi.removeWatermark. rewrite Hp. simpl.
    destruct (PipelineFacts.fal_failure (oracle 0) imageUrl filename Hfail) as (e & He).
    rewrite He. eexists. reflexivity.
  - split.
    + intros (e & He). eapply AdapterFacts.rejects_only_unrecognized. eassumption.
    + intros Hn. eexists. apply AdapterFacts.unrecognized_rejects. assumption.
Qed.

(** C10, at a concrete input: a secondary variant whose provider answers
    503. *)
Lemma removeWatermark_never_rejects_witness :
  exists r,
    WatermarkApi.removeWatermark AdapterSamples.rapidapi_settings AdapterSamples.busy_env
      "https://cdn.example.com/a.jpg" "a.jpg" = Resolved r
    /\ WatermarkApi.success r = false
    /\ exists msg, WatermarkApi.error r = Some msg.
Proof.
  destruct (removeWatermark_never_rejects AdapterSamples.rapidapi_settings
              (fun _ => AdapterSamples.busy_env) "https://cdn.example.com/a.jpg" "a.jpg")
    as (H & _).
  destruct (H ltac:(right; right; right; left; reflexivity))
    as (r & Hr & _ & _ & Hfail & _).
  destruct (Hfail eq_refl) as (Hs & _ & Hm).
  exists r. split; [exact Hr|]. split; [exact Hs|exact Hm].
Defined.

(** The retry wrapper by itself does what C1 describes when the wrapped
    operation rejects every time: [maxRetries + 1 = 4] invocations, waits of
    2000, 4000 and 8000 ms in between, and the last rejection handed on
    unchanged. *)
Lemma retry_wrapper_on_rejections {T} (op : nat -> Outcome T) (err : nat -> Thrown) :
  (forall k, op k = Rejected (err k)) ->
  Retry.retryWithBackoff (Retry.invoke op) Retry.maxRetries Retry.retryDelay Retry.start
  = (Rejected (err 3),
     {| Retry.calls := 4;
        Retry.log := [Retry.Call 0; Retry.Sleep 2000; Retry.Call 1; Retry.Sleep 4000;
                      Retry.Call 2; Retry.Sleep 8000; Retry.Call 3] |}).
Proof.
  intros Hop. unfold Retry.maxRetries, Retry.retryDelay.
  rewrite (RetryFacts.retry_step_rejected op _ _ _ (err 0)) by apply Hop.
  rewrite (RetryFacts.retry_step_rejected op _ _ _ (err 1)) by apply Hop.
  rewrite (RetryFacts.retry_step_rejected op _ _ _ (err 2)) by apply Hop.
  simpl. unfold Retry.invoke. simpl. rewrite Hop. reflexivity.
Qed.

(** An unrecognized provider is the one case in which the pipeline retries:
    [removeWatermark] rejects, four calls are made, and the task ends in an
    error result. *)
Lemma unrecognized_provider_is_retried (oracle : nat -> Http.CallEnv) (imageUrl filename : string) :
  ProcessImages.processImageWithRetry
    {| WatermarkApi.provider := "other"; WatermarkApi.apiKey := "key";
       WatermarkApi.endpoint := None |} oracle imageUrl filename
  = ({| ProcessingResult.originalUrl := imageUrl;
        ProcessingResult.processedUrl := VStr imageUrl;
        ProcessingResult.filename := filename;
        ProcessingResult.status := ProcessingResult.Error;
        ProcessingResult.message := Some "Unsupported API provider";
        ProcessingResult.jobId := VUndef |},
     {| Retry.calls := 4;
        Retry.log := [Retry.Call 0; Retry.Sleep 2000; Retry.Call 1; Retry.Sleep 4000;
                      Retry.Call 2; Retry.Sleep 8000; Retry.Call 3] |}).
Proof.
  unfold ProcessImages.processImageWithRetry.
  rewrite (retry_wrapper_on_rejections _ (fun _ => ErrorObj "Unsupported API provider"))
    by reflexivity.
  reflexivity.
Qed.

(** C1 (the code departs from the claim).  Take the provider the route
    configures ("fal") and a task whose image URL is local, so that every
    provider call fails at URL validation whatever the network does.  The
    adapter turns the failure into a resolved [success = false]; the retry
    wrapper therefore never retries: the pipeline makes one provider call
    and no wait (not [maxRetries + 1 = 4] calls with waits 2000, 4000, 8000)
    before the error result. *)
Theorem always_failing_task_is_attempted_once
    (oracle : nat -> Http.CallEnv) (key filename : string) :
  (forall k,
     WatermarkApi.removeWatermark (AdapterSpec.fal_settings key) (oracle k)
       "/uploads/photo.jpg" filename
     = Resolved (WatermarkApi.failure WatermarkApi.err_local_url "Unknown error occurred"))
  /\ ProcessingResult.status
       (ProcessImages.processImageWithRetry (AdapterSpec.fal_settings key) oracle
          "/uploads/photo.jpg" filename).1 = ProcessingResult.Error
  /\ Retry.attempts
       (ProcessImages.processImageWithRetry (AdapterSpec.fal_settings key) oracle
          "/uploads/photo.jpg" filename).2 = 1
  /\ Retry.waits
       (Retry.log
          (ProcessImages.processImageWithRetry (AdapterSpec.fal_settings key) oracle
             "/uploads/photo.jpg" filename).2) = []
  /\ Retry.attempts
       (ProcessImages.processImageWithRetry (AdapterSpec.fal_settings key) oracle
          "/uploads/photo.jpg" filename).2 <> Retry.maxRetries + 1.
Proof.
  assert (Hk : forall k,
             WatermarkApi.removeWatermark (AdapterSpec.fal_settings key) (oracle k)
               "/uploads/photo.jpg" filename
             = Resolved (WatermarkApi.failure WatermarkApi.err_local_url
                           "Unknown error occurred")).
  { intros k. reflexivity. }
  split; [exact Hk|].
  rewrite (PipelineFacts.processImageWithRetry_resolved _ _ _ _ _ (Hk 0)).
  simpl. unfold Retry.attempts, Retry.maxRetries. simpl.
  repeat split; try reflexivity. lia.
Qed.

(** The same with a public image and a provider that answers 503 to every
    submission: one call, no wait, an error result. *)
Example provider_outage_is_attempted_once :
  let response :=
    {| Http.status := 503; Http.statusText := "Service Unavailable";
       Http.text := Resolved "<html>busy</html>";
       Http.json := inl (ErrorObj "Unexpected token <") |} in
  let reachable :=
    {| Http.status := 200; Http.statusText := "OK"; Http.text := Resolved "";
       Http.json := inl (ErrorObj "Unexpected end of JSON input") |} in
  let oracle := fun _ : nat =>
    {| Http.fetch1 := Resolved reachable; Http.fetch2 := Resolved response; Http.now := 0 |} in
  ProcessImages.processImageWithRetry (AdapterSpec.fal_settings "key") oracle
    "https://cdn.example.com/a.jpg" "a.jpg"
  = ({| ProcessingResult.originalUrl := "https://cdn.example.com/a.jpg";
        ProcessingResult.processedUrl := VStr "https://cdn.example.com/a.jpg";
        ProcessingResult.filename := "a.jpg";
        ProcessingResult.status := ProcessingResult.Error;
        ProcessingResult.message :=
          Some "Fal API error: 503 - Service Unavailable. Response: <html>busy</html>";
        ProcessingResult.jobId := VUndef |},
     {| Retry.calls := 1; Retry.log := [Retry.Call 0] |}).
Proof. reflexivity. Qed.

(* ===================================================================== *)
(** ** Demo mode, progress polling, status *)
(* ===================================================================== *)

Module RouteFacts.
Import ProcessImages RouteSpec.

Lemma apiKey_truthy env : truthy_str (apiKey env) = credential_configured env.
Proof.
  unfold apiKey, credential_configured, or_str.
  destruct (truthy_str (FAL_KEY env)) eqn:H1; simpl.
  - rewrite H1. simpl. assumption.
  - destruct (truthy_str (FAL_API_KEY env)) eqn:H2; simpl; [assumption|reflexivity].
Qed.

Lemma demo_active_branch env :
  demo_active env -> demoMode env || negb (truthy_str (apiKey env)) = true.
Proof.
  intros [H|H].
  - unfold demoMode. rewrite H. reflexivity.
  - rewrite apiKey_truthy, H. apply orb_true_r.
Qed.

Lemma demo_results_eq : demo_results = [synthetic "1"; synthetic "2"; synthetic "3"].
Proof. reflexivity. Qed.

End RouteFacts.

(** C5. With [DEMO_MODE=true], or with no provider credential configured,
    [POST] answers any parsed form (in particular one with zero uploads and
    no gallery URL) with status 200, the fixed three synthetic results, each
    of status success, the session id of the form and [demoMode: true]; it
    makes no external call and leaves the progress store alone. *)
Theorem demo_mode_returns_synthetic_results
    (env : ProcessImages.Env) (form : ProcessImages.FormData)
    (store0 : gmap (option string) ProcessingProgress.t) :
  RouteSpec.demo_active env ->
  exists served,
    ProcessImages.POST env (Resolved form) store0 = Some served
    /\ ProcessImages.reply served
       = {| Reply.code := 200;
            Reply.body :=
              Reply.Results
                [RouteSpec.synthetic "1"; RouteSpec.synthetic "2"; RouteSpec.synthetic "3"]
                (ProcessImages.sessionId form) true |}
    /\ Forall (fun r => ProcessingResult.status r = ProcessingResult.Success)
         ProcessImages.demo_results
    /\ length ProcessImages.demo_results = 3
    /\ ProcessImages.external served = []
    /\ ProcessImages.store_after served = store0.
Proof.
  intros Hdemo. unfold ProcessImages.POST.
  rewrite (RouteFacts.demo_active_branch env Hdemo).
  eexists. split; [reflexivity|]. simpl.
  repeat split.
  repeat constructor.
Qed.

(** C5, at a concrete request: no environment variable set, zero uploads,
    no gallery URL. *)
Lemma demo_mode_returns_synthetic_results_witness :
  exists served,
    ProcessImages.POST
      {| ProcessImages.DEMO_MODE := None; ProcessImages.FAL_KEY := None;
         ProcessImages.FAL_API_KEY := None;
         ProcessImages.put := fun _ => Rejected NonError;
         ProcessImages.extract_gallery := fun _ => Rejected NonError;
         ProcessImages.oracle := fun _ _ =>
           {| Http.fetch1 := Rejected NonError; Http.fetch2 := Rejected NonError; Http.now := 0 |};
         ProcessImages.sched := fun _ => [] |}
      (Resolved {| ProcessImages.sessionId := Some "s1"; ProcessImages.galleryUrl := None;
                   ProcessImages.fileCount := Some 0%Z; ProcessImages.file := fun _ => None |})
      ∅ = Some served
    /\ ProcessImages.external served = [].
Proof.
  destruct (demo_mode_returns_synthetic_results
              {| ProcessImages.DEMO_MODE := None; ProcessImages.FAL_KEY := None;
                 ProcessImages.FAL_API_KEY := None;
                 ProcessImages.put := fun _ => Rejected NonError;
                 ProcessImages.extract_gallery := fun _ => Rejected NonError;
                 ProcessImages.oracle := fun _ _ =>
                   {| Http.fetch1 := Rejected NonError; Http.fetch2 := Rejected NonError;
                      Http.now := 0 |};
                 ProcessImages.sched := fun _ => [] |}
              {| ProcessImages.sessionId := Some "s1"; ProcessImages.galleryUrl := None;
                 ProcessImages.fileCount := Some 0%Z; ProcessImages.file := fun _ => None |}
              ∅ (or_intror eq_refl))
    as (served & H & _ & _ & _ & Hext & _).
  exists served. split; assumption.
Defined.

(** C8 as stated fails on an empty [sessionId]: the parameter is present
    and unknown to the (empty) store, yet the answer is 400, not 404. *)
Lemma empty_session_id_is_rejected :
  (∅ : gmap (option string) ProcessingProgress.t) !! Some EmptyString = None
  /\ Reply.code (ProcessImages.GET (Some EmptyString) ∅) = 400%Z
  /\ Reply.code (ProcessImages.GET (Some EmptyString) ∅) <> 404%Z.
Proof. split; [reflexivity|]. split; [reflexivity|]. discriminate. Qed.

(** C8, amended.  [GET] answers 400 when the [sessionId] parameter is
    missing or empty; 404 when it is non-empty and unknown to the progress
    store; and otherwise the current snapshot of that session with status
    200. *)
Theorem progress_polling_replies
    (sessionId : option string) (store0 : gmap (option string) ProcessingProgress.t) :
  (sessionId = None \/ sessionId = Some EmptyString ->
     ProcessImages.GET sessionId store0 = Reply.error "Session ID required" 400)
  /\ (forall s, sessionId = Some s -> s <> EmptyString -> store0 !! Some s = None ->
        ProcessImages.GET sessionId store0 = Reply.error "Session not found" 404)
  /\ (forall s progress, sessionId = Some s -> s <> EmptyString ->
        store0 !! Some s = Some progress ->
        ProcessImages.GET sessionId store0
        = {| Reply.code := 200; Reply.body := Reply.Progress progress |}).
Proof.
  unfold ProcessImages.GET. split; [|split].
  - intros [->| ->]; reflexivity.
  - intros s -> Hs Hnone. destruct s; [congruence|]. simpl. rewrite Hnone. reflexivity.
  - intros s progress -> Hs Hsome. destruct s; [congruence|]. simpl. rewrite Hsome. reflexivity.
Qed.

(** C8 amended, at concrete requests. *)
Lemma progress_polling_replies_witness :
  Reply.code (ProcessImages.GET None ∅) = 400%Z
  /\ Reply.code (ProcessImages.GET (Some "abc") ∅) = 404%Z
  /\ Reply.code
       (ProcessImages.GET (Some "abc")
          (<[Some "abc" :=
               {| ProcessingProgress.total := 1; ProcessingProgress.completed := 0;
                  ProcessingProgress.current := EmptyString;
                  ProcessingProgress.status := ProcessingProgress.Processing;
                  ProcessingProgress.results := [] |}]> ∅)) = 200%Z.
Proof.
  split; [|split].
  - rewrite (proj1 (progress_polling_replies None ∅) (or_introl eq_refl)). reflexivity.
  - rewrite (proj1 (proj2 (progress_polling_replies (Some "abc") ∅)) "abc" eq_refl
               ltac:(discriminate) ltac:(reflexivity)).
    reflexivity.
  - erewrite (proj2 (proj2 (progress_polling_replies (Some "abc") _)) "abc" _ eq_refl
                ltac:(discriminate)).
    + reflexivity.
    + apply lookup_insert_eq.
Defined.

Module StatusFacts.
Import StatusRoute StatusSpec.

Lemma nonempty_length (k : string) : nonempty k = (0 <? String.length k)%nat.
Proof. destruct k; reflexivity. Qed.

Lemma GET_render env :
  GET env
  = render (view (apiKey env))
      (match DEMO_MODE env with Some s => String.eqb s "true" | None => false end)
      (truthy_str (FAL_EMAIL env)) (truthy_str (FAL_PASSWORD env)).
Proof.
  unfold GET, render, view, isValidFormat.
  destruct (apiKey env) as [k|]; [|reflexivity].
  simpl. destruct (nonempty k) eqn:Hk; reflexivity.
Qed.

Lemma view_alike k1 k2 : alike k1 k2 -> view k1 = view k2.
Proof.
  destruct k1 as [a|], k2 as [b|]; simpl; try tauto.
  intros [Hl Hp]. rewrite !nonempty_length, Hl, Hp. reflexivity.
Qed.

Lemma truthy_alike k1 k2 : alike k1 k2 -> truthy_str k1 = truthy_str k2.
Proof.
  destruct k1 as [a|], k2 as [b|]; simpl; try tauto.
  intros [Hl _]. rewrite !nonempty_length, Hl. reflexivity.
Qed.

Lemma view_apiKey_FAL_KEY env k1 k2 :
  alike k1 k2 ->
  view (apiKey (with_FAL_KEY k1 env)) = view (apiKey (with_FAL_KEY k2 env)).
Proof.
  intros H. unfold apiKey, or_str. simpl.
  rewrite (truthy_alike k1 k2 H).
  destruct (truthy_str k2); [apply view_alike; assumption|reflexivity].
Qed.

Lemma view_apiKey_FAL_API_KEY env k1 k2 :
  alike k1 k2 ->
  view (apiKey (with_FAL_API_KEY k1 env)) = view (apiKey (with_FAL_API_KEY k2 env)).
Proof.
  intros H. unfold apiKey, or_str. simpl.
  destruct (truthy_str (FAL_KEY env)); [reflexivity|apply view_alike; assumption].
Qed.

Lemma substring0_short (s : string) : forall n,
  String.length s <= n -> substring0 n s = s.
Proof.
  unfold substring0. induction s as [|c s IH]; intros n Hn.
  - destruct n; reflexivity.
  - destruct n as [|n]; simpl in *; [lia|]. f_equal. apply IH. lia.
Qed.

Lemma substring0_length (s : string) : forall n, String.length (substring0 n s) <= n.
Proof.
  unfold substring0. induction s as [|c s IH]; intros n.
  - destruct n; simpl; lia.
  - destruct n as [|n]; simpl; [lia|]. specialize (IH n). lia.
Qed.

Lemma length_append (a b : string) :
  String.length (a +:+ b) = String.length a + String.length b.
Proof. induction a as [|c a IH]; simpl; [reflexivity|]. rewrite IH. reflexivity. Qed.

(** What the reply shows of a non-empty [FAL_KEY]. *)
Lemma shown_of_FAL_KEY env k :
  k <> EmptyString ->
  keyPrefix (GET (with_FAL_KEY (Some k) env)) = Some (substring0 4 k +:+ "...")
  /\ keyLength (GET (with_FAL_KEY (Some k) env)) = String.length k.
Proof.
  intros Hk. unfold GET, apiKey, or_str. simpl.
  destruct k as [|c k]; [congruence|]. simpl. auto.
Qed.

End StatusFacts.

(** C9 as stated does not hold: the reply can contain the credential
    itself.  The key [abcd...] is returned as it is in [keyPrefix], and a key
    of three characters is returned whole, followed by three dots. *)
Example dotted_key_is_returned_whole :
  StatusRoute.keyPrefix
    (StatusRoute.GET
       {| StatusRoute.FAL_KEY := Some "abcd..."; StatusRoute.FAL_API_KEY := None;
          StatusRoute.DEMO_MODE := None; StatusRoute.FAL_EMAIL := None;
          StatusRoute.FAL_PASSWORD := None |})
  = Some "abcd..."
  /\ StatusRoute.keyPrefix
       (StatusRoute.GET
          {| StatusRoute.FAL_KEY := Some "abc"; StatusRoute.FAL_API_KEY := None;
             StatusRoute.DEMO_MODE := None; StatusRoute.FAL_EMAIL := None;
             StatusRoute.FAL_PASSWORD := None |})
     = Some "abc...".
Proof. split; reflexivity. Qed.

(** C9, amended.  The status reply depends on the credential only through
    its length and its first four characters: two values of [FAL_KEY] (or of
    [FAL_API_KEY]) that agree on both, all other environment variables being
    equal, produce the same reply.  Of a non-empty [FAL_KEY] the reply shows
    the length and, in [keyPrefix], the first four characters followed by
    three dots: a key of at most four characters is shown whole, and
    [keyPrefix] is never a key of more than seven characters. *)
Theorem status_reply_hides_credential (env : StatusRoute.Env) (k1 k2 : string) :
  String.length k1 = String.length k2 ->
  substring0 4 k1 = substring0 4 k2 ->
  StatusRoute.GET (StatusRoute.with_FAL_KEY (Some k1) env)
  = StatusRoute.GET (StatusRoute.with_FAL_KEY (Some k2) env)
  /\ StatusRoute.GET (StatusRoute.with_FAL_API_KEY (Some k1) env)
     = StatusRoute.GET (StatusRoute.with_FAL_API_KEY (Some k2) env)
  /\ (k1 <> EmptyString ->
      StatusRoute.keyPrefix (StatusRoute.GET (StatusRoute.with_FAL_KEY (Some k1) env))
      = Some (substring0 4 k1 +:+ "...")
      /\ StatusRoute.keyLength (StatusRoute.GET (StatusRoute.with_FAL_KEY (Some k1) env))
         = String.length k1)
  /\ (k1 <> EmptyString -> String.length k1 <= 4 ->
      StatusRoute.keyPrefix (StatusRoute.GET (StatusRoute.with_FAL_KEY (Some k1) env))
      = Some (k1 +:+ "..."))
  /\ (7 < String.length k1 ->
      StatusRoute.keyPrefix (StatusRoute.GET (StatusRoute.with_FAL_KEY (Some k1) env))
      <> Some k1).
Proof.
  intros Hl Hp.
  assert (Ha : StatusSpec.alike (Some k1) (Some k2)) by (split; assumption).
  rewrite !StatusFacts.GET_render.
  rewrite (StatusFacts.view_apiKey_FAL_KEY env _ _ Ha).
  rewrite (StatusFacts.view_apiKey_FAL_API_KEY env _ _ Ha).
  split; [reflexivity|]. split; [reflexivity|].
  rewrite <- (StatusFacts.view_apiKey_FAL_KEY env _ _ Ha), <- StatusFacts.GET_render.
  split; [apply StatusFacts.shown_of_FAL_KEY|]. split.
  - intros Hk Hlen. rewrite (proj1 (StatusFacts.shown_of_FAL_KEY env k1 Hk)).
    rewrite StatusFacts.substring0_short by exact Hlen. reflexivity.
  - intros Hlen H.
    assert (Hk : k1 <> EmptyString) by (intros ->; simpl in Hlen; lia).
    rewrite (proj1 (StatusFacts.shown_of_FAL_KEY env k1 Hk)) in H.
    injection H as H. apply (f_equal String.length) in H.
    rewrite StatusFacts.length_append in H.
    pose proof (StatusFacts.substring0_length k1 4). simpl in H. lia.
Qed.

(** C9, at two concrete keys that differ after the fourth character. *)
Lemma status_reply_hides_credential_witness :
  StatusRoute.GET
    {| StatusRoute.FAL_KEY := Some "fal_live_aaaaaaaa"; StatusRoute.FAL_API_KEY := None;
       StatusRoute.DEMO_MODE := None; StatusRoute.FAL_EMAIL := None;
       StatusRoute.FAL_PASSWORD := None |}
  = StatusRoute.GET
      {| StatusRoute.FAL_KEY := Some "fal_test_bbbbbbbb"; StatusRoute.FAL_API_KEY := None;
         StatusRoute.DEMO_MODE := None; StatusRoute.FAL_EMAIL := None;
         StatusRoute.FAL_PASSWORD := None |}.
Proof.
  exact (proj1 (status_reply_hides_credential
                  {| StatusRoute.FAL_KEY := None; StatusRoute.FAL_API_KEY := None;
                     StatusRoute.DEMO_MODE := None; StatusRoute.FAL_EMAIL := None;
                     StatusRoute.FAL_PASSWORD := None |}
                  "fal_live_aaaaaaaa" "fal_test_bbbbbbbb" eq_refl eq_refl)).
Defined.

(* ===================================================================== *)
(** ** The batch scheduler *)
(* ===================================================================== *)

Module WindowFacts.
Import ProcessImages.

Lemma ceil_step (d limit : nat) :
  1 <= limit -> 1 <= d ->
  (d + limit - 1) / limit = S ((d - limit + limit - 1) / limit).
Proof.
  intros Hl Hd.
  replace (d + limit - 1) with ((d - 1) + 1 * limit) by lia.
  rewrite Nat.div_add by lia.
  destruct (le_lt_dec limit d) as [Hge|Hlt].
  - replace (d - limit + limit - 1) with (d - 1) by lia. lia.
  - replace (d - limit + limit - 1) with (limit - 1) by lia.
    rewrite !Nat.div_small by lia. reflexivity.
Qed.

(** With [limit >= 1] and fuel for every element that is left, the loop
    ends, and its windows are the consecutive slices of the list. *)
Lemma batch_windows_spec {A} (limit : nat) (l : list A) :
  1 <= limit ->
  forall fuel i, length l - i <= fuel ->
    exists ws,
      batch_windows limit l fuel i = Some ws
      /\ concat ws = drop i l
      /\ length ws = (length l - i + limit - 1) / limit
      /\ forall k w, ws !! k = Some w ->
           w = slice (i + k * limit) (i + k * limit + limit) l
           /\ i + k * limit < length l.
Proof.
  intros Hl. induction fuel as [|fuel IH]; intros i Hfuel.
  - assert (Hi : length l <= i) by lia.
    exists []. simpl. apply Nat.leb_le in Hi as Hb. rewrite Hb.
    split; [reflexivity|]. split; [symmetry; apply drop_ge; assumption|].
    split.
    + replace (length l - i) with 0 by lia. simpl.
      rewrite Nat.div_small by lia. reflexivity.
    + intros k w Hk. discriminate Hk.
  - simpl. destruct (length l <=? i)%nat eqn:Hb.
    + apply Nat.leb_le in Hb. exists [].
      split; [reflexivity|]. split; [symmetry; apply drop_ge; assumption|].
      split.
      * replace (length l - i) with 0 by lia. simpl.
        rewrite Nat.div_small by lia. reflexivity.
      * intros k w Hk. discriminate Hk.
    + apply Nat.leb_gt in Hb.
      destruct (IH (i + limit)) as (ws & Hws & Hcat & Hlen & Hsl); [lia|].
      exists (slice i (i + limit) l :: ws). rewrite Hws.
      split; [reflexivity|]. split; [|split].
      * simpl. rewrite Hcat. unfold slice.
        replace (i + limit - i) with limit by lia.
        rewrite <- (drop_drop l limit i). apply take_drop.
      * simpl. rewrite Hlen.
        rewrite (ceil_step (length l - i) limit) by lia.
        do 2 f_equal. lia.
      * intros [|k] w Hk; simpl in Hk.
        -- injection Hk as <-. simpl. rewrite Nat.add_0_r. split; [reflexivity|assumption].
        -- destruct (Hsl k w Hk) as [-> Hlt].
           split; [|lia].
           replace (i + S k * limit) with (i + limit + k * limit) by lia. reflexivity.
Qed.

Lemma indexed_fst {A} (l : list A) : (indexed l).*1 = seq 0 (length l).
Proof. unfold indexed. apply fst_zip. rewrite length_seq. lia. Qed.

Lemma indexed_snd {A} (l : list A) : (indexed l).*2 = l.
Proof. unfold indexed. apply snd_zip. rewrite length_seq. lia. Qed.

Lemma indexed_length {A} (l : list A) : length (indexed l) = length l.
Proof. rewrite <- (length_fmap fst), indexed_fst, length_seq. reflexivity. Qed.

Lemma indexed_lookup {A} (l : list A) i x :
  l !! i = Some x -> indexed l !! i = Some (i, x).
Proof.
  intros H. unfold indexed. apply lookup_zip_Some. split; [|assumption].
  apply lookup_seq. split; [reflexivity|]. eapply lookup_lt_Some; eassumption.
Qed.

(** The task indices of a slice of the indexed list. *)
Lemma slice_indexed_fst {A} (l : list A) a b :
  (slice a b (indexed l)).*1 = seq a (min (b - a) (length l - a)).
Proof.
  unfold slice. rewrite fmap_take, fmap_drop, indexed_fst.
  rewrite drop_seq, take_seq. simpl. reflexivity.
Qed.

End WindowFacts.

Module SchedulerFacts.
Import ProcessImages RouteSpec.

Lemma omap_ext_in {A B} (f g : A -> option B) (l : list A) :
  (forall x, x ∈ l -> f x = g x) -> omap f l = omap g l.
Proof.
  induction l as [|x l IH]; intros H; [reflexivity|].
  assert (IH' : omap f l = omap g l).
  { apply IH. intros y Hy. apply H. apply list_elem_of_further. assumption. }
  simpl. rewrite (H x) by apply list_elem_of_here.
  destruct (g x); [f_equal|]; exact IH'.
Qed.

(** Looking every position up, in order, gives the list back. *)
Lemma omap_lookup_seq {A B} (f : A -> B) (l : list A) :
  omap (fun i => f <$> l !! i) (seq 0 (length l)) = f <$> l.
Proof.
  induction l as [|x l IH] using rev_ind; [reflexivity|].
  rewrite length_app. simpl. rewrite Nat.add_1_r, seq_S, omap_app, fmap_app. simpl.
  f_equal.
  - rewrite <- IH. apply omap_ext_in. intros i Hi.
    apply elem_of_seq in Hi. rewrite lookup_app_l by lia. reflexivity.
  - rewrite lookup_app_r by lia. rewrite Nat.sub_diag. reflexivity.
Qed.

Section Batch.
Variable settings : WatermarkApi.ApiSettings.
Variable oracle : nat -> nat -> Http.CallEnv.
Variable sessionId : option string.

Local Abbreviation result_of := (RouteSpec.result_of settings oracle).
Local Abbreviation done_of := (RouteSpec.done_of settings oracle).

Lemma begin_fields batch : forall r,
  events (foldl (step_begin sessionId) r batch)
  = events r ++ map (fun task : nat * Image => Started task.1) batch
  /\ results (foldl (step_begin sessionId) r batch) = results r
  /\ windows (foldl (step_begin sessionId) r batch) = windows r
  /\ worlds (foldl (step_begin sessionId) r batch) = worlds r.
Proof.
  induction batch as [|t batch IH]; intros r; simpl.
  - rewrite app_nil_r. auto.
  - destruct (IH (step_begin sessionId r t)) as (H1 & H2 & H3 & H4).
    rewrite H1, H2, H3, H4. simpl. rewrite <- app_assoc. auto.
Qed.

Lemma finish_fields done order : forall r,
  events (foldl (step_finish sessionId done) r order) = events r ++ finished done order
  /\ results (foldl (step_finish sessionId done) r order) = results r
  /\ windows (foldl (step_finish sessionId done) r order) = windows r
  /\ worlds (foldl (step_finish sessionId done) r order) = worlds r.
Proof.
  induction order as [|pos order IH]; intros r; simpl.
  - rewrite app_nil_r. auto.
  - destruct (IH (step_finish sessionId done r pos)) as (H1 & H2 & H3 & H4).
    rewrite H1, H2, H3, H4. unfold step_finish, finished. simpl.
    destruct (done !! pos) as [[task result]|]; simpl.
    + rewrite <- app_assoc. auto.
    + auto.
Qed.

Lemma run_window_done batch :
  map (fun o : nat * (ProcessingResult.t * Retry.World) => (o.1, o.2.1))
    (map (fun task : nat * Image =>
            (task.1, processImageWithRetry settings (oracle task.1)
                       (url task.2) (filename task.2))) batch)
  = done_of batch.
Proof. rewrite map_map. reflexivity. Qed.

Lemma run_window_fields order r batch :
  events (run_window settings oracle sessionId order r batch)
  = events r ++ map (fun task : nat * Image => Started task.1) batch
      ++ finished (done_of batch) order
  /\ results (run_window settings oracle sessionId order r batch)
     = results r ++ map result_of batch
  /\ windows (run_window settings oracle sessionId order r batch) = S (windows r).
Proof.
  unfold run_window. cbn [events results windows]. rewrite run_window_done.
  destruct (finish_fields (done_of batch) order (foldl (step_begin sessionId) r batch))
    as (H1 & H2 & H3 & _).
  destruct (begin_fields batch r) as (B1 & B2 & B3 & _).
  rewrite H1, H2, H3, B1, B2, B3. rewrite <- app_assoc.
  split; [reflexivity|]. split; [|reflexivity].
  f_equal. unfold done_of. rewrite map_map. reflexivity.
Qed.

(** When the completion order is a permutation of the window's
    positions, every task of the window finishes exactly once. *)
Lemma finished_perm batch order :
  order ≡ₚ seq 0 (length batch) ->
  finished (done_of batch) order ≡ₚ map (fun task : nat * Image => Finished task.1) batch.
Proof.
  intros Hp. unfold finished. rewrite Hp.
  replace (length batch) with (length (done_of batch))
    by (unfold done_of; apply length_map).
  rewrite (omap_lookup_seq (fun o : nat * ProcessingResult.t => Finished o.1)).
  unfold done_of. change (fmap ?f ?l) with (map f l). rewrite map_map. reflexivity.
Qed.

Lemma run_windows_fields sched ws : forall r,
  (forall j w, ws !! j = Some w -> sched (windows r + j) ≡ₚ seq 0 (length w)) ->
  windows (run_windows settings oracle sessionId sched r ws) = windows r + length ws
  /\ results (run_windows settings oracle sessionId sched r ws)
     = results r ++ map result_of (concat ws)
  /\ exists blocks,
       events (run_windows settings oracle sessionId sched r ws)
       = events r ++ concat blocks
       /\ Forall2 window_block ws blocks.
Proof.
  induction ws as [|batch ws IH]; intros r Hs; simpl.
  - rewrite !app_nil_r, Nat.add_0_r. split; [reflexivity|]. split; [reflexivity|].
    exists []. simpl. rewrite app_nil_r. split; [reflexivity|constructor].
  - destruct (run_window_fields (sched (windows r)) r batch) as (E & R & W).
    destruct (IH (run_window settings oracle sessionId (sched (windows r)) r batch))
      as (W' & R' & blocks & E' & F).
    { intros j w Hj. rewrite W.
      replace (S (windows r) + j) with (windows r + S j) by lia.
      apply Hs. exact Hj. }
    rewrite W', R', E', W, R, E.
    split; [lia|]. split.
    + rewrite map_app, <- app_assoc. reflexivity.
    + exists ((map (fun task : nat * Image => Started task.1) batch
               ++ finished (done_of batch) (sched (windows r))) :: blocks).
      split.
      * simpl. rewrite <- !app_assoc. reflexivity.
      * constructor; [|exact F].
        eexists. split; [reflexivity|].
        apply finished_perm.
        specialize (Hs 0 batch eq_refl). rewrite Nat.add_0_r in Hs. exact Hs.
Qed.

End Batch.

End SchedulerFacts.

Module ProgressFacts.
Import ProcessImages RouteSpec.

Section Session.
Variable sessionId : option string.
Variable N : nat.

Local Abbreviation snapshot_ok := (RouteSpec.snapshot_ok N).
Local Abbreviation state_ok := (RouteSpec.state_ok sessionId N).
Local Abbreviation count := (RouteSpec.count sessionId).
Local Abbreviation monotone := (RouteSpec.monotone sessionId).
Local Abbreviation running := (RouteSpec.running sessionId N).
Local Abbreviation run_count := (RouteSpec.run_count sessionId N).
Local Abbreviation run_mono := (RouteSpec.run_mono sessionId N).
Local Abbreviation run_head := (RouteSpec.run_head sessionId N).

Lemma running_state k st obs : running k st obs -> state_ok st.
Proof.
  intros [Hl _ Ha _ _]. rewrite Forall_forall in Ha. apply Ha.
  rewrite last_lookup in Hl. eapply list_elem_of_lookup_2. exact Hl.
Qed.

Lemma running_bound k st obs s i : running k st obs -> obs !! i = Some s -> count s <= k.
Proof.
  intros [Hl Hc _ Hm _] Hi. rewrite <- Hc.
  rewrite last_lookup in Hl.
  apply (Hm i (pred (length obs)) s st); [|assumption|assumption].
  apply lookup_lt_Some in Hi. lia.
Qed.

Lemma running_extend k k' st obs s :
  running k st obs -> state_ok s -> count s = k' -> k <= k' ->
  running k' s (obs ++ [s]).
Proof.
  intros Hr Hs Hc Hle. split.
  - apply last_snoc.
  - assumption.
  - apply Forall_app. split; [apply Hr|]. constructor; [assumption|constructor].
  - intros i j a b Hij Hi Hj.
    apply lookup_app_Some in Hj as [Hj|[Hlen Hj]].
    + assert (i < length obs) by (apply lookup_lt_Some in Hj; lia).
      rewrite lookup_app_l in Hi by assumption.
      apply (run_mono _ _ _ Hr i j); assumption.
    + destruct (j - length obs) as [|n] eqn:Hn; [|destruct n; discriminate Hj].
      injection Hj as <-.
      apply lookup_app_Some in Hi as [Hi|[Hlen' Hi]].
      * pose proof (running_bound _ _ _ _ _ Hr Hi). lia.
      * destruct (i - length obs) as [|m]; [|destruct m; discriminate Hi].
        injection Hi as <-. lia.
  - destruct (run_head _ _ _ Hr) as (h & Hh & Hc0). exists h. split; [|assumption].
    destruct obs; [discriminate Hh|]. exact Hh.
Qed.

Lemma begin_task_ok image s :
  state_ok s -> count s < N ->
  state_ok (begin_task sessionId image s)
  /\ count (begin_task sessionId image s) = count s.
Proof.
  intros (p & Hp & Ht & Hl & Hle & Hdone) Hlt.
  unfold count in *. unfold begin_task, state_ok. rewrite Hp in *.
  rewrite lookup_insert_eq. split; [|reflexivity].
  eexists. split; [reflexivity|]. unfold snapshot_ok. simpl.
  repeat split; try assumption; lia.
Qed.

Lemma finish_task_ok result s :
  state_ok s -> count s < N ->
  state_ok (finish_task sessionId result s)
  /\ count (finish_task sessionId result s) = S (count s).
Proof.
  intros (p & Hp & Ht & Hl & Hle & Hdone) Hlt.
  unfold count in *. unfold finish_task, state_ok. rewrite Hp in *.
  rewrite lookup_insert_eq. split; [|reflexivity].
  eexists. split; [reflexivity|]. unfold snapshot_ok. simpl.
  rewrite length_app, Hl, Ht. simpl.
  split; [reflexivity|]. split; [lia|]. split; [lia|].
  intros Heq. rewrite <- Heq.
  rewrite Nat.leb_refl. split; reflexivity.
Qed.

Lemma begin_running batch : forall r k,
  running k (store r) (observed r) -> k < N ->
  running k (store (foldl (step_begin sessionId) r batch))
            (observed (foldl (step_begin sessionId) r batch)).
Proof.
  induction batch as [|t batch IH]; intros r k Hr Hk; simpl; [assumption|].
  apply IH; [|assumption]. unfold step_begin. simpl.
  destruct (begin_task_ok t.2 (store r)) as [Hok Hc].
  { eapply running_state; eassumption. }
  { rewrite (run_count _ _ _ Hr). assumption. }
  eapply running_extend; [eassumption|assumption| |lia].
  rewrite Hc. apply (run_count _ _ _ Hr).
Qed.

Lemma finish_running done order : forall r k,
  running k (store r) (observed r) ->
  k + length order <= N ->
  (forall pos, pos ∈ order -> pos < length done) ->
  running (k + length order)
    (store (foldl (step_finish sessionId done) r order))
    (observed (foldl (step_finish sessionId done) r order)).
Proof.
  induction order as [|pos order IH]; intros r k Hr Hk Hpos; simpl.
  - rewrite Nat.add_0_r. assumption.
  - simpl in Hk.
    replace (k + S (length order)) with (S k + length order) by lia.
    apply IH; [|lia|].
    + unfold step_finish.
      destruct (lookup_lt_is_Some_2 done pos (Hpos pos (list_elem_of_here _ _)))
        as [[task result] Hd].
      rewrite Hd. simpl.
      destruct (finish_task_ok result (store r)) as [Hok Hc].
      { eapply running_state; eassumption. }
      { rewrite (run_count _ _ _ Hr). lia. }
      eapply running_extend; [eassumption|assumption| |lia].
      rewrite Hc. f_equal. apply (run_count _ _ _ Hr).
    + intros p Hp. apply Hpos. apply list_elem_of_further. assumption.
Qed.

Variable settings : WatermarkApi.ApiSettings.
Variable oracle : nat -> nat -> Http.CallEnv.

Lemma window_running order r batch k :
  running k (store r) (observed r) ->
  batch <> [] ->
  k + length batch <= N ->
  order ≡ₚ seq 0 (length batch) ->
  running (k + length batch)
    (store (run_window settings oracle sessionId order r batch))
    (observed (run_window settings oracle sessionId order r batch)).
Proof.
  intros Hr Hne Hk Hp. unfold run_window. cbn [store observed].
  assert (Hlen : length order = length batch).
  { rewrite Hp. apply length_seq. }
  rewrite <- Hlen. apply finish_running.
  - apply begin_running; [assumption|]. destruct batch; [congruence|]. simpl in Hk. lia.
  - lia.
  - intros pos Hpos. rewrite Hp in Hpos. apply elem_of_seq in Hpos.
    rewrite !length_map. lia.
Qed.

Lemma windows_running sched ws : forall r k,
  running k (store r) (observed r) ->
  Forall (fun w => w <> []) ws ->
  k + length (concat ws) <= N ->
  (forall j w, ws !! j = Some w -> sched (windows r + j) ≡ₚ seq 0 (length w)) ->
  running (k + length (concat ws))
    (store (run_windows settings oracle sessionId sched r ws))
    (observed (run_windows settings oracle sessionId sched r ws)).
Proof.
  induction ws as [|batch ws IH]; intros r k Hr Hne Hk Hs; simpl.
  - rewrite Nat.add_0_r. assumption.
  - simpl in Hk. rewrite length_app in *.
    apply Forall_cons in Hne as [Hb Hne].
    replace (k + (length batch + length (concat ws)))
      with (k + length batch + length (concat ws)) by lia.
    apply IH; [|assumption|lia|].
    + apply window_running; [assumption|assumption|lia|].
      specialize (Hs 0 batch eq_refl). rewrite Nat.add_0_r in Hs. exact Hs.
    + intros j w Hj.
      destruct (SchedulerFacts.run_window_fields settings oracle sessionId
                  (sched (windows r)) r batch) as (_ & _ & W).
      rewrite W. replace (S (windows r) + j) with (windows r + S j) by lia.
      apply Hs. exact Hj.
Qed.

End Session.

End ProgressFacts.

Module BatchFacts.
Import ProcessImages RouteSpec.


Lemma slice_length {A} (l : list A) a b :
  length (slice a b l) = min (b - a) (length l - a).
Proof. unfold slice. rewrite length_take, length_drop. reflexivity. Qed.

Section Batch.
Variable limit : nat.
Variable settings : WatermarkApi.ApiSettings.
Variable oracle : nat -> nat -> Http.CallEnv.
Variable sched : nat -> list nat.
Variable sessionId : option string.
Variable imagesToProcess : list Image.
Variable store0 : gmap (option string) ProcessingProgress.t.

Local Abbreviation N := (length imagesToProcess).

Hypothesis limit_pos : 1 <= limit.
Hypothesis sched_valid : valid_schedule limit N sched.

(** Everything the claims need about one batch. *)
Lemma processBatch_spec :
  exists r ws,
    processBatch limit settings oracle sched sessionId imagesToProcess store0 = Some r
    /\ batch_windows limit (indexed imagesToProcess) N 0 = Some ws
    /\ length ws = ceil_div N limit
    /\ concat ws = indexed imagesToProcess
    /\ (forall k w, ws !! k = Some w ->
          w = slice (k * limit) (k * limit + limit) (indexed imagesToProcess)
          /\ w.*1 = seq (k * limit) (min limit (N - k * limit))
          /\ 1 <= length w <= limit)
    /\ windows r = length ws
    /\ results r
       = map (RouteSpec.result_of settings oracle) (indexed imagesToProcess)
    /\ (exists blocks,
          events r = concat blocks
          /\ Forall2 (RouteSpec.window_block) ws blocks)
    /\ (1 <= N ->
        RouteSpec.running sessionId N N (store r) (observed r)).
Proof.
  destruct (WindowFacts.batch_windows_spec limit (indexed imagesToProcess) limit_pos N 0)
    as (ws & Hws & Hcat & Hlen & Hsl).
  { rewrite WindowFacts.indexed_length. lia. }
  rewrite WindowFacts.indexed_length in Hlen.
  rewrite Nat.sub_0_r in Hlen. rewrite drop_0 in Hcat.
  assert (Hw : forall k w, ws !! k = Some w ->
            w = slice (k * limit) (k * limit + limit) (indexed imagesToProcess)
            /\ w.*1 = seq (k * limit) (min limit (N - k * limit))
            /\ 1 <= length w <= limit
            /\ k * limit < N).
  { intros k w Hk. destruct (Hsl k w Hk) as [Hw Hlt]. simpl in Hw, Hlt.
    rewrite WindowFacts.indexed_length in Hlt.
    split; [assumption|]. split; [|split; [|assumption]].
    - rewrite Hw, WindowFacts.slice_indexed_fst. f_equal. lia.
    - rewrite Hw, slice_length, WindowFacts.indexed_length. lia. }
  assert (Hs : forall j w, ws !! j = Some w -> sched (0 + j) ≡ₚ seq 0 (length w)).
  { intros j w Hj. destruct (Hw j w Hj) as (Hw1 & Hw2 & _ & Hlt).
    simpl. rewrite (sched_valid j Hlt).
    rewrite <- (length_fmap fst w), Hw2, length_seq. reflexivity. }
  set (s := <[sessionId :=
                {| ProcessingProgress.total := N;
                   ProcessingProgress.completed := 0;
                   ProcessingProgress.current := EmptyString;
                   ProcessingProgress.status := ProcessingProgress.Processing;
                   ProcessingProgress.results := [] |}]> store0).
  set (r0 := {| store := s; observed := [s]; events := []; results := [];
                windows := 0; worlds := [] |}).
  destruct (SchedulerFacts.run_windows_fields settings oracle sessionId sched ws r0 Hs)
    as (HW & HR & blocks & HE & HF).
  exists (run_windows settings oracle sessionId sched r0 ws), ws.
  split.
  { unfold processBatch. rewrite Hws. reflexivity. }
  split; [assumption|]. split; [exact Hlen|]. split; [assumption|].
  split; [intros k w Hk; destruct (Hw k w Hk) as (?&?&?&?); auto|].
  split; [exact HW|]. split; [rewrite HR, Hcat; reflexivity|].
  split; [exists blocks; split; [exact HE|exact HF]|].
  intros HN.
  assert (Hinit : RouteSpec.running sessionId N 0 (store r0) (observed r0)).
  { assert (Hc0 : RouteSpec.count sessionId s = 0).
    { unfold RouteSpec.count, s. rewrite lookup_insert_eq. reflexivity. }
    split; simpl.
    - reflexivity.
    - exact Hc0.
    - constructor; [|constructor]. eexists. split; [apply lookup_insert_eq|].
      unfold RouteSpec.snapshot_ok. simpl. repeat split; lia.
    - intros i j a b Hij Hi Hj.
      destruct i; [|destruct i; discriminate Hi].
      destruct j; [|destruct j; discriminate Hj].
      injection Hi as <-. injection Hj as <-. lia.
    - exists s. split; [reflexivity|exact Hc0]. }
  assert (Hcl : length (concat ws) = N).
  { rewrite Hcat. apply WindowFacts.indexed_length. }
  replace N with (0 + length (concat ws)) at 2 by lia.
  apply ProgressFacts.windows_running; try assumption.
  - apply Forall_forall. intros w Hin Hnil.
    apply list_elem_of_lookup in Hin as [k Hk].
    destruct (Hw k w Hk) as (_ & _ & Hl & _). subst w. simpl in Hl. lia.
  - lia.
Qed.

End Batch.

(** The resolver never hands the scheduler an empty list: the fallback
    samples take its place. *)
Lemma resolve_images_nonempty env form imgs ext :
  resolve_images env form = (inr imgs, ext) -> 1 <= length imgs.
Proof.
  unfold resolve_images.
  destruct (upload_files env form (file_indices form) [] []) as [[e|uploaded] ext1];
    [discriminate|].
  destruct (extract_step env form uploaded ext1) as [[e|found] ext2]; [discriminate|].
  intros H. injection H as <- _.
  destruct (length found =? 0)%nat eqn:E; [simpl; lia|].
  apply Nat.eqb_neq in E. lia.
Qed.

Lemma POST_live env form store0 imgs ext :
  live env ->
  resolve_images env form = (inr imgs, ext) ->
  POST env (Resolved form) store0
  = (fun r => {| reply := Reply.json (Reply.Results (results r) (sessionId form) false);
                 store_after := store r;
                 observable := observed r;
                 scheduling := events r;
                 windows_awaited := windows r;
                 external := ext ++ provider_calls (worlds r) |})
    <$> processBatch concurrencyLimit (apiSettings env) (oracle env) (sched env)
          (sessionId form) imgs store0.
Proof.
  intros [Hd Hc] Hres. unfold POST.
  rewrite Hd, RouteFacts.apiKey_truthy, Hc, Hres. simpl.
  destruct (processBatch _ _ _ _ _ _ _); reflexivity.
Qed.

(** The loop of the handler always ends (its limit is 2), so every request
    is answered, whatever the environment and the completion order. *)
Lemma POST_always_answers env request store0 :
  exists served, POST env request store0 = Some served.
Proof.
  unfold POST. destruct request as [form|e]; [|eexists; reflexivity].
  destruct (demoMode env || negb (truthy_str (apiKey env))); [eexists; reflexivity|].
  destruct (resolve_images env form) as [[e|imgs] ext]; [eexists; reflexivity|].
  unfold processBatch.
  destruct (WindowFacts.batch_windows_spec concurrencyLimit (indexed imgs)
              ltac:(unfold concurrencyLimit; lia) (length imgs) 0) as (ws & Hws & _).
  { rewrite WindowFacts.indexed_length. lia. }
  rewrite Hws. simpl. eexists; reflexivity.
Qed.

End BatchFacts.

Module TaskFacts.
Import ProcessImages AdapterSpec.

Lemma processImageWithRetry_shape settings oracle imageUrl filename :
  let res := (processImageWithRetry settings oracle imageUrl filename).1 in
  ProcessingResult.originalUrl res = imageUrl
  /\ ProcessingResult.filename res = filename
  /\ (ProcessingResult.status res = ProcessingResult.Success
      \/ (ProcessingResult.status res = ProcessingResult.Error
          /\ ProcessingResult.processedUrl res = VStr imageUrl
          /\ exists msg, ProcessingResult.message res = Some msg))
  /\ (provider_failure settings oracle imageUrl filename ->
      ProcessingResult.status res = ProcessingResult.Error
      /\ ProcessingResult.processedUrl res = VStr imageUrl).
Proof.
  unfold processImageWithRetry, provider_failure.
  destruct (Retry.retryWithBackoff _ _ _ _) as [[r|e] w]; simpl.
  - destruct (WatermarkApi.success r) eqn:Hs; simpl.
    + destruct (truthy (WatermarkApi.processedImageUrl r)); simpl.
      * repeat split; try (left; reflexivity); discriminate.
      * repeat split; try discriminate.
        right. repeat split. unfold or_str.
        destruct (truthy_str (WatermarkApi.error r)) eqn:Ht.
        -- destruct (WatermarkApi.error r); [eexists; reflexivity|discriminate Ht].
        -- eexists; reflexivity.
    + repeat split.
      right. repeat split. unfold or_str.
      destruct (truthy_str (WatermarkApi.error r)) eqn:Ht.
      * destruct (WatermarkApi.error r); [eexists; reflexivity|discriminate Ht].
      * eexists; reflexivity.
  - repeat split. right. repeat split. eexists; reflexivity.
Qed.

End TaskFacts.


Module Samples.
Import ProcessImages RouteSpec.


Lemma swapped_valid_2 : RouteSpec.valid_schedule 2 2 swapped.
Proof.
  intros [|k] Hk; simpl in *.
  - apply perm_swap.
  - lia.
Qed.

Lemma offline_live : RouteSpec.live offline.
Proof. split; reflexivity. Qed.

Lemma offline_resolves : resolve_images offline empty_form = (inr fallbackImages, []).
Proof. reflexivity. Qed.

End Samples.


(** C3. Take a live request whose sources resolve to the task list
    [imgs], and any valid completion order of the tasks in each window.
    Every store state observable while the batch runs (from the seeding of
    the snapshot to the end) holds a snapshot of the session with
    [len(results) = completed], [total = len(imgs)], [completed <= total],
    and, once [completed = total], status completed and an empty [current];
    over time [completed] never decreases, it starts at 0 and ends at
    [total]. *)
Theorem progress_snapshot_invariant
    (env : ProcessImages.Env) (form : ProcessImages.FormData)
    (store0 : gmap (option string) ProcessingProgress.t)
    (imgs : list ProcessImages.Image) (ext : list ProcessImages.External) :
  RouteSpec.live env ->
  ProcessImages.resolve_images env form = (inr imgs, ext) ->
  RouteSpec.valid_schedule ProcessImages.concurrencyLimit (length imgs)
    (ProcessImages.sched env) ->
  exists served,
    ProcessImages.POST env (Resolved form) store0 = Some served
    /\ (forall s, s ∈ ProcessImages.observable served ->
          exists p,
            s !! ProcessImages.sessionId form = Some p
            /\ length (ProcessingProgress.results p) = ProcessingProgress.completed p
            /\ ProcessingProgress.total p = length imgs
            /\ ProcessingProgress.completed p <= ProcessingProgress.total p
            /\ (ProcessingProgress.completed p = ProcessingProgress.total p ->
                ProcessingProgress.status p = ProcessingProgress.Completed
                /\ ProcessingProgress.current p = EmptyString))
    /\ (forall i j s s',
          i <= j ->
          ProcessImages.observable served !! i = Some s ->
          ProcessImages.observable served !! j = Some s' ->
          RouteSpec.count (ProcessImages.sessionId form) s
          <= RouteSpec.count (ProcessImages.sessionId form) s')
    /\ (exists s, head (ProcessImages.observable served) = Some s
                  /\ RouteSpec.count (ProcessImages.sessionId form) s = 0)
    /\ last (ProcessImages.observable served) = Some (ProcessImages.store_after served)
    /\ exists p,
         ProcessImages.store_after served !! ProcessImages.sessionId form = Some p
         /\ ProcessingProgress.completed p = length imgs
         /\ ProcessingProgress.total p = length imgs
         /\ ProcessingProgress.status p = ProcessingProgress.Completed
         /\ ProcessingProgress.current p = EmptyString.
Proof.
  intros Hlive Hres Hs.
  pose proof (BatchFacts.resolve_images_nonempty env form imgs ext Hres) as HN.
  destruct (BatchFacts.processBatch_spec ProcessImages.concurrencyLimit
              (ProcessImages.apiSettings env) (ProcessImages.oracle env)
              (ProcessImages.sched env) (ProcessImages.sessionId form) imgs store0
              ltac:(unfold ProcessImages.concurrencyLimit; lia) Hs)
    as (r & ws & Hr & _ & _ & _ & _ & _ & _ & _ & Hrun).
  specialize (Hrun HN).
  rewrite (BatchFacts.POST_live env form store0 imgs ext Hlive Hres), Hr. simpl.
  eexists. split; [reflexivity|]. simpl.
  destruct Hrun as [Hlast Hcount Hall Hmono Hhead].
  split; [|split; [|split; [|split]]].
  - intros s Hin. rewrite Forall_forall in Hall.
    destruct (Hall s Hin) as (p & Hp & Ht & Hl & Hle & Hd).
    exists p. rewrite Ht. auto.
  - exact Hmono.
  - exact Hhead.
  - exact Hlast.
  - rewrite Forall_forall in Hall.
    destruct (Hall (ProcessImages.store r)) as (p & Hp & Ht & Hl & Hle & Hd).
    { rewrite last_lookup in Hlast. eapply list_elem_of_lookup_2. exact Hlast. }
    unfold RouteSpec.count in Hcount. rewrite Hp in Hcount.
    exists p. destruct (Hd Hcount) as [Hst Hcur]. auto.
Qed.

(** C3, for the two fallback images, the second finishing first. *)
Lemma progress_snapshot_invariant_witness :
  exists served,
    ProcessImages.POST RouteSpec.offline (Resolved RouteSpec.empty_form) ∅ = Some served
    /\ last (ProcessImages.observable served) = Some (ProcessImages.store_after served).
Proof.
  destruct (progress_snapshot_invariant RouteSpec.offline RouteSpec.empty_form ∅
              ProcessImages.fallbackImages [] Samples.offline_live Samples.offline_resolves
              Samples.swapped_valid_2)
    as (served & H & _ & _ & _ & Hlast & _).
  exists served. split; assumption.
Defined.

Module CallFacts.
Import ProcessImages.

(** The wrapper calls the operation before anything else. *)
Lemma retry_first_call {T} (op : nat -> Outcome T) retries : forall delay w,
  exists rest,
    Retry.log (Retry.retryWithBackoff (Retry.invoke op) retries delay w).2
    = Retry.log w ++ Retry.Call (Retry.calls w) :: rest.
Proof.
  induction retries as [|retries IH]; intros delay w; simpl.
  - destruct (op (Retry.calls w)); simpl; exists []; reflexivity.
  - destruct (op (Retry.calls w)); simpl; [exists []; reflexivity|].
    destruct (IH (delay * Retry.backoffMultiplier)%Z
                (Retry.sleep delay
                   {| Retry.calls := S (Retry.calls w);
                      Retry.log := Retry.log w ++ [Retry.Call (Retry.calls w)] |}))
      as [rest Hrest].
    rewrite Hrest. simpl. rewrite <- !app_assoc. simpl. eexists. reflexivity.
Qed.

(** Every task reaches the provider. *)
Lemma task_calls_provider settings oracle imageUrl filename :
  Retry.Call 0 ∈ Retry.log (processImageWithRetry settings oracle imageUrl filename).2.
Proof.
  unfold processImageWithRetry.
  destruct (retry_first_call
              (fun k => WatermarkApi.removeWatermark settings (oracle k) imageUrl filename)
              Retry.maxRetries Retry.retryDelay Retry.start) as [rest Hrest].
  destruct (Retry.retryWithBackoff _ _ _ _) as [[result|error] w]; simpl in *.
  - destruct (_ && _); simpl; rewrite Hrest; apply list_elem_of_here.
  - rewrite Hrest. apply list_elem_of_here.
Qed.

Lemma run_windows_worlds settings oracle sessionId sched ws : forall r,
  worlds (run_windows settings oracle sessionId sched r ws)
  = worlds r
    ++ map (fun task : nat * Image =>
              (task.1, (processImageWithRetry settings (oracle task.1)
                          (url task.2) (filename task.2)).2))
         (concat ws).
Proof.
  induction ws as [|batch ws IH]; intros r; simpl.
  - rewrite app_nil_r. reflexivity.
  - rewrite IH. unfold run_window. cbn [worlds].
    destruct (SchedulerFacts.finish_fields sessionId
                (map (fun o : nat * (ProcessingResult.t * Retry.World) => (o.1, o.2.1))
                   (map (fun task : nat * Image =>
                           (task.1, processImageWithRetry settings (oracle task.1)
                                      (url task.2) (filename task.2))) batch))
                (sched (windows r)) (foldl (step_begin sessionId) r batch))
      as (_ & _ & _ & H).
    destruct (SchedulerFacts.begin_fields sessionId batch r) as (_ & _ & _ & B).
    rewrite H, B, map_app, map_map, <- app_assoc. reflexivity.
Qed.

(** The provider calls a batch makes: those of every task. *)
Lemma batch_calls_provider limit settings oracle sched sessionId imgs store0 r i img :
  1 <= limit ->
  processBatch limit settings oracle sched sessionId imgs store0 = Some r ->
  imgs !! i = Some img ->
  Provider i (Retry.Call 0) ∈ provider_calls (worlds r).
Proof.
  intros Hl Hr Hi.
  destruct (WindowFacts.batch_windows_spec limit (indexed imgs) Hl (length imgs) 0)
    as (ws & Hws & Hcat & _).
  { rewrite WindowFacts.indexed_length. lia. }
  rewrite drop_0 in Hcat.
  unfold processBatch in Hr. rewrite Hws in Hr. simpl in Hr. injection Hr as <-.
  rewrite run_windows_worlds, Hcat. simpl.
  unfold provider_calls. apply list_elem_of_In, in_flat_map.
  exists (i, (processImageWithRetry settings (oracle i) (url img) (filename img)).2).
  split.
  - apply in_map_iff. exists (i, img). split; [reflexivity|].
    apply list_elem_of_In. eapply list_elem_of_lookup_2.
    apply WindowFacts.indexed_lookup. exact Hi.
  - simpl. apply in_map. apply list_elem_of_In. apply task_calls_provider.
Qed.

End CallFacts.

(** C4. In a live batch every task is processed, whatever happens to the
    others: its provider is called, and its result, the one the pipeline
    computes for this task alone, stands at the task's position in the
    reply, with the task's URL and file name and a terminal status.  A
    provider-level failure of a task (the retried call rejected, or resolved
    without success) makes that result an error whose [processedUrl] is the
    original URL; a task whose provider call resolves with a success and a
    processed URL is reported as a success with that URL.  A failure does
    not stop the batch: the reply is a 200 with one result per task, and
    the session snapshot ends with all tasks counted. *)
Theorem failed_tasks_do_not_abort_batch
    (env : ProcessImages.Env) (form : ProcessImages.FormData)
    (store0 : gmap (option string) ProcessingProgress.t)
    (imgs : list ProcessImages.Image) (ext : list ProcessImages.External) :
  RouteSpec.live env ->
  ProcessImages.resolve_images env form = (inr imgs, ext) ->
  RouteSpec.valid_schedule ProcessImages.concurrencyLimit (length imgs)
    (ProcessImages.sched env) ->
  exists served results,
    ProcessImages.POST env (Resolved form) store0 = Some served
    /\ ProcessImages.reply served
       = {| Reply.code := 200;
            Reply.body := Reply.Results results (ProcessImages.sessionId form) false |}
    /\ length results = length imgs
    /\ (forall i img, imgs !! i = Some img ->
          exists res,
            results !! i = Some res
            /\ res = (ProcessImages.processImageWithRetry (ProcessImages.apiSettings env)
                        (ProcessImages.oracle env i) (ProcessImages.url img)
                        (ProcessImages.filename img)).1
            /\ ProcessImages.Provider i (Retry.Call 0) ∈ ProcessImages.external served
            /\ ProcessingResult.originalUrl res = ProcessImages.url img
            /\ ProcessingResult.filename res = ProcessImages.filename img
            /\ (ProcessingResult.status res = ProcessingResult.Success
                \/ ProcessingResult.status res = ProcessingResult.Error)
            /\ (AdapterSpec.provider_failure (ProcessImages.apiSettings env)
                  (ProcessImages.oracle env i) (ProcessImages.url img)
                  (ProcessImages.filename img) ->
                ProcessingResult.status res = ProcessingResult.Error
                /\ ProcessingResult.processedUrl res = VStr (ProcessImages.url img))
            /\ (forall r,
                  WatermarkApi.removeWatermark (ProcessImages.apiSettings env)
                    (ProcessImages.oracle env i 0) (ProcessImages.url img)
                    (ProcessImages.filename img) = Resolved r ->
                  WatermarkApi.success r = true ->
                  truthy (WatermarkApi.processedImageUrl r) = true ->
                  ProcessingResult.status res = ProcessingResult.Success
                  /\ ProcessingResult.processedUrl res = WatermarkApi.processedImageUrl r))
    /\ exists p,
         ProcessImages.store_after served !! ProcessImages.sessionId form = Some p
         /\ ProcessingProgress.completed p = length imgs
         /\ length (ProcessingProgress.results p) = length imgs.
Proof.
  intros Hlive Hres Hs.
  pose proof (BatchFacts.resolve_images_nonempty env form imgs ext Hres) as HN.
  assert (Hl : 1 <= ProcessImages.concurrencyLimit)
    by (unfold ProcessImages.concurrencyLimit; lia).
  destruct (BatchFacts.processBatch_spec ProcessImages.concurrencyLimit
              (ProcessImages.apiSettings env) (ProcessImages.oracle env)
              (ProcessImages.sched env) (ProcessImages.sessionId form) imgs store0 Hl Hs)
    as (r & ws & Hr & _ & _ & _ & _ & _ & HR & _ & Hrun).
  specialize (Hrun HN).
  rewrite (BatchFacts.POST_live env form store0 imgs ext Hlive Hres), Hr. simpl.
  eexists. exists (ProcessImages.results r).
  split; [reflexivity|]. simpl. split; [reflexivity|].
  split; [rewrite HR, length_map; apply WindowFacts.indexed_length|].
  split.
  - intros i img Hi.
    pose proof (WindowFacts.indexed_lookup imgs i img Hi) as Hidx.
    exists (RouteSpec.result_of (ProcessImages.apiSettings env) (ProcessImages.oracle env)
              (i, img)).
    split.
    { rewrite HR. change (map ?f ?l) with (f <$> l).
      rewrite list_lookup_fmap, Hidx. reflexivity. }
    split; [reflexivity|].
    split.
    { apply elem_of_app. right.
      eapply CallFacts.batch_calls_provider; [exact Hl|exact Hr|exact Hi]. }
    unfold RouteSpec.result_of. simpl.
    destruct (TaskFacts.processImageWithRetry_shape (ProcessImages.apiSettings env)
                (ProcessImages.oracle env i) (ProcessImages.url img)
                (ProcessImages.filename img)) as (H1 & H2 & H3 & H4).
    split; [exact H1|]. split; [exact H2|]. split; [|split; [exact H4|]].
    + destruct H3 as [H3|(H3 & _)]; [left|right]; exact H3.
    + intros res Hres' Hsucc Hurl.
      rewrite (PipelineFacts.processImageWithRetry_resolved (ProcessImages.apiSettings env)
                 (ProcessImages.oracle env i) (ProcessImages.url img)
                 (ProcessImages.filename img) res Hres').
      rewrite Hsucc, Hurl. simpl. split; reflexivity.
  - destruct Hrun as [Hlast Hcount Hall _ _].
    rewrite Forall_forall in Hall.
    destruct (Hall (ProcessImages.store r)) as (p & Hp & Ht & Hl' & Hle & Hd).
    { rewrite last_lookup in Hlast. eapply list_elem_of_lookup_2. exact Hlast. }
    unfold RouteSpec.count in Hcount. rewrite Hp in Hcount.
    exists p. rewrite Hl'. auto.
Qed.

(** C4, for the two fallback images with the provider unreachable for the
    first and answering for the second: the first task is reported as an
    error, the second as a success. *)
Lemma failed_tasks_do_not_abort_batch_witness :
  exists served results res0 res1,
    ProcessImages.POST RouteSpec.first_task_offline (Resolved RouteSpec.empty_form) ∅
    = Some served
    /\ ProcessImages.reply served
       = {| Reply.code := 200; Reply.body := Reply.Results results (Some "s1") false |}
    /\ length results = 2
    /\ results !! 0 = Some res0
    /\ ProcessingResult.status res0 = ProcessingResult.Error
    /\ results !! 1 = Some res1
    /\ ProcessingResult.status res1 = ProcessingResult.Success
    /\ ProcessingResult.processedUrl res1 = VStr "https://fal.media/out.jpg".
Proof.
  destruct (failed_tasks_do_not_abort_batch RouteSpec.first_task_offline RouteSpec.empty_form
              ∅ ProcessImages.fallbackImages [] ltac:(split; reflexivity) eq_refl
              Samples.swapped_valid_2)
    as (served & results & H & Hreply & Hlen & Htasks & _).
  destruct (Htasks 0 _ eq_refl) as (res0 & H0 & _ & _ & _ & _ & _ & Hfail & _).
  destruct (Htasks 1 _ eq_refl) as (res1 & H1 & _ & _ & _ & _ & _ & _ & Hok).
  destruct (Hfail ltac:(vm_compute; reflexivity)) as [Hs0 _].
  destruct (Hok {| WatermarkApi.success := true;
                   WatermarkApi.processedImageUrl := VStr "https://fal.media/out.jpg";
                   WatermarkApi.error := None;
                   WatermarkApi.jobId := VStr "flux_17" |}
              eq_refl eq_refl eq_refl) as [Hs1 Hu1].
  exists served, results, res0, res1. auto 10.
Defined.

(* ===================================================================== *)
(** ** Gallery extraction *)
(* ===================================================================== *)

Module GalleryFacts.
Import ExtractGallery GallerySpec.

Lemma some_url_elem images u : some_url images u = true <-> u ∈ url <$> images.
Proof.
  induction images as [|x images IH]; simpl.
  - split; [discriminate|]. intros H. inversion H.
  - rewrite orb_true_iff, IH, elem_of_cons, String.eqb_eq.
    split; (intros [H|H]; [left; congruence|right; assumption]).
Qed.

Lemma some_url_app l1 l2 u : some_url (l1 ++ l2) u = some_url l1 u || some_url l2 u.
Proof. unfold some_url. apply existsb_app. Qed.

Lemma keep_first_ext l : forall s1 s2,
  (forall u, some_url s1 u = some_url s2 u) -> keep_first s1 l = keep_first s2 l.
Proof.
  induction l as [|x xs IH]; intros s1 s2 H; simpl; [reflexivity|].
  rewrite (H (url x)). destruct (some_url s2 (url x)).
  - apply IH. assumption.
  - f_equal. apply IH. intros u. rewrite !some_url_app, H. reflexivity.
Qed.

Lemma findIndex_lt {A} (p : A -> bool) l j : findIndex p l = Some j -> j < length l.
Proof.
  revert j. induction l as [|x l IH]; intros j; simpl; [discriminate|].
  destruct (p x).
  - intros H. injection H as <-. lia.
  - destruct (findIndex p l) as [k|]; simpl; [|discriminate].
    intros H. injection H as <-. specialize (IH k eq_refl). lia.
Qed.

Lemma findIndex_app {A} (p : A -> bool) l1 l2 :
  findIndex p (l1 ++ l2)
  = match findIndex p l1 with
    | Some j => Some j
    | None => (fun k => length l1 + k) <$> findIndex p l2
    end.
Proof.
  induction l1 as [|x l1 IH]; simpl.
  - destruct (findIndex p l2); reflexivity.
  - destruct (p x); [reflexivity|]. rewrite IH.
    destruct (findIndex p l1); [reflexivity|].
    destruct (findIndex p l2); reflexivity.
Qed.

Lemma findIndex_none_existsb {A} (p : A -> bool) l :
  findIndex p l = None <-> existsb p l = false.
Proof.
  induction l as [|x l IH]; simpl; [tauto|].
  destruct (p x); simpl.
  - split; discriminate.
  - rewrite <- IH. destruct (findIndex p l); simpl; split; congruence.
Qed.

Lemma some_url_sym images u :
  some_url images u = existsb (fun i => String.eqb (url i) u) images.
Proof. reflexivity. Qed.

Lemma filter_from_keep_first suf : forall pre,
  filter_from (first_occurrence (pre ++ suf)) (length pre) suf = keep_first pre suf.
Proof.
  induction suf as [|x xs IH]; intros pre; simpl; [reflexivity|].
  specialize (IH (pre ++ [x])). rewrite <- app_assoc, length_app in IH. simpl in IH.
  rewrite Nat.add_1_r in IH.
  unfold first_occurrence at 1. rewrite findIndex_app.
  destruct (findIndex (fun i => String.eqb (url i) (url x)) pre) as [j|] eqn:Hf.
  - (* an earlier image has the same URL *)
    assert (Hs : some_url pre (url x) = true).
    { rewrite some_url_sym. destruct (existsb _ pre) eqn:He; [reflexivity|].
      apply findIndex_none_existsb in He. congruence. }
    rewrite Hs.
    apply findIndex_lt in Hf as Hlt.
    replace (length pre =? j)%nat with false by (symmetry; apply Nat.eqb_neq; lia).
    rewrite IH. apply keep_first_ext. intros u.
    rewrite some_url_app. simpl. rewrite orb_false_r.
    destruct (String.eqb_spec (url x) u) as [<-|Hne]; [|apply orb_false_r].
    rewrite Hs. reflexivity.
  - assert (Hs : some_url pre (url x) = false).
    { rewrite some_url_sym. apply findIndex_none_existsb. assumption. }
    rewrite Hs. simpl. rewrite String.eqb_refl. simpl.
    rewrite Nat.add_0_r, Nat.eqb_refl. f_equal. exact IH.
Qed.

(** Line 124 keeps, of each URL, the first image discovered. *)
Lemma uniqueImages_keep_first images : uniqueImages images = keep_first [] images.
Proof. apply (filter_from_keep_first images []). Qed.

Lemma keep_first_spec l : forall seen,
  NoDup (url <$> keep_first seen l)
  /\ (forall img, img ∈ keep_first seen l -> img ∈ l /\ some_url seen (url img) = false)
  /\ (forall u, u ∈ url <$> l -> some_url seen u = true \/ u ∈ url <$> keep_first seen l)
  /\ keep_first seen l `sublist_of` l.
Proof.
  induction l as [|x xs IH]; intros seen; simpl.
  - split; [constructor|]. split; [intros img H; inversion H|].
    split; [intros u H; inversion H|]. constructor.
  - destruct (some_url seen (url x)) eqn:Hs.
    + destruct (IH seen) as (Hnd & Hin & Hcov & Hsub).
      split; [assumption|]. split; [|split].
      * intros img Himg. destruct (Hin img Himg). split; [right|]; assumption.
      * intros u Hu. apply elem_of_cons in Hu as [->|Hu]; [left; assumption|].
        apply Hcov. assumption.
      * apply sublist_cons. assumption.
    + destruct (IH (seen ++ [x])) as (Hnd & Hin & Hcov & Hsub).
      split; [|split; [|split]].
      * rewrite fmap_cons. apply NoDup_cons. split; [|assumption].
        intros Hx. apply list_elem_of_fmap in Hx as (img & Heq & Himg).
        destruct (Hin img Himg) as [_ Hseen].
        rewrite some_url_app in Hseen. simpl in Hseen.
        rewrite <- Heq, String.eqb_refl in Hseen. simpl in Hseen.
        rewrite orb_true_r in Hseen. discriminate.
      * intros img Himg. apply elem_of_cons in Himg as [->|Himg].
        -- split; [left|assumption].
        -- destruct (Hin img Himg) as [H1 H2]. split; [right; assumption|].
           rewrite some_url_app in H2. apply orb_false_iff in H2. tauto.
      * intros u Hu. rewrite fmap_cons.
        apply elem_of_cons in Hu as [->|Hu]; [right; left|].
        destruct (Hcov u Hu) as [H|H]; [|right; right; assumption].
        rewrite some_url_app in H. simpl in H. rewrite orb_false_r in H.
        apply orb_true_iff in H as [H|H]; [left; assumption|].
        apply String.eqb_eq in H. right. rewrite H. left.
      * apply sublist_skip. assumption.
Qed.

(** The returned list: no URL twice, the URLs of the discovered images and
    nothing else, in discovery order. *)
Lemma uniqueImages_spec images :
  NoDup (url <$> uniqueImages images)
  /\ (forall u, u ∈ url <$> uniqueImages images <-> u ∈ url <$> images)
  /\ uniqueImages images `sublist_of` images.
Proof.
  rewrite uniqueImages_keep_first.
  destruct (keep_first_spec images []) as (Hnd & Hin & Hcov & Hsub).
  split; [assumption|]. split; [|assumption].
  intros u. split.
  - intros Hu. apply list_elem_of_fmap in Hu as (img & -> & Himg).
    apply list_elem_of_fmap_2. apply Hin. assumption.
  - intros Hu. destruct (Hcov u Hu) as [H|H]; [discriminate H|assumption].
Qed.

Lemma take_nodup_urls n (images : list GalleryImage) :
  NoDup (url <$> images) -> NoDup (url <$> take n images).
Proof.
  intros H. rewrite fmap_take. eapply sublist_NoDup; [exact H|apply sublist_take].
Qed.

End GalleryFacts.

Module DedupFacts.
Import ExtractGallery GallerySpec.

Lemma keep_first_fresh l : forall seen,
  NoDup (url <$> l) ->
  (forall img, img ∈ l -> some_url seen (url img) = false) ->
  keep_first seen l = l.
Proof.
  induction l as [|x xs IH]; intros seen Hnd Hfresh; [reflexivity|].
  simpl. rewrite (Hfresh x (list_elem_of_here _ _)).
  rewrite fmap_cons in Hnd. apply NoDup_cons in Hnd as [Hx Hnd].
  f_equal. apply IH; [exact Hnd|].
  intros img Hin. rewrite GalleryFacts.some_url_app.
  rewrite (Hfresh img (list_elem_of_further _ _ _ Hin)). simpl.
  rewrite orb_false_r. apply String.eqb_neq. intros Heq.
  apply Hx. rewrite Heq. apply list_elem_of_fmap. eauto.
Qed.

Lemma uniqueImages_fresh l : NoDup (url <$> l) -> uniqueImages l = l.
Proof.
  intros H. rewrite GalleryFacts.uniqueImages_keep_first.
  apply keep_first_fresh; [exact H|reflexivity].
Qed.

Lemma keep_first_is_first l : forall seen img,
  img ∈ keep_first seen l ->
  exists k, l !! k = Some img
            /\ forall j x, j < k -> l !! j = Some x -> url x <> url img.
Proof.
  induction l as [|x xs IH]; intros seen img Hin; simpl in Hin.
  { inversion Hin. }
  assert (Hstep : forall seen', img ∈ keep_first seen' xs ->
            some_url seen' (url x) = true ->
            exists k, (x :: xs) !! k = Some img
                      /\ forall j y, j < k -> (x :: xs) !! j = Some y -> url y <> url img).
  { intros seen' Hin' Hseen.
    destruct (IH seen' img Hin') as (k & Hk & Hfirst).
    exists (S k). split; [exact Hk|].
    intros [|j] y Hj Hy; simpl in Hy.
    - injection Hy as <-. intros Heq.
      destruct (GalleryFacts.keep_first_spec xs seen') as (_ & Hfresh & _).
      destruct (Hfresh img Hin') as [_ Hf]. rewrite <- Heq in Hf. congruence.
    - apply (Hfirst j y); [lia|exact Hy]. }
  destruct (some_url seen (url x)) eqn:Hs.
  - apply (Hstep seen Hin Hs).
  - apply elem_of_cons in Hin as [->|Hin].
    + exists 0. split; [reflexivity|]. intros j y Hj. lia.
    + apply (Hstep (seen ++ [x]) Hin).
      rewrite GalleryFacts.some_url_app. simpl. rewrite String.eqb_refl.
      rewrite orb_true_r. reflexivity.
Qed.

Lemma NoDup_snoc_url images (x : GalleryImage) :
  NoDup (url <$> images) -> some_url images (url x) = false ->
  NoDup (url <$> images ++ [x]).
Proof.
  intros Hnd Hx. rewrite fmap_app. apply NoDup_app. split; [exact Hnd|]. split.
  - intros u Hu Hin. simpl in Hin. apply list_elem_of_singleton in Hin. subst u.
    apply GalleryFacts.some_url_elem in Hu. congruence.
  - simpl. apply NoDup_singleton.
Qed.

Lemma strategy2_nodup images src :
  NoDup (url <$> images) -> NoDup (url <$> strategy2 images src).
Proof.
  intros H. unfold strategy2.
  destruct (_ && _); [|exact H].
  destruct (some_url images (highRes src)) eqn:Hs; simpl; [exact H|].
  apply NoDup_snoc_url; assumption.
Qed.

Lemma strategy4_nodup matches : forall images,
  NoDup (url <$> images) -> NoDup (url <$> strategy4 images matches).
Proof.
  unfold strategy4. generalize (indexed matches). intros l.
  induction l as [|[idx u] l IH]; intros images H; [exact H|].
  simpl. apply IH.
  destruct (some_url images u) eqn:Hs; simpl; [exact H|].
  apply NoDup_snoc_url; assumption.
Qed.

Lemma foldl_invariant {A B} (P : A -> Prop) (f : A -> B -> A) (l : list B) :
  (forall a b, P a -> P (f a b)) -> forall a, P a -> P (foldl f a l).
Proof.
  intros Hf. induction l as [|b l IH]; intros a Ha; [exact Ha|].
  simpl. apply IH, Hf, Ha.
Qed.









End DedupFacts.

Module ExtractFacts.
Import ExtractGallery GallerySpec.

Lemma POST_supported env g :
  supported env g ->
  POST env (Resolved (Some g))
  = match extractPixiesetGallery (fetch_gallery env g) with
    | inl error =>
        {| code := 500; body := ErrorBody (error_message error "Failed to extract gallery") |}
    | inr images =>
        if (length images =? 0)%nat
        then {| code := 404; body := ErrorBody msg_no_images |}
        else {| code := 200; body := Images images |}
    end.
Proof. intros (H1 & H2 & H3). unfold POST. rewrite H1, H2, H3. reflexivity. Qed.

Lemma extract_fetched response p :
  ok response = true -> page response = Resolved p ->
  extractPixiesetGallery (Resolved response)
  = match extract_page p with
    | inl error =>
        inl (ErrorObj ("Failed to extract gallery: " +:+ error_message error "Unknown error"))
    | inr images => inr images
    end.
Proof.
  intros Hok Hp. unfold extractPixiesetGallery. simpl. rewrite Hok, Hp. simpl.
  destruct (extract_page p); reflexivity.
Qed.

Lemma extract_page_found p :
  uniqueImages (discovered p) <> [] ->
  extract_page p = inr (take 20 (uniqueImages (discovered p))).
Proof.
  intros H. unfold extract_page.
  destruct (uniqueImages (discovered p)) as [|x l]; [congruence|]. reflexivity.
Qed.

Lemma extract_page_empty p :
  uniqueImages (discovered p) = [] ->
  extract_page p
  = if includes (html p) "password" || includes (html p) "Password" then inl err_password
    else if negb (includes (html p) "pixieset") then inl err_not_pixieset
    else inr [].
Proof.
  intros H. unfold extract_page. rewrite H. simpl.
  destruct (includes (html p) "password" || includes (html p) "Password"); [reflexivity|].
  destruct (negb (includes (html p) "pixieset")); reflexivity.
Qed.

Lemma length_take_20 {A} (l : list A) : length (take 20 l) <= 20.
Proof. rewrite length_take. lia. Qed.

End ExtractFacts.

(** C6 as stated fails where it says that zero images found yields 404: a
    page that mentions a password and holds no image is answered with 500. *)
Lemma password_page_is_answered_500 :
  ExtractGallery.uniqueImages (ExtractGallery.discovered GallerySpec.password_page) = []
  /\ ExtractGallery.POST GallerySpec.password_env
       (Resolved (Some "https://studio.pixieset.com/wedding/"))
     = {| ExtractGallery.code := 500;
          ExtractGallery.body :=
            ExtractGallery.ErrorBody
              "Failed to extract gallery: Gallery appears to be password protected" |}
  /\ ExtractGallery.code
       (ExtractGallery.POST GallerySpec.password_env
          (Resolved (Some "https://studio.pixieset.com/wedding/"))) <> 404%Z.
Proof. split; [reflexivity|]. split; [reflexivity|]. discriminate. Qed.

(** C6, amended.  For a supported gallery URL whose page was fetched, the
    images collected by the strategies are deduplicated by URL (no URL
    twice, every discovered URL kept) and at most the first 20 are returned
    with status 200.  When none is found the answer depends on the page
    text: 500 "Gallery appears to be password protected" when it contains
    "password" or "Password"; otherwise 500 "This doesn't appear to be a
    Pixieset gallery page" when it does not contain "pixieset"; otherwise
    404 with the generic no-images message.  A missing, empty, malformed or
    unsupported URL is answered with 400, a failed scrape with 500. *)
Theorem gallery_extraction_replies (env : ExtractGallery.Env) :
  (forall request,
     request = Resolved None
     \/ (exists g, request = Resolved (Some g)
                   /\ (g = EmptyString
                       \/ ExtractGallery.url_parses env g = false
                       \/ includes g "pixieset.com" = false)) ->
     ExtractGallery.code (ExtractGallery.POST env request) = 400%Z)
  /\ (forall g,
        GallerySpec.supported env g ->
        GallerySpec.scrape_failed (ExtractGallery.fetch_gallery env g) ->
        ExtractGallery.code (ExtractGallery.POST env (Resolved (Some g))) = 500%Z)
  /\ (forall g response p,
        GallerySpec.supported env g ->
        ExtractGallery.fetch_gallery env g = Resolved response ->
        ExtractGallery.ok response = true ->
        ExtractGallery.page response = Resolved p ->
        NoDup (ExtractGallery.url <$> ExtractGallery.uniqueImages (ExtractGallery.discovered p))
        /\ (forall u,
              u ∈ ExtractGallery.url <$> ExtractGallery.uniqueImages (ExtractGallery.discovered p)
              <-> u ∈ ExtractGallery.url <$> ExtractGallery.discovered p)
        /\ (ExtractGallery.uniqueImages (ExtractGallery.discovered p) <> [] ->
            ExtractGallery.POST env (Resolved (Some g))
            = {| ExtractGallery.code := 200;
                 ExtractGallery.body :=
                   ExtractGallery.Images
                     (take 20 (ExtractGallery.uniqueImages (ExtractGallery.discovered p))) |}
            /\ length (take 20 (ExtractGallery.uniqueImages (ExtractGallery.discovered p))) <= 20
            /\ NoDup (ExtractGallery.url <$>
                        take 20 (ExtractGallery.uniqueImages (ExtractGallery.discovered p))))
        /\ (ExtractGallery.uniqueImages (ExtractGallery.discovered p) = [] ->
            ExtractGallery.POST env (Resolved (Some g))
            = if includes (ExtractGallery.html p) "password"
                 || includes (ExtractGallery.html p) "Password"
              then {| ExtractGallery.code := 500;
                      ExtractGallery.body :=
                        ExtractGallery.ErrorBody
                          "Failed to extract gallery: Gallery appears to be password protected" |}
              else if negb (includes (ExtractGallery.html p) "pixieset")
              then {| ExtractGallery.code := 500;
                      ExtractGallery.body :=
                        ExtractGallery.ErrorBody
                          "Failed to extract gallery: This doesn't appear to be a Pixieset gallery page" |}
              else {| ExtractGallery.code := 404;
                      ExtractGallery.body :=
                        ExtractGallery.ErrorBody ExtractGallery.msg_no_images |})).
Proof.
  split; [|split].
  - intros request [->|(g & -> & H)]; [reflexivity|].
    unfold ExtractGallery.POST.
    destruct H as [->|[H|H]]; [reflexivity| |].
    + destruct (nonempty g); [|reflexivity]. simpl. rewrite H. reflexivity.
    + destruct (nonempty g); [|reflexivity]. simpl.
      destruct (ExtractGallery.url_parses env g); [|reflexivity]. simpl.
      rewrite H. reflexivity.
  - intros g Hsup Hfail. rewrite (ExtractFacts.POST_supported env g Hsup).
    unfold GallerySpec.scrape_failed in Hfail. unfold ExtractGallery.extractPixiesetGallery.
    destruct (ExtractGallery.fetch_gallery env g) as [response|e]; simpl; [|reflexivity].
    destruct Hfail as [Hok|(e & He)].
    + rewrite Hok. reflexivity.
    + destruct (ExtractGallery.ok response); simpl; [|reflexivity].
      rewrite He. reflexivity.
  - intros g response p Hsup Hfetch Hok Hpage.
    destruct (GalleryFacts.uniqueImages_spec (ExtractGallery.discovered p))
      as (Hnd & Hcov & _).
    split; [exact Hnd|]. split; [exact Hcov|].
    rewrite (ExtractFacts.POST_supported env g Hsup), Hfetch.
    rewrite (ExtractFacts.extract_fetched response p Hok Hpage).
    split.
    + intros Hne. rewrite (ExtractFacts.extract_page_found p Hne).
      split; [|split].
      * destruct (ExtractGallery.uniqueImages (ExtractGallery.discovered p)) as [|x l];
          [congruence|reflexivity].
      * apply ExtractFacts.length_take_20.
      * apply GalleryFacts.take_nodup_urls. exact Hnd.
    + intros He. rewrite (ExtractFacts.extract_page_empty p He).
      destruct (includes (ExtractGallery.html p) "password"
                || includes (ExtractGallery.html p) "Password"); [reflexivity|].
      destruct (negb (includes (ExtractGallery.html p) "pixieset")); reflexivity.
Qed.

(** C6 amended, at the password page and at a URL of another site. *)
Lemma gallery_extraction_replies_witness :
  ExtractGallery.code
    (ExtractGallery.POST GallerySpec.password_env (Resolved (Some "https://example.org/g")))
  = 400%Z
  /\ ExtractGallery.code
       (ExtractGallery.POST GallerySpec.password_env
          (Resolved (Some "https://studio.pixieset.com/wedding/"))) = 500%Z.
Proof.
  destruct (gallery_extraction_replies GallerySpec.password_env) as (H400 & _ & Hpage).
  split.
  - apply H400. right. exists "https://example.org/g". split; [reflexivity|].
    right. right. reflexivity.
  - destruct (Hpage "https://studio.pixieset.com/wedding/"
                {| ExtractGallery.status := 200; ExtractGallery.statusText := "OK";
                   ExtractGallery.page := Resolved GallerySpec.password_page |}
                GallerySpec.password_page
                ltac:(repeat split) eq_refl eq_refl eq_refl) as (_ & _ & _ & Hempty).
    rewrite (Hempty eq_refl). reflexivity.
Defined.

Module NamingFacts.
Import ExtractGallery GallerySpec.








End NamingFacts.




(* ===================================================================== *)
(** ** Further properties of the retry wrapper *)
(* ===================================================================== *)

Module RetryMore.
Import Retry RetryFacts.

Lemma backoff_series n : forall d, AdapterSpec.backoff n d = RetrySpec.series n d.
Proof.
  unfold RetrySpec.series.
  induction n as [|n IH]; intros d; [reflexivity|].
  cbn [AdapterSpec.backoff]. rewrite IH.
  change (seq 0 (S n)) with (0 :: seq 1 n). rewrite <- fmap_S_seq.
  cbn [map]. f_equal.
  - change (Z.of_nat 0) with 0%Z. rewrite Z.pow_0_r. lia.
  - change (fmap S (seq 0 n)) with (map S (seq 0 n)). rewrite map_map.
    apply map_ext. intros i. rewrite Nat2Z.inj_succ, Z.pow_succ_r by lia.
    unfold backoffMultiplier. lia.
Qed.

(** An operation that rejects [m] times and then resolves. *)
Lemma retry_until_resolved {T} (op : nat -> Outcome T) (v : T) m :
  forall retries delay w,
    (forall k, k < m -> exists e, op (calls w + k) = Rejected e) ->
    op (calls w + m) = Resolved v ->
    m <= retries ->
    (retryWithBackoff (invoke op) retries delay w).1 = Resolved v
    /\ calls (retryWithBackoff (invoke op) retries delay w).2 = calls w + m + 1
    /\ waits (log (retryWithBackoff (invoke op) retries delay w).2)
       = waits (log w) ++ AdapterSpec.backoff m delay.
Proof.
  induction m as [|m IH]; intros retries delay w Hrej Hres Hle.
  - rewrite Nat.add_0_r in Hres.
    rewrite (retry_resolved (invoke op) retries delay w v
               {| calls := S (calls w); log := log w ++ [Call (calls w)] |}).
    + simpl. split; [reflexivity|]. split; [lia|]. rewrite waits_app. reflexivity.
    + unfold invoke. rewrite Hres. reflexivity.
  - destruct retries as [|retries]; [lia|].
    destruct (Hrej 0 ltac:(lia)) as [e He]. rewrite Nat.add_0_r in He.
    rewrite (retry_step_rejected op retries delay w e He).
    destruct (IH retries (delay * backoffMultiplier)%Z
                (sleep delay {| calls := S (calls w); log := log w ++ [Call (calls w)] |}))
      as (H1 & H2 & H3).
    + intros k Hk. cbn [sleep calls].
      replace (S (calls w) + k) with (calls w + S k) by lia.
      apply Hrej. lia.
    + cbn [sleep calls]. replace (S (calls w) + m) with (calls w + S m) by lia. exact Hres.
    + lia.
    + rewrite H1, H2, H3. simpl.
      split; [reflexivity|]. split; [lia|].
      rewrite !waits_app. simpl. rewrite <- !app_assoc. reflexivity.
Qed.

End RetryMore.

(** X1. An operation that rejects at every invocation is invoked
    [retries + 1] times; the waits in between are [d, d*2, d*4, ...]
    ([retries] of them); and the wrapper rejects with the rejection of the
    last invocation, unchanged. *)
Theorem retry_exhausts_then_rejects {T} (op : nat -> Outcome T) (err : nat -> Thrown)
    (retries : nat) (delay : Z) :
  (forall k, op k = Rejected (err k)) ->
  (Retry.retryWithBackoff (Retry.invoke op) retries delay Retry.start).1
  = Rejected (err retries)
  /\ Retry.attempts (Retry.retryWithBackoff (Retry.invoke op) retries delay Retry.start).2
     = retries + 1
  /\ Retry.waits
       (Retry.log (Retry.retryWithBackoff (Retry.invoke op) retries delay Retry.start).2)
     = RetrySpec.series retries delay.
Proof.
  intros Hop.
  destruct (RetryFacts.retry_always_rejecting op err Hop retries delay Retry.start)
    as (H1 & H2 & H3).
  rewrite H1, H3. unfold Retry.attempts. rewrite H2. simpl.
  split; [reflexivity|]. split; [reflexivity|]. apply RetryMore.backoff_series.
Qed.

(** X1, with five retries from 100 ms. *)
Lemma retry_exhausts_then_rejects_witness :
  Retry.waits
    (Retry.log
       (Retry.retryWithBackoff
          (Retry.invoke (fun k => @Rejected nat (ErrorObj (string_of_nat k)))) 5 100
          Retry.start).2)
  = [100; 200; 400; 800; 1600]%Z.
Proof.
  rewrite (proj2 (proj2 (retry_exhausts_then_rejects
                           (fun k => @Rejected nat (ErrorObj (string_of_nat k)))
                           (fun k => ErrorObj (string_of_nat k)) 5 100
                           (fun k => eq_refl)))).
  reflexivity.
Defined.

(** X2. An operation that rejects [m] times and resolves at the next
    invocation, with [m] within the retry budget, makes the wrapper resolve
    with that very value after [m + 1] invocations and the first [m] waits
    of the series. *)
Theorem retry_returns_first_success {T} (op : nat -> Outcome T) (v : T)
    (m retries : nat) (delay : Z) :
  (forall k, k < m -> exists e, op k = Rejected e) ->
  op m = Resolved v ->
  m <= retries ->
  (Retry.retryWithBackoff (Retry.invoke op) retries delay Retry.start).1 = Resolved v
  /\ Retry.attempts (Retry.retryWithBackoff (Retry.invoke op) retries delay Retry.start).2
     = m + 1
  /\ Retry.waits
       (Retry.log (Retry.retryWithBackoff (Retry.invoke op) retries delay Retry.start).2)
     = RetrySpec.series m delay.
Proof.
  intros Hrej Hres Hle.
  destruct (RetryMore.retry_until_resolved op v m retries delay Retry.start)
    as (H1 & H2 & H3); try assumption.
  rewrite H1, H3. unfold Retry.attempts. rewrite H2. simpl.
  split; [reflexivity|]. split; [reflexivity|]. apply RetryMore.backoff_series.
Qed.

(** X2, for an operation that fails twice and then answers 7. *)
Lemma retry_returns_first_success_witness :
  (Retry.retryWithBackoff
     (Retry.invoke (fun k => if (k <? 2)%nat then Rejected NonError else Resolved 7))
     Retry.maxRetries Retry.retryDelay Retry.start).1 = Resolved 7.
Proof.
  apply (retry_returns_first_success
           (fun k => if (k <? 2)%nat then Rejected NonError else Resolved 7) 7 2
           Retry.maxRetries Retry.retryDelay).
  - intros k Hk. exists NonError. destruct k as [|[|k]]; [reflexivity|reflexivity|lia].
  - reflexivity.
  - unfold Retry.maxRetries. lia.
Defined.

(* ===================================================================== *)
(** ** Further properties of the provider adapter *)
(* ===================================================================== *)

Module AdapterMore.
Import Http WatermarkApi AdapterSpec.

Lemma resolved_success_from_try env imageUrl filename r :
  removeWithFluxKontext env imageUrl filename = Resolved r ->
  success r = true ->
  fal_try env imageUrl filename = inr r.
Proof.
  unfold removeWithFluxKontext.
  destruct (fal_try env imageUrl filename) as [e|r']; intros H Hs.
  - injection H as <-. discriminate Hs.
  - congruence.
Qed.

Lemma probe_inr env imageUrl : probe env imageUrl = inr tt -> probe_ok env = true.
Proof.
  unfold probe, probe_ok. destruct (fetch1 env) as [r|e]; simpl; [|discriminate].
  destruct (ok r); simpl; [reflexivity|discriminate].
Qed.

Lemma try_results_have_no_error settings env imageUrl filename r :
  removeWatermark settings env imageUrl filename = Resolved r ->
  success r = true -> error r = None.
Proof.
  unfold removeWatermark, removeWithFluxKontext, removeLightPDF, removeWatermarkRemover,
    removeRapidAPI, removeCustom, catch_all.
  intros H Hs.
  repeat match type of H with
  | (if ?b then _ else _) = _ => destruct b
  end;
  match type of H with
  | match ?m with _ => _ end = _ => destruct m as [e|r'] eqn:E
  | _ => idtac
  end;
  try discriminate H;
  try (injection H as <-; discriminate Hs);
  injection H as <-.
  - unfold fal_try in E. peel E.
    + exfalso. eapply AdapterFacts.fal_error_response_throws; eassumption.
    + unfold fal_success_response in E. peel E. injection E as <-. reflexivity.
  - unfold lightpdf_try in E. peel E. injection E as <-. reflexivity.
  - unfold single_request_try in E. peel E. injection E as <-. reflexivity.
  - unfold single_request_try in E. peel E. injection E as <-. reflexivity.
  - destruct (negb (truthy_str (endpoint settings))); [discriminate E|].
    unfold single_request_try in E. peel E. injection E as <-. reflexivity.
Qed.

End AdapterMore.

(** X3. The primary variant reports success only when the image URL passed
    validation, the probe answered with a success status, the provider
    answered the submission with a success status and a JSON body whose
    [images] holds a first element; the processed URL is that element's
    [url], a job id is always attached, and no error message is. *)
Theorem fal_success_has_an_image (env : Http.CallEnv) (imageUrl filename : string)
    (r : WatermarkApi.WatermarkRemovalResult) :
  WatermarkApi.removeWithFluxKontext env imageUrl filename = Resolved r ->
  WatermarkApi.success r = true ->
  AdapterSpec.invalid_url imageUrl = false
  /\ AdapterSpec.probe_ok env = true
  /\ exists response result images first,
       Http.fetch2 env = Resolved response
       /\ Http.ok response = true
       /\ Http.json response = inr result
       /\ get_prop result "images" = inr images
       /\ truthy images = true
       /\ get_index images 0 = inr first
       /\ get_prop first "url" = inr (WatermarkApi.processedImageUrl r)
       /\ truthy (WatermarkApi.jobId r) = true
       /\ WatermarkApi.error r = None.
Proof.
  intros H Hs.
  pose proof (AdapterMore.resolved_success_from_try env imageUrl filename r H Hs) as Ht.
  unfold WatermarkApi.fal_try in Ht. fold (AdapterSpec.invalid_url imageUrl) in Ht.
  destruct (AdapterSpec.invalid_url imageUrl) eqn:Hv; [discriminate Ht|].
  split; [reflexivity|].
  destruct (WatermarkApi.probe env imageUrl) as [e|[]] eqn:Hp; [discriminate Ht|].
  split; [eapply AdapterMore.probe_inr; eassumption|].
  simpl in Ht.
  destruct (Http.fetch2 env) as [response|e]; [|discriminate Ht]. simpl in Ht.
  destruct (Http.text response) as [t|e]; [|discriminate Ht]. simpl in Ht.
  destruct (Http.ok response) eqn:Hok; simpl in Ht.
  2:{ exfalso. eapply AdapterFacts.fal_error_response_throws; eassumption. }
  unfold WatermarkApi.fal_success_response in Ht.
  destruct (Http.json response) as [e|result] eqn:Hj; [discriminate Ht|]. simpl in Ht.
  destruct (get_prop result "images") as [e|images] eqn:Hi; [discriminate Ht|]. simpl in Ht.
  destruct (truthy images) eqn:Hti.
  2:{ simpl in Ht. discriminate Ht. }
  destruct (get_prop images "length") as [e|len]; [discriminate Ht|]. simpl in Ht.
  destruct (gt_zero len); [|discriminate Ht].
  destruct (get_index images 0) as [e|first] eqn:Hf; [discriminate Ht|]. simpl in Ht.
  destruct (get_prop first "url") as [e|u] eqn:Hu; [discriminate Ht|]. simpl in Ht.
  destruct (get_prop result "request_id") as [e|rid]; [discriminate Ht|]. simpl in Ht.
  injection Ht as <-. simpl.
  exists response, result, images, first.
  repeat split; try assumption; try reflexivity.
  unfold or_val. destruct (truthy rid) eqn:Hr; [assumption|reflexivity].
Qed.

(** X3, on a provider answer with one image. *)
Lemma fal_success_has_an_image_witness :
  AdapterSpec.invalid_url "https://cdn.example.com/a.jpg" = false
  /\ AdapterSpec.probe_ok
       {| Http.fetch1 :=
            Resolved {| Http.status := 200; Http.statusText := "OK"; Http.text := Resolved "";
                        Http.json := inl NonError |};
          Http.fetch2 :=
            Resolved {| Http.status := 200; Http.statusText := "OK";
                        Http.text := Resolved "{...}";
                        Http.json :=
                          inr (VObj [("images",
                                      VArr [VObj [("url", VStr "https://fal.media/out.jpg")]])]) |};
          Http.now := 17 |} = true.
Proof.
  destruct (fal_success_has_an_image
              {| Http.fetch1 :=
                   Resolved {| Http.status := 200; Http.statusText := "OK";
                               Http.text := Resolved ""; Http.json := inl NonError |};
                 Http.fetch2 :=
                   Resolved {| Http.status := 200; Http.statusText := "OK";
                               Http.text := Resolved "{...}";
                               Http.json :=
                                 inr (VObj [("images",
                                             VArr [VObj [("url",
                                                          VStr "https://fal.media/out.jpg")]])]) |};
                 Http.now := 17 |}
              "https://cdn.example.com/a.jpg" "a.jpg"
              {| WatermarkApi.success := true;
                 WatermarkApi.processedImageUrl := VStr "https://fal.media/out.jpg";
                 WatermarkApi.error := None;
                 WatermarkApi.jobId := VStr "flux_17" |}
              eq_refl eq_refl) as (H1 & H2 & _).
  split; assumption.
Defined.

(** X4. How the primary variant words a non-success answer of the
    provider (URL valid, probe passed, body read): a body that is not JSON
    gives the generic message with the status line and the first 100
    characters of the body, whatever the status; with a JSON body, 401 gives
    the invalid-key message, 403 the forbidden message, and 422 with
    [detail[0].type = "file_download_error"] the cannot-download message. *)
Theorem fal_failure_messages (env : Http.CallEnv) (imageUrl filename : string)
    (response : Http.Response) (responseText : string) :
  AdapterSpec.invalid_url imageUrl = false ->
  AdapterSpec.probe_ok env = true ->
  Http.fetch2 env = Resolved response ->
  Http.text response = Resolved responseText ->
  Http.ok response = false ->
  (forall e, Http.json response = inl e ->
     WatermarkApi.removeWithFluxKontext env imageUrl filename
     = Resolved (WatermarkApi.failure (WatermarkApi.err_fal_html response responseText)
                   "Unknown error occurred"))
  /\ (forall errorData, Http.json response = inr errorData ->
        Http.status response = 401%Z ->
        WatermarkApi.removeWithFluxKontext env imageUrl filename
        = Resolved (WatermarkApi.failure WatermarkApi.err_401 "Unknown error occurred"))
  /\ (forall errorData, Http.json response = inr errorData ->
        Http.status response = 403%Z ->
        WatermarkApi.removeWithFluxKontext env imageUrl filename
        = Resolved (WatermarkApi.failure WatermarkApi.err_403 "Unknown error occurred"))
  /\ (forall errorData detail first,
        Http.json response = inr errorData ->
        Http.status response = 422%Z ->
        get_prop errorData "detail" = inr detail ->
        get_index_opt detail 0 = inr first ->
        get_prop_opt first "type" = inr (VStr "file_download_error") ->
        WatermarkApi.removeWithFluxKontext env imageUrl filename
        = Resolved (WatermarkApi.failure (WatermarkApi.err_download imageUrl)
                      "Unknown error occurred")).
Proof.
  intros Hv Hp Hf Ht Hok.
  assert (Hred : WatermarkApi.removeWithFluxKontext env imageUrl filename
                 = match WatermarkApi.fal_error_response response responseText imageUrl with
                   | inr r => Resolved r
                   | inl e => Resolved (WatermarkApi.failure e "Unknown error occurred")
                   end).
  { unfold WatermarkApi.removeWithFluxKontext, WatermarkApi.fal_try.
    fold (AdapterSpec.invalid_url imageUrl). rewrite Hv.
    unfold WatermarkApi.probe, AdapterSpec.probe_ok in *.
    destruct (Http.fetch1 env) as [pr|e]; [|discriminate Hp]. simpl. rewrite Hp. simpl.
    rewrite Hf. simpl. rewrite Ht. simpl. rewrite Hok. reflexivity. }
  rewrite Hred. unfold WatermarkApi.fal_error_response.
  split; [|split; [|split]].
  - intros e He. rewrite He. reflexivity.
  - intros errorData He Hs. rewrite He, Hs. reflexivity.
  - intros errorData He Hs. rewrite He, Hs. reflexivity.
  - intros errorData detail first He Hs Hd Hfi Hty. rewrite He, Hs. simpl.
    rewrite Hd. simpl. rewrite Hfi. simpl. rewrite Hty. reflexivity.
Qed.

(** X4, on a 401 answer with a JSON body. *)
Lemma fal_failure_messages_witness :
  WatermarkApi.removeWithFluxKontext AdapterSamples.unauthorized_env
    "https://cdn.example.com/a.jpg" "a.jpg"
  = Resolved {| WatermarkApi.success := false;
                WatermarkApi.processedImageUrl := VUndef;
                WatermarkApi.error := Some "Invalid API key. Please check your Fal.ai API key.";
                WatermarkApi.jobId := VUndef |}.
Proof.
  exact (proj1 (proj2 (fal_failure_messages AdapterSamples.unauthorized_env
                         "https://cdn.example.com/a.jpg" "a.jpg"
                         AdapterSamples.unauthorized "{ detail: Invalid key }"
                         eq_refl eq_refl eq_refl eq_refl eq_refl))
           (VObj [("detail", VStr "Invalid key")]) eq_refl eq_refl).
Defined.

(** X5. When a recognized provider resolves with [success: true] but
    without a usable processed URL (for the secondary variants: a success
    answer whose JSON lacks the URL field), the pipeline reports the task as
    an error with the message "Processing failed" and the original URL as
    [processedUrl], after a single provider call. *)
Theorem success_without_url_is_an_error
    (settings : WatermarkApi.ApiSettings) (oracle : nat -> Http.CallEnv)
    (imageUrl filename : string) (r : WatermarkApi.WatermarkRemovalResult) :
  WatermarkApi.removeWatermark settings (oracle 0) imageUrl filename = Resolved r ->
  WatermarkApi.success r = true ->
  truthy (WatermarkApi.processedImageUrl r) = false ->
  ProcessImages.processImageWithRetry settings oracle imageUrl filename
  = ({| ProcessingResult.originalUrl := imageUrl;
        ProcessingResult.processedUrl := VStr imageUrl;
        ProcessingResult.filename := filename;
        ProcessingResult.status := ProcessingResult.Error;
        ProcessingResult.message := Some "Processing failed";
        ProcessingResult.jobId := VUndef |},
     {| Retry.calls := 1; Retry.log := [Retry.Call 0] |}).
Proof.
  intros Hr Hs Hu.
  rewrite (PipelineFacts.processImageWithRetry_resolved settings oracle imageUrl filename r Hr).
  rewrite Hs, Hu. simpl.
  rewrite (AdapterMore.try_results_have_no_error settings (oracle 0) imageUrl filename r Hr Hs).
  reflexivity.
Qed.

(** X5, for the watermarkremover variant answering 200 without [result_url]. *)
Lemma success_without_url_is_an_error_witness :
  ProcessingResult.status
    (ProcessImages.processImageWithRetry AdapterSamples.watermarkremover_settings
       (fun _ => AdapterSamples.no_url_env) "https://cdn.example.com/a.jpg" "a.jpg").1
  = ProcessingResult.Error.
Proof.
  rewrite (success_without_url_is_an_error AdapterSamples.watermarkremover_settings
             (fun _ => AdapterSamples.no_url_env) "https://cdn.example.com/a.jpg" "a.jpg"
             {| WatermarkApi.success := true; WatermarkApi.processedImageUrl := VUndef;
                WatermarkApi.error := None; WatermarkApi.jobId := VStr "j1" |}
             eq_refl eq_refl eq_refl).
  reflexivity.
Defined.

(** X6. The two-step variant reports success only when both the upload and
    the processing request were answered with a success status and the
    processing answer parsed as JSON, whose [download_url] becomes the
    processed URL; when the upload is answered with a non-success status the
    failure reads "Upload failed: <statusText>" whatever the second request
    would answer. *)
Theorem lightpdf_needs_both_steps (env : Http.CallEnv) (imageUrl filename : string) :
  (forall r,
     WatermarkApi.removeLightPDF env imageUrl filename = Resolved r ->
     WatermarkApi.success r = true ->
     exists upload processing body,
       Http.fetch1 env = Resolved upload /\ Http.ok upload = true
       /\ Http.fetch2 env = Resolved processing /\ Http.ok processing = true
       /\ Http.json processing = inr body
       /\ get_prop body "download_url" = inr (WatermarkApi.processedImageUrl r))
  /\ (forall upload,
        Http.fetch1 env = Resolved upload -> Http.ok upload = false ->
        WatermarkApi.removeLightPDF env imageUrl filename
        = Resolved (WatermarkApi.failure
                      (ErrorObj ("Upload failed: " +:+ Http.statusText upload))
                      "Unknown error")).
Proof.
  unfold WatermarkApi.removeLightPDF, WatermarkApi.catch_all, WatermarkApi.lightpdf_try.
  split.
  - intros r H Hs.
    destruct (Http.fetch1 env) as [upload|e]; simpl in H.
    2:{ injection H as <-. discriminate Hs. }
    destruct (Http.ok upload) eqn:Hok1; simpl in H.
    2:{ injection H as <-. discriminate Hs. }
    destruct (Http.json upload) as [e|uploadResult]; simpl in H.
    { injection H as <-. discriminate Hs. }
    destruct (get_prop uploadResult "file_id") as [e|fileId]; simpl in H.
    { injection H as <-. discriminate Hs. }
    destruct (Http.fetch2 env) as [processing|e]; simpl in H.
    2:{ injection H as <-. discriminate Hs. }
    destruct (Http.ok processing) eqn:Hok2; simpl in H.
    2:{ injection H as <-. discriminate Hs. }
    destruct (Http.json processing) as [e|body] eqn:Hj; simpl in H.
    { injection H as <-. discriminate Hs. }
    destruct (get_prop body "download_url") as [e|u] eqn:Hu; simpl in H.
    { injection H as <-. discriminate Hs. }
    destruct (get_prop body "job_id") as [e|j]; simpl in H.
    { injection H as <-. discriminate Hs. }
    injection H as <-. simpl.
    exists upload, processing, body. repeat split; assumption.
  - intros upload Hf Hok. rewrite Hf. simpl. rewrite Hok. reflexivity.
Qed.

(* ===================================================================== *)
(** ** Further properties of the image source resolver *)
(* ===================================================================== *)

Module ResolverFacts.
Import ProcessImages ResolverSpec.

Lemma upload_files_spec env form indices : forall acc ext,
  (forall i, i ∈ indices -> usable env form i) ->
  upload_files env form indices acc ext
  = (inr (acc ++ omap (fun i => uploaded_task env i <$> file form i) indices),
     ext ++ omap (fun i => (fun _ => PutBlob i) <$> file form i) indices).
Proof.
  induction indices as [|i rest IH]; intros acc ext Hus.
  - simpl. rewrite !app_nil_r. reflexivity.
  - assert (Hrest : forall j, j ∈ rest -> usable env form j).
    { intros j Hj. apply Hus. apply list_elem_of_further. assumption. }
    pose proof (Hus i (list_elem_of_here _ _)) as Hi. unfold usable in Hi.
    cbn [upload_files omap list_omap].
    destruct (file form i) as [f|] eqn:Hf; simpl.
    + unfold uploaded_task.
      destruct (put env i) as [blobUrl|e] eqn:Hp.
      * rewrite (IH _ _ Hrest). rewrite <- !app_assoc. reflexivity.
      * destruct (Hi f eq_refl) as [[b Hb]|[b Hb]]; [discriminate Hb|].
        rewrite Hb. rewrite (IH _ _ Hrest). rewrite <- !app_assoc. reflexivity.
    + apply IH. assumption.
Qed.

Lemma upload_files_flags env form indices :
  Forall (fun img => isUploaded img = true)
    (omap (fun i => uploaded_task env i <$> file form i) indices).
Proof.
  apply Forall_forall. intros img Hin.
  apply list_elem_of_omap in Hin as (i & _ & Hi).
  destruct (file form i); [|discriminate Hi]. injection Hi as <-. reflexivity.
Qed.


Lemma extract_step_no_gallery env form uploaded ext :
  no_gallery form -> extract_step env form uploaded ext = (inr uploaded, ext).
Proof.
  unfold no_gallery, extract_step. destruct (galleryUrl form) as [g|]; [|reflexivity].
  intros ->. reflexivity.
Qed.

End ResolverFacts.

(** X7. The upload loop turns every present [file_i], in index order, into
    exactly one task named after the file and flagged as uploaded: its URL is
    the blob URL when the storage write succeeds and the inline
    [data:<type>;base64,...] URL when it fails; absent indices are skipped.
    This holds whenever each file that could not be stored could at least be
    read. *)
Theorem upload_keeps_every_file (env : ProcessImages.Env) (form : ProcessImages.FormData) :
  (forall i, i ∈ ProcessImages.file_indices form -> ResolverSpec.usable env form i) ->
  exists imgs ext,
    ProcessImages.upload_files env form (ProcessImages.file_indices form) [] []
    = (inr imgs, ext)
    /\ imgs = omap (fun i => ResolverSpec.uploaded_task env i <$> ProcessImages.file form i)
                (ProcessImages.file_indices form)
    /\ ProcessImages.filename <$> imgs
       = omap (fun i => ProcessImages.name <$> ProcessImages.file form i)
           (ProcessImages.file_indices form)
    /\ Forall (fun img => ProcessImages.isUploaded img = true) imgs.
Proof.
  intros Hus.
  rewrite (ResolverFacts.upload_files_spec env form _ [] [] Hus). simpl.
  eexists. eexists. split; [reflexivity|]. split; [reflexivity|].
  split; [|apply ResolverFacts.upload_files_flags].
  rewrite list_fmap_omap. apply SchedulerFacts.omap_ext_in. intros i _.
  destruct (ProcessImages.file form i); reflexivity.
Qed.

(** X7, for two files of which the storage accepts both. *)
Lemma upload_keeps_every_file_witness :
  exists imgs ext,
    ProcessImages.upload_files ResolverSpec.storing ResolverSpec.two_files
      (ProcessImages.file_indices ResolverSpec.two_files) [] [] = (inr imgs, ext)
    /\ ProcessImages.filename <$> imgs = ["a.jpg"; "b.jpg"].
Proof.
  destruct (upload_keeps_every_file ResolverSpec.storing ResolverSpec.two_files)
    as (imgs & ext & H & _ & Hn & _).
  - intros i _ f _. left. eexists. reflexivity.
  - exists imgs, ext. split; [exact H|]. rewrite Hn. reflexivity.
Defined.



(** X9. The resolver never hands over an empty task list; a request that
    names no file and no gallery is given exactly the two fallback sample
    images, without any external call. *)
Theorem resolver_falls_back_to_samples
    (env : ProcessImages.Env) (form : ProcessImages.FormData) :
  (forall imgs ext, ProcessImages.resolve_images env form = (inr imgs, ext) -> imgs <> [])
  /\ (ProcessImages.file_indices form = [] ->
      ResolverSpec.no_gallery form ->
      ProcessImages.resolve_images env form = (inr ProcessImages.fallbackImages, [])).
Proof.
  split.
  - intros imgs ext H Hnil.
    pose proof (BatchFacts.resolve_images_nonempty env form imgs ext H) as Hlen.
    subst imgs. simpl in Hlen. lia.
  - intros Hf Hg. unfold ProcessImages.resolve_images. rewrite Hf. simpl.
    rewrite (ResolverFacts.extract_step_no_gallery env form [] [] Hg). reflexivity.
Qed.

(** X9, for the empty form. *)
Lemma resolver_falls_back_to_samples_witness :
  ProcessImages.resolve_images ResolverSpec.storing RouteSpec.empty_form
  = (inr ProcessImages.fallbackImages, []).
Proof.
  exact (proj2 (resolver_falls_back_to_samples ResolverSpec.storing RouteSpec.empty_form)
           eq_refl I).
Defined.

(* ===================================================================== *)
(** ** Further properties of the batch handler *)
(* ===================================================================== *)

Module FrameFacts.
Import ProcessImages ResolverSpec.

Section Frame.
Variable settings : WatermarkApi.ApiSettings.
Variable oracle : nat -> nat -> Http.CallEnv.
Variable sessionId : option string.

Lemma begin_task_other image s k :
  k <> sessionId -> begin_task sessionId image s !! k = s !! k.
Proof.
  intros Hk. unfold begin_task. destruct (s !! sessionId); [|reflexivity].
  apply lookup_insert_ne. congruence.
Qed.

Lemma finish_task_other result s k :
  k <> sessionId -> finish_task sessionId result s !! k = s !! k.
Proof.
  intros Hk. unfold finish_task. destruct (s !! sessionId); [|reflexivity].
  apply lookup_insert_ne. congruence.
Qed.

Lemma begin_task_results image s :
  snapshot_results sessionId (begin_task sessionId image s) = snapshot_results sessionId s.
Proof.
  unfold snapshot_results, begin_task. destruct (s !! sessionId) eqn:E.
  - rewrite lookup_insert_eq. reflexivity.
  - rewrite E. reflexivity.
Qed.

Lemma finish_task_results result s :
  is_Some (s !! sessionId) ->
  snapshot_results sessionId (finish_task sessionId result s)
  = snapshot_results sessionId s ++ [result]
  /\ is_Some (finish_task sessionId result s !! sessionId).
Proof.
  intros [p Hp]. unfold snapshot_results, finish_task. rewrite Hp.
  rewrite lookup_insert_eq. split; [reflexivity|eexists; reflexivity].
Qed.

Lemma begin_task_present image s :
  is_Some (s !! sessionId) -> is_Some (begin_task sessionId image s !! sessionId).
Proof.
  intros [p Hp]. unfold begin_task. rewrite Hp, lookup_insert_eq. eexists; reflexivity.
Qed.

(** What a fold of starts leaves of the store. *)
Lemma begin_fold batch : forall r,
  (forall k, k <> sessionId ->
     store (foldl (step_begin sessionId) r batch) !! k = store r !! k)
  /\ snapshot_results sessionId (store (foldl (step_begin sessionId) r batch))
     = snapshot_results sessionId (store r)
  /\ (is_Some (store r !! sessionId) ->
      is_Some (store (foldl (step_begin sessionId) r batch) !! sessionId)).
Proof.
  induction batch as [|t batch IH]; intros r; simpl; [auto|].
  destruct (IH (step_begin sessionId r t)) as (H1 & H2 & H3).
  split; [|split].
  - intros k Hk. rewrite (H1 k Hk). simpl. apply begin_task_other. assumption.
  - rewrite H2. simpl. apply begin_task_results.
  - intros Hs. apply H3. simpl. apply begin_task_present. assumption.
Qed.

(** The results the completions [order] add, in that order. *)
Lemma finish_fold done order : forall r,
  (forall k, k <> sessionId ->
     store (foldl (step_finish sessionId done) r order) !! k = store r !! k)
  /\ (is_Some (store r !! sessionId) ->
      snapshot_results sessionId (store (foldl (step_finish sessionId done) r order))
      = snapshot_results sessionId (store r)
        ++ omap (fun pos => snd <$> done !! pos) order
      /\ is_Some (store (foldl (step_finish sessionId done) r order) !! sessionId)).
Proof.
  induction order as [|pos order IH]; intros r; simpl.
  - split; [auto|]. intros Hs. rewrite app_nil_r. auto.
  - destruct (IH (step_finish sessionId done r pos)) as (H1 & H2).
    unfold step_finish in *. destruct (done !! pos) as [[task result]|] eqn:Hd; simpl in *.
    + split.
      * intros k Hk. rewrite (H1 k Hk). apply finish_task_other. assumption.
      * intros Hs. destruct (finish_task_results result (store r) Hs) as [Hr Hp].
        destruct (H2 Hp) as [H3 H4]. split; [|exact H4].
        rewrite H3, Hr, <- app_assoc. reflexivity.
    + split; [exact H1|]. intros Hs. destruct (H2 Hs) as [H3 H4]. auto.
Qed.

Lemma window_store order r batch :
  order ≡ₚ seq 0 (length batch) ->
  (forall k, k <> sessionId ->
     store (run_window settings oracle sessionId order r batch) !! k = store r !! k)
  /\ (is_Some (store r !! sessionId) ->
      snapshot_results sessionId (store (run_window settings oracle sessionId order r batch))
      ≡ₚ snapshot_results sessionId (store r)
         ++ map (RouteSpec.result_of settings oracle) batch
      /\ is_Some (store (run_window settings oracle sessionId order r batch) !! sessionId)).
Proof.
  intros Hp. unfold run_window. cbn [store].
  rewrite (SchedulerFacts.run_window_done settings oracle batch).
  destruct (begin_fold batch r) as (B1 & B2 & B3).
  destruct (finish_fold (RouteSpec.done_of settings oracle batch) order
              (foldl (step_begin sessionId) r batch)) as (F1 & F2).
  split.
  - intros k Hk. rewrite (F1 k Hk). apply B1. assumption.
  - intros Hs. destruct (F2 (B3 Hs)) as [F3 F4]. split; [|exact F4].
    rewrite F3, B2. apply Permutation_app_head.
    rewrite Hp.
    replace (length batch) with (length (RouteSpec.done_of settings oracle batch))
      by (unfold RouteSpec.done_of; apply length_map).
    rewrite (SchedulerFacts.omap_lookup_seq snd).
    unfold RouteSpec.done_of. change (fmap ?f ?l) with (map f l). rewrite map_map.
    reflexivity.
Qed.

Lemma windows_store sched ws : forall r,
  (forall j w, ws !! j = Some w -> sched (windows r + j) ≡ₚ seq 0 (length w)) ->
  (forall k, k <> sessionId ->
     store (run_windows settings oracle sessionId sched r ws) !! k = store r !! k)
  /\ (is_Some (store r !! sessionId) ->
      snapshot_results sessionId (store (run_windows settings oracle sessionId sched r ws))
      ≡ₚ snapshot_results sessionId (store r)
         ++ map (RouteSpec.result_of settings oracle) (concat ws)).
Proof.
  induction ws as [|batch ws IH]; intros r Hs; simpl.
  - split; [auto|]. intros _. rewrite app_nil_r. reflexivity.
  - assert (H0 : sched (windows r) ≡ₚ seq 0 (length batch)).
    { specialize (Hs 0 batch eq_refl). rewrite Nat.add_0_r in Hs. exact Hs. }
    destruct (window_store (sched (windows r)) r batch H0) as (W1 & W2).
    destruct (IH (run_window settings oracle sessionId (sched (windows r)) r batch))
      as (I1 & I2).
    { intros j w Hj.
      destruct (SchedulerFacts.run_window_fields settings oracle sessionId
                  (sched (windows r)) r batch) as (_ & _ & W).
      rewrite W. replace (S (windows r) + j) with (windows r + S j) by lia.
      apply Hs. exact Hj. }
    split.
    + intros k Hk. rewrite (I1 k Hk). apply W1. assumption.
    + intros Hpres. destruct (W2 Hpres) as [W3 W4].
      rewrite (I2 W4), W3, map_app, <- app_assoc. reflexivity.
Qed.

End Frame.

(** The store a batch leaves: untouched outside its session, and holding,
    for its session, the results of the reply in some order. *)
Lemma processBatch_store limit settings oracle sched sessionId imgs store0 r :
  1 <= limit ->
  RouteSpec.valid_schedule limit (length imgs) sched ->
  processBatch limit settings oracle sched sessionId imgs store0 = Some r ->
  (forall k, k <> sessionId -> store r !! k = store0 !! k)
  /\ snapshot_results sessionId (store r) ≡ₚ results r.
Proof.
  intros Hl Hs Hr.
  destruct (BatchFacts.processBatch_spec limit settings oracle sched sessionId imgs store0
              Hl Hs) as (r' & ws & Hr' & Hws & _ & Hcat & Hw & _ & HR & _).
  rewrite Hr in Hr'. injection Hr' as <-.
  unfold processBatch in Hr. rewrite Hws in Hr. simpl in Hr. injection Hr as Hr.
  destruct (windows_store settings oracle sessionId sched ws
              {| store := <[sessionId :=
                    {| ProcessingProgress.total := length imgs;
                       ProcessingProgress.completed := 0;
                       ProcessingProgress.current := EmptyString;
                       ProcessingProgress.status := ProcessingProgress.Processing;
                       ProcessingProgress.results := [] |}]> store0;
                 observed := [<[sessionId :=
                    {| ProcessingProgress.total := length imgs;
                       ProcessingProgress.completed := 0;
                       ProcessingProgress.current := EmptyString;
                       ProcessingProgress.status := ProcessingProgress.Processing;
                       ProcessingProgress.results := [] |}]> store0];
                 events := []; results := []; windows := 0; worlds := [] |})
    as (S1 & S2).
  { intros j w Hj. simpl. destruct (Hw j w Hj) as (Hw1 & Hw2 & _).
    assert (Hlt : j * limit < length imgs).
    { destruct (WindowFacts.batch_windows_spec limit (indexed imgs) Hl (length imgs) 0)
        as (ws' & Hws' & _ & _ & Hsl).
      { rewrite WindowFacts.indexed_length. lia. }
      rewrite Hws in Hws'. injection Hws' as <-.
      destruct (Hsl j w Hj) as [_ Hlt]. rewrite WindowFacts.indexed_length in Hlt.
      simpl in Hlt. exact Hlt. }
    rewrite (Hs j Hlt). rewrite <- (length_fmap fst w), Hw2, length_seq. reflexivity. }
  rewrite Hr in S1, S2. split.
  - intros k Hk. rewrite (S1 k Hk). simpl. apply lookup_insert_ne. congruence.
  - rewrite S2.
    + unfold snapshot_results at 1. simpl. rewrite lookup_insert_eq. simpl.
      rewrite HR, Hcat. reflexivity.
    + simpl. rewrite lookup_insert_eq. eexists; reflexivity.
Qed.

End FrameFacts.

Module FrameMore.
Import ProcessImages.

Lemma window_frame settings oracle sessionId order r batch k :
  k <> sessionId ->
  store (run_window settings oracle sessionId order r batch) !! k = store r !! k.
Proof.
  intros Hk. unfold run_window. cbn [store].
  destruct (FrameFacts.finish_fold sessionId
              (map (fun o : nat * (ProcessingResult.t * Retry.World) => (o.1, o.2.1))
                 (map (fun task : nat * Image =>
                         (task.1, processImageWithRetry settings (oracle task.1)
                                    (url task.2) (filename task.2))) batch))
              order (foldl (step_begin sessionId) r batch)) as (F1 & _).
  destruct (FrameFacts.begin_fold sessionId batch r) as (B1 & _).
  rewrite (F1 k Hk). apply B1. assumption.
Qed.

Lemma windows_frame settings oracle sessionId sched ws k : forall r,
  k <> sessionId ->
  store (run_windows settings oracle sessionId sched r ws) !! k = store r !! k.
Proof.
  induction ws as [|batch ws IH]; intros r Hk; simpl; [reflexivity|].
  rewrite (IH _ Hk). apply window_frame. assumption.
Qed.

Lemma processBatch_frame limit settings oracle sched sessionId imgs store0 r k :
  processBatch limit settings oracle sched sessionId imgs store0 = Some r ->
  k <> sessionId ->
  store r !! k = store0 !! k.
Proof.
  unfold processBatch. intros H Hk.
  destruct (batch_windows limit (indexed imgs) (length imgs) 0) as [ws|]; [|discriminate H].
  simpl in H. injection H as <-.
  rewrite (windows_frame settings oracle sessionId sched ws k _ Hk). simpl.
  apply lookup_insert_ne. congruence.
Qed.

Lemma processBatch_total limit settings oracle sched sessionId imgs store0 :
  1 <= limit ->
  exists r, processBatch limit settings oracle sched sessionId imgs store0 = Some r.
Proof.
  intros Hl. unfold processBatch.
  destruct (WindowFacts.batch_windows_spec limit (indexed imgs) Hl (length imgs) 0)
    as (ws & Hws & _).
  { rewrite WindowFacts.indexed_length. lia. }
  rewrite Hws. eexists. reflexivity.
Qed.

End FrameMore.

(** X10. Whatever the request, the environment and the completion order,
    [POST] answers with status 200 or 500 and leaves the snapshot of every
    other session as it was; when it answers 500, and in demo mode, the
    progress store is not changed at all. *)
Theorem post_touches_only_its_session
    (env : ProcessImages.Env) (request : Outcome ProcessImages.FormData)
    (store0 : gmap (option string) ProcessingProgress.t) :
  exists served,
    ProcessImages.POST env request store0 = Some served
    /\ (Reply.code (ProcessImages.reply served) = 200%Z
        \/ Reply.code (ProcessImages.reply served) = 500%Z)
    /\ (forall form k,
          request = Resolved form ->
          k <> ProcessImages.sessionId form ->
          ProcessImages.store_after served !! k = store0 !! k)
    /\ (Reply.code (ProcessImages.reply served) = 500%Z ->
        ProcessImages.store_after served = store0)
    /\ (RouteSpec.demo_active env -> ProcessImages.store_after served = store0).
Proof.
  unfold ProcessImages.POST.
  destruct request as [form|e].
  2:{ eexists. split; [reflexivity|]. simpl.
      split; [right; reflexivity|]. split; [intros form k H; discriminate H|]. auto. }
  destruct (ProcessImages.demoMode env
            || negb (truthy_str (ProcessImages.apiKey env))) eqn:Hdemo.
  { eexists. split; [reflexivity|]. simpl.
    split; [left; reflexivity|]. auto. }
  destruct (ProcessImages.resolve_images env form) as [[e|imgs] ext].
  { eexists. split; [reflexivity|]. simpl.
    split; [right; reflexivity|]. auto. }
  destruct (FrameMore.processBatch_total ProcessImages.concurrencyLimit
              (ProcessImages.apiSettings env) (ProcessImages.oracle env)
              (ProcessImages.sched env) (ProcessImages.sessionId form) imgs store0
              ltac:(unfold ProcessImages.concurrencyLimit; lia)) as [r Hr].
  rewrite Hr. eexists. split; [reflexivity|]. simpl.
  split; [left; reflexivity|]. split; [|split].
  - intros form' k Hf Hk. injection Hf as <-.
    eapply FrameMore.processBatch_frame; eassumption.
  - discriminate.
  - intros Hd. apply RouteFacts.demo_active_branch in Hd. congruence.
Qed.

Module PollFacts.
Import ProcessImages.

(** A live batch: what [POST] serves, in terms of the run of the batch,
    and the final snapshot of its session. *)
Lemma live_batch_served env form store0 imgs ext :
  RouteSpec.live env ->
  resolve_images env form = (inr imgs, ext) ->
  RouteSpec.valid_schedule concurrencyLimit (length imgs) (sched env) ->
  exists served r,
    POST env (Resolved form) store0 = Some served
    /\ processBatch concurrencyLimit (apiSettings env) (oracle env) (sched env)
         (sessionId form) imgs store0 = Some r
    /\ served
       = {| reply := Reply.json (Reply.Results (results r) (sessionId form) false);
            store_after := store r;
            observable := observed r;
            scheduling := events r;
            windows_awaited := windows r;
            external := ext ++ provider_calls (worlds r) |}
    /\ exists p,
         store r !! sessionId form = Some p
         /\ ProcessingProgress.completed p = length imgs
         /\ ProcessingProgress.total p = length imgs
         /\ ProcessingProgress.status p = ProcessingProgress.Completed
         /\ ProcessingProgress.current p = EmptyString.
Proof.
  intros Hlive Hres Hs.
  pose proof (BatchFacts.resolve_images_nonempty env form imgs ext Hres) as HN.
  destruct (BatchFacts.processBatch_spec concurrencyLimit (apiSettings env) (oracle env)
              (sched env) (sessionId form) imgs store0
              ltac:(unfold concurrencyLimit; lia) Hs)
    as (r & ws & Hr & _ & _ & _ & _ & _ & _ & _ & Hrun).
  specialize (Hrun HN).
  rewrite (BatchFacts.POST_live env form store0 imgs ext Hlive Hres), Hr. simpl.
  eexists. exists r. split; [reflexivity|]. split; [reflexivity|]. split; [reflexivity|].
  destruct Hrun as [Hlast Hcount Hall _ _].
  rewrite Forall_forall in Hall.
  destruct (Hall (store r)) as (p & Hp & Ht & Hl & Hle & Hd).
  { rewrite last_lookup in Hlast. eapply list_elem_of_lookup_2. exact Hlast. }
  unfold RouteSpec.count in Hcount. rewrite Hp in Hcount.
  exists p. destruct (Hd Hcount) as [Hst Hcur]. auto.
Qed.

End PollFacts.

(** X11. Polling after a live batch has been answered: for a non-empty
    session id, [GET] returns status 200 with the session's snapshot, whose
    status is completed, whose [completed] and [total] equal the number of
    tasks, whose [current] is empty, and whose results are those of the
    [POST] reply up to order (the snapshot lists them in completion order,
    the reply in input order). *)
Theorem poll_after_batch_is_completed
    (env : ProcessImages.Env) (form : ProcessImages.FormData)
    (store0 : gmap (option string) ProcessingProgress.t)
    (imgs : list ProcessImages.Image) (ext : list ProcessImages.External) (s : string) :
  RouteSpec.live env ->
  ProcessImages.resolve_images env form = (inr imgs, ext) ->
  RouteSpec.valid_schedule ProcessImages.concurrencyLimit (length imgs)
    (ProcessImages.sched env) ->
  ProcessImages.sessionId form = Some s ->
  s <> EmptyString ->
  exists served results p,
    ProcessImages.POST env (Resolved form) store0 = Some served
    /\ ProcessImages.reply served
       = {| Reply.code := 200; Reply.body := Reply.Results results (Some s) false |}
    /\ ProcessImages.GET (Some s) (ProcessImages.store_after served)
       = {| Reply.code := 200; Reply.body := Reply.Progress p |}
    /\ ProcessingProgress.status p = ProcessingProgress.Completed
    /\ ProcessingProgress.completed p = length imgs
    /\ ProcessingProgress.total p = length imgs
    /\ ProcessingProgress.current p = EmptyString
    /\ ProcessingProgress.results p ≡ₚ results.
Proof.
  intros Hlive Hres Hs Hsid Hne.
  destruct (PollFacts.live_batch_served env form store0 imgs ext Hlive Hres Hs)
    as (served & r & HP & Hr & Hserved & p & Hp & Hc & Ht & Hst & Hcur).
  destruct (FrameFacts.processBatch_store ProcessImages.concurrencyLimit
              (ProcessImages.apiSettings env) (ProcessImages.oracle env)
              (ProcessImages.sched env) (ProcessImages.sessionId form) imgs store0 r
              ltac:(unfold ProcessImages.concurrencyLimit; lia) Hs Hr) as [_ Hperm].
  subst served. simpl in *.
  exists {| ProcessImages.reply :=
              Reply.json (Reply.Results (ProcessImages.results r)
                            (ProcessImages.sessionId form) false);
            ProcessImages.store_after := ProcessImages.store r;
            ProcessImages.observable := ProcessImages.observed r;
            ProcessImages.scheduling := ProcessImages.events r;
            ProcessImages.windows_awaited := ProcessImages.windows r;
            ProcessImages.external :=
              ext ++ ProcessImages.provider_calls (ProcessImages.worlds r) |},
    (ProcessImages.results r), p.
  split; [exact HP|]. simpl. rewrite Hsid in *.
  split; [reflexivity|].
  split.
  { unfold ProcessImages.GET. destruct s; [congruence|]. simpl. rewrite Hp. reflexivity. }
  repeat (split; [assumption|]).
  unfold ResolverSpec.snapshot_results in Hperm. rewrite Hp in Hperm. exact Hperm.
Qed.

(** X11, for the two fallback images of session [s1]. *)
Lemma poll_after_batch_is_completed_witness :
  exists p,
    (exists served,
       ProcessImages.POST RouteSpec.offline (Resolved RouteSpec.empty_form) ∅ = Some served
       /\ ProcessImages.GET (Some "s1") (ProcessImages.store_after served)
          = {| Reply.code := 200; Reply.body := Reply.Progress p |})
    /\ ProcessingProgress.completed p = 2.
Proof.
  destruct (poll_after_batch_is_completed RouteSpec.offline RouteSpec.empty_form ∅
              ProcessImages.fallbackImages [] "s1" Samples.offline_live
              Samples.offline_resolves Samples.swapped_valid_2 eq_refl
              ltac:(discriminate))
    as (served & results & p & HP & _ & HG & _ & Hc & _).
  exists p. split; [exists served; split; assumption|exact Hc].
Defined.

Module OrderFacts.
Import ProcessImages.

Lemma upload_files_with_sched sched' env form indices acc ext :
  upload_files (ResolverSpec.with_sched sched' env) form indices acc ext
  = upload_files env form indices acc ext.
Proof.
  revert acc ext. induction indices as [|i rest IH]; intros acc ext; simpl; [reflexivity|].
  destruct (file form i) as [f|]; [|apply IH].
  destruct (put env i) as [blobUrl|e]; [apply IH|].
  destruct (base64 f); [apply IH|reflexivity].
Qed.

Lemma resolve_images_with_sched sched' env form :
  resolve_images (ResolverSpec.with_sched sched' env) form = resolve_images env form.
Proof.
  unfold resolve_images. rewrite upload_files_with_sched. reflexivity.
Qed.

Lemma live_with_sched sched' env :
  RouteSpec.live env -> RouteSpec.live (ResolverSpec.with_sched sched' env).
Proof. intros H. exact H. Qed.

End OrderFacts.

(** X12. The completion order of the tasks inside the windows is not
    visible in the answer: two runs of the same live request that differ
    only in a (valid) completion order give the same reply and await the
    same number of windows, and the snapshots they leave for the session
    hold the same results up to order. *)
Theorem reply_ignores_completion_order
    (env : ProcessImages.Env) (sched' : nat -> list nat) (form : ProcessImages.FormData)
    (store0 : gmap (option string) ProcessingProgress.t)
    (imgs : list ProcessImages.Image) (ext : list ProcessImages.External) :
  RouteSpec.live env ->
  ProcessImages.resolve_images env form = (inr imgs, ext) ->
  RouteSpec.valid_schedule ProcessImages.concurrencyLimit (length imgs)
    (ProcessImages.sched env) ->
  RouteSpec.valid_schedule ProcessImages.concurrencyLimit (length imgs) sched' ->
  exists served served',
    ProcessImages.POST env (Resolved form) store0 = Some served
    /\ ProcessImages.POST (ResolverSpec.with_sched sched' env) (Resolved form) store0
       = Some served'
    /\ ProcessImages.reply served' = ProcessImages.reply served
    /\ ProcessImages.windows_awaited served' = ProcessImages.windows_awaited served
    /\ ResolverSpec.snapshot_results (ProcessImages.sessionId form)
         (ProcessImages.store_after served')
       ≡ₚ ResolverSpec.snapshot_results (ProcessImages.sessionId form)
            (ProcessImages.store_after served).
Proof.
  intros Hlive Hres Hs Hs'.
  assert (Hl : 1 <= ProcessImages.concurrencyLimit)
    by (unfold ProcessImages.concurrencyLimit; lia).
  destruct (BatchFacts.processBatch_spec ProcessImages.concurrencyLimit
              (ProcessImages.apiSettings env) (ProcessImages.oracle env)
              (ProcessImages.sched env) (ProcessImages.sessionId form) imgs store0 Hl Hs)
    as (r & ws & Hr & Hws & _ & _ & _ & HW & HR & _).
  destruct (BatchFacts.processBatch_spec ProcessImages.concurrencyLimit
              (ProcessImages.apiSettings env) (ProcessImages.oracle env)
              sched' (ProcessImages.sessionId form) imgs store0 Hl Hs')
    as (r' & ws' & Hr' & Hws' & _ & _ & _ & HW' & HR' & _).
  rewrite Hws in Hws'. injection Hws' as <-.
  destruct (FrameFacts.processBatch_store _ _ _ _ _ _ _ _ Hl Hs Hr) as [_ Hp].
  destruct (FrameFacts.processBatch_store _ _ _ _ _ _ _ _ Hl Hs' Hr') as [_ Hp'].
  rewrite (BatchFacts.POST_live env form store0 imgs ext Hlive Hres), Hr.
  rewrite (BatchFacts.POST_live (ResolverSpec.with_sched sched' env) form store0 imgs ext
             (OrderFacts.live_with_sched sched' env Hlive)
             ltac:(rewrite OrderFacts.resolve_images_with_sched; exact Hres)).
  change (ProcessImages.apiSettings (ResolverSpec.with_sched sched' env))
    with (ProcessImages.apiSettings env).
  change (ProcessImages.oracle (ResolverSpec.with_sched sched' env))
    with (ProcessImages.oracle env).
  change (ProcessImages.sched (ResolverSpec.with_sched sched' env)) with sched'.
  rewrite Hr'. simpl.
  eexists. eexists. split; [reflexivity|]. split; [reflexivity|]. simpl.
  split; [rewrite HR, HR'; reflexivity|].
  split; [rewrite HW, HW'; reflexivity|].
  rewrite Hp, Hp', HR, HR'. reflexivity.
Qed.

(** X12, for the two fallback images, finishing in order instead of
    swapped. *)
Lemma reply_ignores_completion_order_witness :
  exists served served',
    ProcessImages.POST RouteSpec.offline (Resolved RouteSpec.empty_form) ∅ = Some served
    /\ ProcessImages.POST (ResolverSpec.with_sched (fun _ => [0; 1]) RouteSpec.offline)
         (Resolved RouteSpec.empty_form) ∅ = Some served'
    /\ ProcessImages.reply served' = ProcessImages.reply served.
Proof.
  destruct (reply_ignores_completion_order RouteSpec.offline (fun _ => [0; 1])
              RouteSpec.empty_form ∅ ProcessImages.fallbackImages []
              Samples.offline_live Samples.offline_resolves Samples.swapped_valid_2)
    as (served & served' & H & H' & HR & _).
  { intros [|k] Hk; simpl in *; [reflexivity|lia]. }
  exists served, served'. auto.
Defined.



Module UrlFacts.
Import JS.

Lemma prefix_char c s t :
  String.prefix (String c s) (String c t) = String.prefix s t.
Proof. simpl. destruct (ascii_dec c c); [reflexivity|congruence]. Qed.

Lemma prefix_refl s : String.prefix s s = true.
Proof. induction s as [|c s IH]; [reflexivity|]. rewrite prefix_char. exact IH. Qed.

Lemma before_char_prefix sep s : String.prefix (before_char sep s) s = true.
Proof.
  induction s as [|c s IH]; [reflexivity|]. simpl before_char.
  destruct (Ascii.eqb c sep); [reflexivity|]. rewrite prefix_char. exact IH.
Qed.

Lemma prefix_one sep c s :
  String.prefix (String sep EmptyString) (String c s) = Ascii.eqb c sep.
Proof.
  simpl. destruct (ascii_dec sep c) as [->|Hne].
  - rewrite Ascii.eqb_refl. destruct s; reflexivity.
  - symmetry. apply Ascii.eqb_neq. congruence.
Qed.

Lemma before_char_excludes sep s :
  includes (before_char sep s) (String sep EmptyString) = false.
Proof.
  induction s as [|c s IH]; [reflexivity|]. simpl before_char.
  destruct (Ascii.eqb c sep) eqn:E; [reflexivity|].
  cbn [includes]. rewrite prefix_one, E, IH. reflexivity.
Qed.

Lemma before_char_absent sep s :
  includes s (String sep EmptyString) = false -> before_char sep s = s.
Proof.
  induction s as [|c s IH]; [reflexivity|]. cbn [includes]. rewrite prefix_one.
  intros H. apply orb_false_iff in H as [H1 H2]. simpl. rewrite H1, (IH H2). reflexivity.
Qed.

End UrlFacts.

(** A gallery field that is blank for [trim], here a single no-break
    space, is skipped: no extraction request, the fallback images. *)
Example no_break_space_field_is_skipped :
  ProcessImages.resolve_images ResolverSpec.storing ResolverSpec.no_break_space_only
  = (inr ProcessImages.fallbackImages, []).
Proof. reflexivity. Qed.

(** X14. The gallery URL sent to the extraction route is always a prefix
    of the trimmed form field.  When the field is recognised as the URL of
    a single image ([?pid=] or [&id=] occurs in it) what is sent contains no
    question mark; and a field without a question mark is sent as it is,
    trimmed, even when [&id=] occurs in it. *)
Theorem gallery_url_is_cut_at_query (g : string) :
  String.prefix (ProcessImages.processedGalleryUrl g) (trim g) = true
  /\ (includes (trim g) "?pid=" || includes (trim g) "&id=" = true ->
      includes (ProcessImages.processedGalleryUrl g) "?" = false)
  /\ (includes (trim g) "?" = false -> ProcessImages.processedGalleryUrl g = trim g).
Proof.
  unfold ProcessImages.processedGalleryUrl.
  destruct (includes (trim g) "?pid=" || includes (trim g) "&id=").
  - split; [apply UrlFacts.before_char_prefix|].
    split; [intros _; apply UrlFacts.before_char_excludes|].
    apply UrlFacts.before_char_absent.
  - split; [apply UrlFacts.prefix_refl|]. split; [discriminate|reflexivity].
Qed.

Module ValidateFacts.
Import Http ValidateApi.

Lemma ok_range (r : Response) : ok r = true <-> (200 <= status r <= 299)%Z.
Proof. unfold ok. rewrite andb_true_iff, !Z.leb_le. reflexivity. Qed.

Lemma verdict_code b : code (verdict b) = (if b then 200 else 401)%Z.
Proof. destruct b; reflexivity. Qed.

Lemma verdict_body b : body (verdict b) = Valid <-> b = true.
Proof. destruct b; simpl; split; congruence. Qed.

Lemma validateFalAI_spec fetch key :
  validateFalAI fetch key = true
  <-> exists response,
        fetch "https://fal.run/fal-ai/flux-pro/kontext" = Resolved response
        /\ (status response = 400%Z \/ ok response = true).
Proof.
  unfold validateFalAI.
  destruct (fetch _) as [r|e].
  - destruct (Z.eqb_spec (status r) 401) as [H|H].
    + split; [discriminate|]. intros (r' & Hr & [H'|H']); injection Hr as <-; [lia|].
      apply ok_range in H'. lia.
    + destruct (Z.eqb_spec (status r) 400) as [H'|H'].
      * split; [|reflexivity]. intros _. exists r. auto.
      * split.
        -- intros Hok. exists r. auto.
        -- intros (r' & Hr & [H''|H'']); injection Hr as <-; [lia|assumption].
  - split; [discriminate|]. intros (r' & Hr & _). discriminate.
Qed.

Lemma validateByStatus_rejected (fetched : Outcome Response) :
  validateByStatus fetched = true -> exists response, fetched = Resolved response.
Proof. destruct fetched as [r|e]; [eauto|discriminate]. Qed.

(** The handler, as a case analysis on what it answers. *)
Lemma validation_cases fetch request :
  (POST fetch request = {| code := 500; body := ErrorBody "Validation failed" |}
   /\ forall s, request <> Resolved (Some s))
  \/ exists s,
       request = Resolved (Some s)
       /\ ((exists msg, POST fetch request = {| code := 400; body := ErrorBody msg |})
           \/ exists b,
                POST fetch request = verdict b
                /\ truthy_str (apiKey s) = true
                /\ (b = true -> exists u response, fetch u = Resolved response)).
Proof.
  destruct request as [[s|]|e]; [|left; split; [reflexivity|congruence]..].
  right. exists s. split; [reflexivity|]. simpl.
  destruct (apiKey s) as [key|]; [|left; eexists; reflexivity].
  destruct key as [|c key]; [left; eexists; reflexivity|]. simpl negb. cbv iota.
  assert (Hs : forall u, validateByStatus (fetch u) = true ->
                 exists u response, fetch u = Resolved response).
  { intros u H. apply validateByStatus_rejected in H as [r Hr]. eauto. }
  destruct (provider s) as [p|]; [|left; eexists; reflexivity].
  destruct (String.eqb p "lightpdf");
    [right; eexists; split; [reflexivity|split; [reflexivity|apply Hs]]|].
  destruct (String.eqb p "watermarkremover");
    [right; eexists; split; [reflexivity|split; [reflexivity|apply Hs]]|].
  destruct (String.eqb p "rapidapi");
    [right; eexists; split; [reflexivity|split; [reflexivity|apply Hs]]|].
  destruct (String.eqb p "fal").
  { right; eexists; split; [reflexivity|split; [reflexivity|]].
    intros H. apply validateFalAI_spec in H as (r & Hr & _). eauto. }
  destruct (String.eqb p "custom"); [|left; eexists; reflexivity].
  destruct (negb (truthy_str (endpoint s))); [left; eexists; reflexivity|].
  right; eexists; split; [reflexivity|split; [reflexivity|apply Hs]].
Qed.

End ValidateFacts.

(** X15. The key validation route answers 200 exactly when its body is
    [valid: true], and otherwise 400, 401 or 500 with an error message.
    It answers 500 exactly when the request body cannot be read as an
    object; a key is only declared valid after some provider endpoint
    answered; and when the network is down a readable request is answered
    400 or 401, never 500 and never 200. *)
Theorem validation_reply_codes
    (fetch : string -> Outcome Http.Response)
    (request : Outcome (option ValidateApi.Settings)) :
  (ValidateApi.code (ValidateApi.POST fetch request) = 200%Z
   <-> ValidateApi.body (ValidateApi.POST fetch request) = ValidateApi.Valid)
  /\ (ValidateApi.code (ValidateApi.POST fetch request) = 200%Z
      \/ exists msg,
           ValidateApi.body (ValidateApi.POST fetch request) = ValidateApi.ErrorBody msg
           /\ (ValidateApi.code (ValidateApi.POST fetch request) = 400%Z
               \/ ValidateApi.code (ValidateApi.POST fetch request) = 401%Z
               \/ ValidateApi.code (ValidateApi.POST fetch request) = 500%Z))
  /\ (ValidateApi.code (ValidateApi.POST fetch request) = 500%Z
      <-> forall s, request <> Resolved (Some s))
  /\ (ValidateApi.code (ValidateApi.POST fetch request) = 200%Z ->
      exists s u response,
        request = Resolved (Some s)
        /\ truthy_str (ValidateApi.apiKey s) = true
        /\ fetch u = Resolved response)
  /\ ((forall u, exists e, fetch u = Rejected e) ->
      forall s, request = Resolved (Some s) ->
        ValidateApi.code (ValidateApi.POST fetch request) = 400%Z
        \/ ValidateApi.code (ValidateApi.POST fetch request) = 401%Z).
Proof.
  destruct (ValidateFacts.validation_cases fetch request)
    as [[-> Hn]|(s & Hs & [[msg ->]|(b & -> & Hk & Hb)])]; simpl.
  - split; [split; discriminate|]. split; [right; eauto 6|].
    split; [tauto|]. split; [discriminate|]. intros _ s Hs. destruct (Hn s Hs).
  - split; [split; discriminate|]. split; [right; eauto 6|].
    split; [split; [discriminate|intros H; destruct (H s Hs)]|].
    split; [discriminate|]. auto.
  - rewrite ValidateFacts.verdict_code, ValidateFacts.verdict_body.
    destruct b; simpl.
    + split; [tauto|]. split; [left; reflexivity|].
      split; [split; [discriminate|intros H; destruct (H s Hs)]|].
      split.
      * intros _. destruct (Hb eq_refl) as (u & r & Hr). eauto 7.
      * intros Hdown. destruct (Hb eq_refl) as (u & r & Hr).
        destruct (Hdown u) as [e He]. congruence.
    + split; [split; discriminate|]. split; [right; eauto 6|].
      split; [split; [discriminate|intros H; destruct (H s Hs)]|].
      split; [discriminate|]. auto.
Qed.

(** X16. The fal.ai validator accepts a key exactly when the provider
    answered the probe with status 400 or with a 2xx status: a rejected
    probe (400) counts as proof of a valid key.  The validators of the other
    providers accept on a 2xx status only, so they refuse a 400. *)
Theorem fal_validator_accepts_bad_request
    (fetch : string -> Outcome Http.Response) (key : string) :
  (ValidateApi.validateFalAI fetch key = true
   <-> exists response,
         fetch "https://fal.run/fal-ai/flux-pro/kontext" = Resolved response
         /\ (Http.status response = 400%Z \/ Http.ok response = true))
  /\ (forall response,
        Http.status response = 400%Z ->
        ValidateApi.validateFalAI (fun _ => Resolved response) key = true
        /\ ValidateApi.validateByStatus (Resolved response) = false).
Proof.
  split; [apply ValidateFacts.validateFalAI_spec|].
  intros response H. split.
  - apply ValidateFacts.validateFalAI_spec. exists response. auto.
  - apply not_true_is_false. unfold ValidateApi.validateByStatus.
    rewrite ValidateFacts.ok_range. lia.
Qed.

Module TestFalFacts.
Import Http TestFal.

Lemma failed_success e d : success (failed e d) = Some false.
Proof. reflexivity. Qed.

Lemma hasImages_defined result :
  result <> VUndef -> result <> VNull -> exists has, hasImages result = inr has.
Proof.
  intros H1 H2. unfold hasImages.
  destruct result as [| |b|z|s|l|fs]; try congruence; simpl.
  1-4: eexists; reflexivity.
  destruct (assoc "images" fs) as [| |b|z|s|l|fs']; simpl; try (eexists; reflexivity).
  - destruct b; simpl; eexists; reflexivity.
  - destruct (negb (z =? 0)%Z); simpl; eexists; reflexivity.
  - destruct (nonempty s); simpl; eexists; reflexivity.
Qed.

Lemma get_prop_defined result key :
  result <> VUndef -> result <> VNull -> exists v, get_prop result key = inr v.
Proof.
  intros H1 H2. destruct result; try congruence; simpl; eexists; reflexivity.
Qed.

Lemma get_prop_thrown result key e :
  get_prop result key = inl e -> result = VUndef \/ result = VNull.
Proof. destruct result; simpl; auto; discriminate. Qed.

(** The test succeeds exactly on a readable 2xx answer whose text parses
    to a value with properties. *)
Lemma test_body_success env :
  (exists b, test_body env = inr b /\ success b = Some true)
  <-> exists response responseText result,
        fetch env = Resolved response
        /\ text response = Resolved responseText
        /\ ok response = true
        /\ json response = inr result
        /\ result <> VUndef /\ result <> VNull.
Proof.
  unfold test_body. split.
  - intros (b & Hb & Hs).
    destruct (fetch env) as [r|e]; [|discriminate]. simpl in Hb.
    destruct (text r) as [t|e] eqn:Ht; [|discriminate]. simpl in Hb. unfold ret in Hb.
    destruct (status r =? 401)%Z; [injection Hb as <-; simpl in Hs; discriminate|].
    destruct (status r =? 403)%Z; [injection Hb as <-; simpl in Hs; discriminate|].
    destruct (ok r) eqn:Hok; simpl in Hb.
    + destruct (json r) as [e|result] eqn:Hj;
        [injection Hb as <-; simpl in Hs; discriminate|].
      exists r, t, result. repeat (split; [first [reflexivity|assumption]|]).
      destruct (hasImages result) as [e|has] eqn:Hh; [simpl in Hb; discriminate|].
      unfold hasImages in Hh.
      destruct result; cbv [get_prop bind throw] in Hh; try discriminate Hh;
        split; discriminate.
    + destruct (json r); injection Hb as <-; simpl in Hs; discriminate.
  - intros (r & t & result & -> & Ht & Hok & Hj & H1 & H2). simpl. rewrite Ht. simpl.
    pose proof (proj1 (ValidateFacts.ok_range r) Hok) as Hr.
    destruct (Z.eqb_spec (status r) 401); [lia|].
    destruct (Z.eqb_spec (status r) 403); [lia|].
    rewrite Hok, Hj. simpl.
    destruct (hasImages_defined result H1 H2) as [has ->].
    destruct (get_prop_defined result "request_id" H1 H2) as [v ->].
    simpl. eexists. split; reflexivity.
Qed.

Lemma POST_configured env :
  truthy_str (or_str (FAL_KEY env) (FAL_API_KEY env)) = true ->
  code (POST env) = 200%Z
  /\ (success (body (POST env)) = Some true
      <-> exists b, test_body env = inr b /\ success b = Some true).
Proof.
  intros H. unfold POST. rewrite H. simpl.
  destruct (test_body env) as [e|b]; simpl.
  - split; [reflexivity|]. split; [discriminate|]. intros (b & Hb & _). discriminate.
  - split; [reflexivity|]. split.
    + intros Hs. exists b. auto.
    + intros (b' & Hb & Hs). injection Hb as <-. exact Hs.
Qed.

Lemma POST_success env :
  success (body (POST env)) = Some true
  -> truthy_str (or_str (FAL_KEY env) (FAL_API_KEY env)) = true
     /\ exists response responseText result,
          fetch env = Resolved response
          /\ text response = Resolved responseText
          /\ ok response = true
          /\ json response = inr result
          /\ result <> VUndef /\ result <> VNull.
Proof.
  intros H.
  destruct (truthy_str (or_str (FAL_KEY env) (FAL_API_KEY env))) eqn:Hk.
  - split; [reflexivity|]. apply test_body_success.
    apply (POST_configured env Hk). exact H.
  - unfold POST in H. rewrite Hk in H. discriminate H.
Qed.

End TestFalFacts.

(** X17. The route that tests the configured key answers 400 exactly when
    neither key variable is set to a non-empty value, and 200 in every
    other case, whether the test passed, failed, or the provider could not
    be reached.  It reports success exactly when a key is configured and
    the provider gave a readable 2xx answer whose text parses to a JSON
    value other than [null]. *)
Theorem configured_key_test_reply (env : TestFal.Env) :
  (TestFal.code (TestFal.POST env) = 400%Z \/ TestFal.code (TestFal.POST env) = 200%Z)
  /\ (TestFal.code (TestFal.POST env) = 400%Z
      <-> truthy_str (TestFal.FAL_KEY env) = false
          /\ truthy_str (TestFal.FAL_API_KEY env) = false)
  /\ (TestFal.success (TestFal.body (TestFal.POST env)) = Some true
      <-> truthy_str (or_str (TestFal.FAL_KEY env) (TestFal.FAL_API_KEY env)) = true
          /\ exists response responseText result,
               TestFal.fetch env = Resolved response
               /\ Http.text response = Resolved responseText
               /\ Http.ok response = true
               /\ Http.json response = inr result
               /\ result <> VUndef /\ result <> VNull).
Proof.
  rewrite <- TestFalFacts.test_body_success.
  destruct (truthy_str (or_str (TestFal.FAL_KEY env) (TestFal.FAL_API_KEY env))) eqn:Hk.
  - destruct (TestFalFacts.POST_configured env Hk) as [Hc Hs]. rewrite Hc, Hs.
    split; [right; reflexivity|].
    split; [|tauto].
    split; [discriminate|]. intros [H1 H2]. unfold or_str in Hk.
    rewrite H1 in Hk. congruence.
  - unfold TestFal.POST. rewrite Hk. simpl.
    split; [left; reflexivity|].
    split.
    + split; [|reflexivity]. intros _. unfold or_str in Hk.
      destruct (truthy_str (TestFal.FAL_KEY env)) eqn:E; [congruence|auto].
    + split; [discriminate|]. intros [H _]. discriminate.
Qed.

Module TestApiFacts.
Import Http TestApi.

Lemma testFalAI_spec fetched :
  success (testFalAI fetched) = true
  <-> exists response result,
        fetched = Resolved response
        /\ json response = inr result
        /\ ((status response = 400%Z
             /\ exists detail, get_prop result "detail" = inr detail /\ truthy detail = true)
            \/ ok response = true).
Proof.
  unfold testFalAI. destruct fetched as [r|e]; simpl.
  2:{ split; [discriminate|]. intros (r & ? & H & _). discriminate. }
  destruct (json r) as [e|result] eqn:Hj; simpl.
  { split; [discriminate|]. intros (r' & result & H & Hj' & _).
    injection H as <-. congruence. }
  destruct (Z.eqb_spec (status r) 401) as [H1|H1]; simpl.
  { split; [discriminate|]. intros (r' & result' & H & _ & [[H4 _]|Hok]); injection H as <-.
    - lia.
    - apply ValidateFacts.ok_range in Hok. lia. }
  destruct (Z.eqb_spec (status r) 400) as [H4|H4]; simpl.
  - destruct (get_prop result "detail") as [e|detail] eqn:Hd; simpl.
    + split; [discriminate|].
      intros (r' & result' & H & Hj' & [(_ & d & Hd' & _)|Hok]); injection H as <-.
      * rewrite Hj in Hj'. injection Hj' as <-. congruence.
      * apply ValidateFacts.ok_range in Hok. lia.
    + destruct (truthy detail) eqn:Ht; simpl.
      * split; [|reflexivity]. intros _. exists r, result. eauto 8.
      * assert (Hok : ok r = false).
        { apply not_true_is_false. rewrite ValidateFacts.ok_range. lia. }
        rewrite Hok. simpl. split; [discriminate|].
        intros (r' & result' & H & Hj' & [(_ & d & Hd' & Ht')|Hok']); injection H as <-.
        -- rewrite Hj in Hj'. injection Hj' as <-. congruence.
        -- congruence.
  - destruct (ok r) eqn:Hok; simpl.
    + split; [|reflexivity]. intros _. exists r, result. auto.
    + split; [discriminate|].
      intros (r' & result' & H & _ & [[H4' _]|Hok']); injection H as <-; congruence.
Qed.

Section Engine.
Variable converted_lt_10 : value -> Exc bool.

Lemma too_short_string key :
  too_short_key converted_lt_10 (VStr key) = inr (String.length key <? 10)%nat.
Proof.
  unfold too_short_key. destruct key as [|c key]; [reflexivity|]. simpl.
  unfold ret. f_equal. destruct (Nat.ltb_spec (S (String.length key)) 10);
    [apply Z.ltb_lt|apply Z.ltb_ge]; lia.
Qed.

Lemma too_short_falsy k : truthy k = false -> too_short_key converted_lt_10 k = inr true.
Proof. intros H. unfold too_short_key. rewrite H. reflexivity. Qed.

Lemma field_unique request name v1 v2 :
  TestApiSpec.field request name v1 -> TestApiSpec.field request name v2 -> v1 = v2.
Proof. intros (b1 & H1 & G1) (b2 & H2 & G2). congruence. Qed.

Lemma unreadable_no_field request name v :
  TestApiSpec.unreadable request -> TestApiSpec.field request name v -> False.
Proof.
  intros Hu (parsed & -> & Hg). destruct Hu as [->| ->]; discriminate Hg.
Qed.

(** The handler, as a case analysis on what it answers. *)
Lemma key_test_cases fetch request :
  (TestApiSpec.unreadable request /\ POST converted_lt_10 fetch request = server_error)
  \/ exists p k,
       TestApiSpec.field request "provider" p
       /\ TestApiSpec.field request "apiKey" k
       /\ ((too_short_key converted_lt_10 k = inr true
            /\ POST converted_lt_10 fetch request = too_short)
           \/ ((forall s, k <> VStr s)
               /\ (too_short_key converted_lt_10 k = inr false
                   \/ exists e, too_short_key converted_lt_10 k = inl e)
               /\ POST converted_lt_10 fetch request = server_error)
           \/ (too_short_key converted_lt_10 k = inr false
               /\ (exists key, k = VStr key)
               /\ POST converted_lt_10 fetch request
                  = if strict_eq_str p "fal"
                    then {| code := 200;
                            body := testFalAI
                                      (fetch "https://fal.run/fal-ai/flux-pro/kontext") |}
                    else if strict_eq_str p "lightpdf"
                    then {| code := 200;
                            body := testLightPDF
                                      (fetch "https://api.lightpdf.com/api/v1/account/info") |}
                    else unsupported)).
Proof.
  unfold POST, handler.
  destruct request as [parsed|e]; [|left; split; [exact I|reflexivity]]. simpl.
  destruct (get_prop parsed "provider") as [e|p] eqn:Hp.
  { left. split; [|reflexivity].
    apply TestFalFacts.get_prop_thrown in Hp. exact Hp. }
  destruct (get_prop parsed "apiKey") as [e|k] eqn:Hk.
  { apply TestFalFacts.get_prop_thrown in Hk. destruct Hk as [->| ->]; discriminate Hp. }
  simpl. right. exists p, k.
  split; [exists parsed; auto|]. split; [exists parsed; auto|].
  destruct (too_short_key converted_lt_10 k) as [e|short] eqn:Hs; simpl.
  { right. left. split; [|split; [right; eauto|reflexivity]].
    intros key ->. rewrite too_short_string in Hs. discriminate Hs. }
  destruct short; [left; auto|]. right.
  destruct k as [| |b|z|key|l|fs];
    try (left; split; [discriminate|]; split; [left; reflexivity|reflexivity]).
  right. split; [reflexivity|]. split; [eauto|]. simpl.
  destruct (strict_eq_str p "fal"); [reflexivity|].
  destruct (strict_eq_str p "lightpdf"); reflexivity.
Qed.

Lemma strict_eq_str_spec v s : strict_eq_str v s = true <-> v = VStr s.
Proof.
  destruct v; simpl; try (split; [discriminate|discriminate]).
  rewrite String.eqb_eq. split; congruence.
Qed.

End Engine.

End TestApiFacts.

(** X18. The route that tests a key given in the request, on every JSON
    body.  It answers 400 when the key is falsy, or a string shorter than 10
    characters, whatever the provider named and whatever the network would
    answer.  It answers 200 exactly when the key is a string of at least 10
    characters and the provider is one of the two it can test ([fal],
    [lightpdf]), also when that test fails.  It answers 500 exactly when
    the body cannot be destructured, or the key is a truthy value other
    than a string on which the length guard throws or which passes it (a
    number, [true], an array of ten): the call of [substring] then throws.
    It never reports success with another status than 200. *)
Theorem explicit_key_test_reply
    (converted_lt_10 : value -> Exc bool)
    (fetch : string -> Outcome Http.Response) (request : Outcome value) :
  (TestApi.code (TestApi.POST converted_lt_10 fetch request) = 200%Z
   \/ TestApi.code (TestApi.POST converted_lt_10 fetch request) = 400%Z
   \/ TestApi.code (TestApi.POST converted_lt_10 fetch request) = 500%Z)
  /\ (TestApi.code (TestApi.POST converted_lt_10 fetch request) = 500%Z
      <-> TestApiSpec.unreadable request
          \/ exists k,
               TestApiSpec.field request "apiKey" k
               /\ (forall s, k <> VStr s)
               /\ (TestApi.too_short_key converted_lt_10 k = inr false
                   \/ exists e, TestApi.too_short_key converted_lt_10 k = inl e))
  /\ (forall k, TestApiSpec.field request "apiKey" k ->
        truthy k = false \/ (exists key, k = VStr key /\ String.length key < 10) ->
        TestApi.POST converted_lt_10 fetch request = TestApi.too_short)
  /\ (TestApi.code (TestApi.POST converted_lt_10 fetch request) = 200%Z
      <-> exists key,
            TestApiSpec.field request "apiKey" (VStr key)
            /\ 10 <= String.length key
            /\ (TestApiSpec.field request "provider" (VStr "fal")
                \/ TestApiSpec.field request "provider" (VStr "lightpdf")))
  /\ (forall k, TestApiSpec.field request "apiKey" k ->
        k = VBool true \/ (exists z, k = VNum z /\ z <> 0%Z)
        \/ (exists items, k = VArr items /\ 10 <= length items) ->
        TestApi.POST converted_lt_10 fetch request = TestApi.server_error)
  /\ (TestApi.success (TestApi.body (TestApi.POST converted_lt_10 fetch request)) = true ->
      TestApi.code (TestApi.POST converted_lt_10 fetch request) = 200%Z).
Proof.
  destruct (TestApiFacts.key_test_cases converted_lt_10 fetch request)
    as [[Hu ->]|(p & k & Hp & Hk & Hcase)].
  { simpl. split; [auto|]. split; [tauto|].
    split; [intros k Hk; destruct (TestApiFacts.unreadable_no_field _ _ _ Hu Hk)|].
    split.
    { split; [discriminate|]. intros (key & Hk & _).
      destruct (TestApiFacts.unreadable_no_field _ _ _ Hu Hk). }
    split; [intros k Hk; destruct (TestApiFacts.unreadable_no_field _ _ _ Hu Hk)|].
    discriminate. }
  assert (Hread : ~ TestApiSpec.unreadable request).
  { intros Hu. exact (TestApiFacts.unreadable_no_field _ _ _ Hu Hk). }
  assert (Hshort : forall k', TestApiSpec.field request "apiKey" k' ->
            truthy k' = false \/ (exists key, k' = VStr key /\ String.length key < 10) ->
            TestApi.too_short_key converted_lt_10 k = inr true).
  { intros k' Hk' Hc. rewrite (TestApiFacts.field_unique _ _ _ _ Hk' Hk) in Hc.
    destruct Hc as [Hf|(key & -> & Hlen)].
    - apply TestApiFacts.too_short_falsy. exact Hf.
    - rewrite TestApiFacts.too_short_string. f_equal. apply Nat.ltb_lt. exact Hlen. }
  assert (Hthrow : forall k', TestApiSpec.field request "apiKey" k' ->
            k' = VBool true \/ (exists z, k' = VNum z /\ z <> 0%Z)
            \/ (exists items, k' = VArr items /\ 10 <= length items) ->
            TestApi.too_short_key converted_lt_10 k = inr false
            /\ forall s, k <> VStr s).
  { intros k' Hk' Hc. rewrite (TestApiFacts.field_unique _ _ _ _ Hk' Hk) in Hc.
    destruct Hc as [->|[(z & -> & Hz)|(items & -> & Hlen)]].
    - split; [reflexivity|discriminate].
    - split; [|discriminate].
      cbv [TestApi.too_short_key truthy].
      destruct (Z.eqb_spec z 0); [contradiction|]. reflexivity.
    - split; [|discriminate].
      cbv [TestApi.too_short_key truthy negb get_prop bind ret TestApi.lt_10].
      simpl. f_equal. apply Z.ltb_ge. lia. }
  assert (Hkey : forall key, TestApiSpec.field request "apiKey" (VStr key) -> k = VStr key).
  { intros key Hk'. apply (TestApiFacts.field_unique _ _ _ _ Hk Hk'). }
  destruct Hcase as [[Hs HP]|[(Hns & Hs & HP)|(Hs & (key & ->) & HP)]].
  - rewrite HP. simpl. split; [auto|].
    split.
    { split; [discriminate|]. intros [Hu|(k' & Hk' & _ & Hs')]; [contradiction|].
      rewrite (TestApiFacts.field_unique _ _ _ _ Hk' Hk) in Hs'.
      destruct Hs' as [Hs'|[e Hs']]; congruence. }
    split; [reflexivity|].
    split.
    { split; [discriminate|]. intros (key & Hk' & Hlen & _).
      rewrite (Hkey key Hk'), TestApiFacts.too_short_string in Hs. injection Hs as Hs.
      apply Nat.ltb_lt in Hs. lia. }
    split; [|discriminate].
    intros k' Hk' Hc. destruct (Hthrow k' Hk' Hc) as [Hf _]. congruence.
  - rewrite HP. simpl. split; [auto|].
    split.
    { split; [|reflexivity]. intros _. right. exists k. auto. }
    split.
    { intros k' Hk' Hc. specialize (Hshort k' Hk' Hc).
      destruct Hs as [Hs|[e Hs]]; congruence. }
    split.
    { split; [discriminate|]. intros (key & Hk' & _). destruct (Hns key (Hkey key Hk')). }
    split; [reflexivity|discriminate].
  - rewrite TestApiFacts.too_short_string in Hs. injection Hs as Hs.
    apply Nat.ltb_ge in Hs.
    assert (H500 : forall k', TestApiSpec.field request "apiKey" k' ->
              (forall s, k' <> VStr s) -> False).
    { intros k' Hk' Hn. apply (Hn key). apply (TestApiFacts.field_unique _ _ _ _ Hk' Hk). }
    assert (Hnoshort : forall k', TestApiSpec.field request "apiKey" k' ->
              truthy k' = false \/ (exists key, k' = VStr key /\ String.length key < 10) ->
              False).
    { intros k' Hk' Hc. specialize (Hshort k' Hk' Hc).
      rewrite TestApiFacts.too_short_string in Hshort. injection Hshort as Hshort.
      apply Nat.ltb_lt in Hshort. lia. }
    assert (Hnothrow : forall k', TestApiSpec.field request "apiKey" k' ->
              k' = VBool true \/ (exists z, k' = VNum z /\ z <> 0%Z)
              \/ (exists items, k' = VArr items /\ 10 <= length items) ->
              False).
    { intros k' Hk' Hc. destruct (Hthrow k' Hk' Hc) as [_ Hn]. destruct (Hn key eq_refl). }
    assert (H200 : forall q, TestApiSpec.field request "provider" (VStr q) -> p = VStr q).
    { intros q Hq. apply (TestApiFacts.field_unique _ _ _ _ Hp Hq). }
    destruct (strict_eq_str p "fal") eqn:Hf;
      [|destruct (strict_eq_str p "lightpdf") eqn:Hl].
    + apply TestApiFacts.strict_eq_str_spec in Hf. subst p.
      rewrite HP. simpl. split; [auto|].
      split.
      { split; [discriminate|]. intros [Hu|(k' & Hk' & Hn & _)];
          [contradiction|destruct (H500 k' Hk' Hn)]. }
      split; [intros k' Hk' Hc; destruct (Hnoshort k' Hk' Hc)|].
      split; [split; [intros _; exists key; auto|reflexivity]|].
      split; [|reflexivity].
      intros k' Hk' Hc. destruct (Hnothrow k' Hk' Hc).
    + apply TestApiFacts.strict_eq_str_spec in Hl. subst p.
      rewrite HP. simpl. split; [auto|].
      split.
      { split; [discriminate|]. intros [Hu|(k' & Hk' & Hn & _)];
          [contradiction|destruct (H500 k' Hk' Hn)]. }
      split; [intros k' Hk' Hc; destruct (Hnoshort k' Hk' Hc)|].
      split; [split; [intros _; exists key; auto|reflexivity]|].
      split; [|reflexivity].
      intros k' Hk' Hc. destruct (Hnothrow k' Hk' Hc).
    + rewrite HP. simpl. split; [auto|].
      split.
      { split; [discriminate|]. intros [Hu|(k' & Hk' & Hn & _)];
          [contradiction|destruct (H500 k' Hk' Hn)]. }
      split; [intros k' Hk' Hc; destruct (Hnoshort k' Hk' Hc)|].
      split.
      { split; [discriminate|].
        intros (key0 & _ & _ & [Hq|Hq]); rewrite (H200 _ Hq) in *; simpl in *;
          discriminate. }
      split; [|discriminate].
      intros k' Hk' Hc. destruct (Hnothrow k' Hk' Hc).
Qed.

(** A readable body whose key is a number passes the length guard and
    fails at [substring]. *)
Example numeric_key_is_answered_500
    (converted_lt_10 : value -> Exc bool) (fetch : string -> Outcome Http.Response) :
  TestApi.POST converted_lt_10 fetch TestApiSpec.numeric_key = TestApi.server_error.
Proof. reflexivity. Qed.

(** X19. The request-key test of fal.ai reports success exactly when the
    provider's answer could be read as JSON and either has a 2xx status, or
    has status 400 and a truthy [detail] property.  An answer whose body is
    not JSON is reported as a failed connection whatever its status,
    because the body is parsed before the status is looked at. *)
Theorem fal_key_test_success (fetched : Outcome Http.Response) :
  (TestApi.success (TestApi.testFalAI fetched) = true
   <-> exists response result,
         fetched = Resolved response
         /\ Http.json response = inr result
         /\ ((Http.status response = 400%Z
              /\ exists detail,
                   get_prop result "detail" = inr detail /\ truthy detail = true)
             \/ Http.ok response = true))
  /\ (forall response e,
        fetched = Resolved response ->
        Http.json response = inl e ->
        TestApi.testFalAI fetched = TestApi.connection_failed e).
Proof.
  split; [apply TestApiFacts.testFalAI_spec|].
  intros response e -> He. unfold TestApi.testFalAI. simpl. rewrite He. reflexivity.
Qed.

(** X20. The three checks of a fal.ai key are ordered by strictness: on
    the same answer of the provider, whenever the configured-key test
    reports success so does the request-key test, and whenever the
    request-key test reports success the validation route accepts the
    key. *)
Theorem key_checks_ordered_by_strictness
    (env : TestFal.Env) (fetch : string -> Outcome Http.Response) (key : string) :
  fetch "https://fal.run/fal-ai/flux-pro/kontext" = TestFal.fetch env ->
  (TestFal.success (TestFal.body (TestFal.POST env)) = Some true ->
   TestApi.success (TestApi.testFalAI (TestFal.fetch env)) = true)
  /\ (TestApi.success (TestApi.testFalAI (TestFal.fetch env)) = true ->
      ValidateApi.validateFalAI fetch key = true).
Proof.
  intros Hf. split.
  - intros H. apply TestFalFacts.POST_success in H.
    destruct H as (_ & r & t & result & Hr & _ & Hok & Hj & _).
    apply TestApiFacts.testFalAI_spec. exists r, result. auto.
  - intros H. apply TestApiFacts.testFalAI_spec in H
      as (r & result & Hr & _ & [[H4 _]|Hok]);
      apply ValidateFacts.validateFalAI_spec; exists r; rewrite Hf; auto.
Qed.

(** X20, for a provider that answers 200 with a JSON object. *)
Lemma key_checks_ordered_by_strictness_witness :
  ValidateApi.validateFalAI (fun _ => Resolved AdapterSamples.no_url) "key" = true.
Proof.
  refine (proj2 (key_checks_ordered_by_strictness
                   {| TestFal.FAL_KEY := Some "key"; TestFal.FAL_API_KEY := None;
                      TestFal.fetch := Resolved AdapterSamples.no_url |}
                   (fun _ => Resolved AdapterSamples.no_url) "key" eq_refl) _).
  reflexivity.
Defined.

Module ConsistencyFacts.

Lemma live_reply_not_demo (env : ProcessImages.Env) form store0 served results sid :
  ProcessImages.demoMode env || negb (truthy_str (ProcessImages.apiKey env)) = false ->
  ProcessImages.POST env (Resolved form) store0 = Some served ->
  Reply.body (ProcessImages.reply served) <> Reply.Results results sid true.
Proof.
  intros Hlive. unfold ProcessImages.POST. rewrite Hlive.
  destruct (ProcessImages.resolve_images env form) as [[e|imgs] ext].
  - intros H. injection H as <-. discriminate.
  - destruct (ProcessImages.processBatch _ _ _ _ _ _ _) as [r|]; [|discriminate].
    intros H. injection H as <-. simpl. discriminate.
Qed.

End ConsistencyFacts.

(** X21. The status route describes what the other routes do under the
    same environment variables: it names the provider [demo] exactly when
    the processing route answers with the synthetic demo results, and it
    reports no configured key exactly when the configured-key test answers
    400. *)
Theorem status_route_describes_the_others
    (status_env : StatusRoute.Env) (process_env : ProcessImages.Env)
    (test_env : TestFal.Env) (form : ProcessImages.FormData)
    (store0 : gmap (option string) ProcessingProgress.t) :
  StatusRoute.FAL_KEY status_env = ProcessImages.FAL_KEY process_env ->
  StatusRoute.FAL_API_KEY status_env = ProcessImages.FAL_API_KEY process_env ->
  StatusRoute.DEMO_MODE status_env = ProcessImages.DEMO_MODE process_env ->
  StatusRoute.FAL_KEY status_env = TestFal.FAL_KEY test_env ->
  StatusRoute.FAL_API_KEY status_env = TestFal.FAL_API_KEY test_env ->
  (StatusRoute.provider (StatusRoute.GET status_env) = "demo"
   <-> exists served,
         ProcessImages.POST process_env (Resolved form) store0 = Some served
         /\ ProcessImages.reply served
            = Reply.json (Reply.Results ProcessImages.demo_results
                            (ProcessImages.sessionId form) true))
  /\ (StatusRoute.apiConfigured (StatusRoute.GET status_env) = false
      <-> TestFal.code (TestFal.POST test_env) = 400%Z).
Proof.
  intros K1 K2 D T1 T2. split.
  - assert (Hp : StatusRoute.provider (StatusRoute.GET status_env) = "demo"
                 <-> ProcessImages.demoMode process_env
                     || negb (truthy_str (ProcessImages.apiKey process_env)) = true).
    { rewrite RouteFacts.apiKey_truthy. unfold RouteSpec.credential_configured.
      unfold StatusRoute.GET, StatusRoute.apiKey, ProcessImages.demoMode, or_str. simpl.
      rewrite K1, K2, D.
      destruct (match ProcessImages.DEMO_MODE process_env with
                | Some s => String.eqb s "true"
                | None => false
                end); [simpl; tauto|].
      destruct (truthy_str (ProcessImages.FAL_KEY process_env)) eqn:E1; simpl.
      - rewrite E1. split; discriminate.
      - destruct (truthy_str (ProcessImages.FAL_API_KEY process_env));
          simpl; split; congruence. }
    rewrite Hp.
    destruct (ProcessImages.demoMode process_env
              || negb (truthy_str (ProcessImages.apiKey process_env))) eqn:Hb.
    + split; [|reflexivity]. intros _. unfold ProcessImages.POST. rewrite Hb.
      eexists. split; reflexivity.
    + split; [discriminate|]. intros (served & HP & Hr). exfalso.
      eapply (ConsistencyFacts.live_reply_not_demo process_env form store0 served);
        [exact Hb|exact HP|]. rewrite Hr. reflexivity.
  - unfold StatusRoute.GET, StatusRoute.apiKey, TestFal.POST. simpl.
    rewrite T1, T2.
    destruct (truthy_str (or_str (TestFal.FAL_KEY test_env) (TestFal.FAL_API_KEY test_env)));
      simpl.
    + destruct (TestFal.test_body test_env); simpl; split; discriminate.
    + tauto.
Qed.

(** X21, with no variable set anywhere. *)
Lemma status_route_describes_the_others_witness :
  TestFal.code
    (TestFal.POST {| TestFal.FAL_KEY := None; TestFal.FAL_API_KEY := None;
                     TestFal.fetch := Rejected NonError |}) = 400%Z.
Proof.
  refine (proj1 (proj2 (status_route_describes_the_others
                   {| StatusRoute.FAL_KEY := None; StatusRoute.FAL_API_KEY := None;
                      StatusRoute.DEMO_MODE := None; StatusRoute.FAL_EMAIL := None;
                      StatusRoute.FAL_PASSWORD := None |}
                   {| ProcessImages.DEMO_MODE := None; ProcessImages.FAL_KEY := None;
                      ProcessImages.FAL_API_KEY := None;
                      ProcessImages.put := fun _ => Rejected NonError;
                      ProcessImages.extract_gallery := fun _ => Rejected NonError;
                      ProcessImages.oracle := fun _ _ => RouteSpec.unreachable;
                      ProcessImages.sched := RouteSpec.swapped |}
                   {| TestFal.FAL_KEY := None; TestFal.FAL_API_KEY := None;
                      TestFal.fetch := Rejected NonError |}
                   RouteSpec.empty_form ∅ eq_refl eq_refl eq_refl eq_refl eq_refl)) _).
  reflexivity.
Defined.

Module PageFacts.
Import Page.

Lemma filter_all {A} (p : A -> bool) (l : list A) :
  length (List.filter p l) = length l -> List.filter p l = l.
Proof.
  induction l as [|x l IH]; [reflexivity|]. simpl.
  pose proof (List.filter_length_le p l) as Hle.
  destruct (p x); simpl; intros H; [f_equal; apply IH; lia|lia].
Qed.

Lemma filter_images files :
  Forall (fun f => is_image f = true) (List.filter is_image files).
Proof.
  apply Forall_forall. intros f Hf.
  apply list_elem_of_In, List.filter_In in Hf. tauto.
Qed.

Lemma remove_at_delete {A} index (files : list A) : forall i,
  remove_at index i files
  = if (i <=? index)%nat then delete (index - i) files else files.
Proof.
  induction files as [|f rest IH]; intros i; cbn [remove_at].
  - destruct (i <=? index)%nat; reflexivity.
  - rewrite IH.
    destruct (Nat.eqb_spec i index) as [->|Hne].
    + destruct (Nat.leb_spec (S index) index); [lia|].
      rewrite Nat.leb_refl, Nat.sub_diag. reflexivity.
    + destruct (Nat.leb_spec i index), (Nat.leb_spec (S i) index); try lia.
      * replace (index - i) with (S (index - S i)) by lia. reflexivity.
      * reflexivity.
Qed.

Lemma delete_out_of_range {A} (l : list A) : forall i, length l <= i -> delete i l = l.
Proof.
  induction l as [|x l IH]; intros i Hi; [reflexivity|].
  destruct i as [|i]; simpl in *; [lia|]. f_equal. apply IH. lia.
Qed.

Lemma delete_length_le {A} (l : list A) i : length (delete i l) <= length l.
Proof.
  destruct (le_lt_dec (length l) i) as [Hge|Hlt].
  - rewrite delete_out_of_range by assumption. lia.
  - rewrite length_delete by (apply lookup_lt_is_Some_2; assumption). lia.
Qed.

End PageFacts.

(** X22. The file handlers of the page keep the selection well formed: at
    most ten files, all of them images.  A new selection is taken over
    unchanged when it qualifies, and the error is cleared; otherwise the
    previous selection is kept and an error is shown. *)
Theorem selection_stays_well_formed
    (st : Page.State) (files : list ProcessImages.File) (index : nat) :
  PageSpec.well_formed st ->
  PageSpec.well_formed (Page.handleFileSelect files st)
  /\ PageSpec.well_formed (Page.removeFile index st)
  /\ (Page.error (Page.handleFileSelect files st) = EmptyString ->
      Page.selectedFiles (Page.handleFileSelect files st) = files)
  /\ (Page.error (Page.handleFileSelect files st) <> EmptyString ->
      Page.selectedFiles (Page.handleFileSelect files st) = Page.selectedFiles st)
  /\ (Page.error (Page.handleFileSelect files st) = EmptyString
      <-> length files <= 10 /\ Forall (fun f => Page.is_image f = true) files).
Proof.
  intros [Hlen Himg]. split; [|split].
  - unfold Page.handleFileSelect.
    destruct (negb _); [split; assumption|].
    destruct (Nat.ltb_spec 10 (length (List.filter Page.is_image files)));
      [split; assumption|].
    split; [simpl; lia|apply PageFacts.filter_images].
  - unfold Page.removeFile, PageSpec.well_formed. simpl.
    rewrite PageFacts.remove_at_delete. simpl. rewrite Nat.sub_0_r. split.
    + pose proof (PageFacts.delete_length_le (Page.selectedFiles st) index). lia.
    + apply Forall_delete. assumption.
  - unfold Page.handleFileSelect.
    destruct (Nat.eqb_spec (length (List.filter Page.is_image files)) (length files))
      as [Heq|Hne]; simpl.
    + pose proof (PageFacts.filter_all _ _ Heq) as Hall.
      destruct (Nat.ltb_spec 10 (length (List.filter Page.is_image files))) as [Hgt|Hle];
        simpl.
      * split; [discriminate|]. split; [reflexivity|].
        split; [discriminate|]. intros [H _]. lia.
      * split; [intros _; exact Hall|]. split; [congruence|].
        split; [|reflexivity]. intros _. split; [lia|].
        rewrite <- Hall. apply PageFacts.filter_images.
    + split; [discriminate|]. split; [reflexivity|].
      split; [discriminate|]. intros [_ H]. exfalso. apply Hne. f_equal.
      clear -H. induction H as [|f l Hf _ IH]; [reflexivity|].
      simpl. rewrite Hf. f_equal. exact IH.
Qed.

(** X22, for the page with two photographs, on selecting a third. *)
Lemma selection_stays_well_formed_witness :
  PageSpec.well_formed
    (Page.handleFileSelect [ResolverSpec.photo "c.jpg"] PageSpec.two_selected).
Proof.
  refine (proj1 (selection_stays_well_formed PageSpec.two_selected
                   [ResolverSpec.photo "c.jpg"] 0 _)).
  split; [simpl; lia|]. repeat constructor.
Defined.

(** X23. Removing a file from the selection deletes exactly the entry at
    the given position and keeps the order of the others; a position
    outside the list changes nothing. *)
Theorem removeFile_deletes_one_position (index : nat) (st : Page.State) :
  Page.selectedFiles (Page.removeFile index st) = delete index (Page.selectedFiles st)
  /\ (index < length (Page.selectedFiles st) ->
      S (length (Page.selectedFiles (Page.removeFile index st)))
      = length (Page.selectedFiles st))
  /\ (length (Page.selectedFiles st) <= index ->
      Page.removeFile index st = st).
Proof.
  assert (H : Page.selectedFiles (Page.removeFile index st)
              = delete index (Page.selectedFiles st)).
  { unfold Page.removeFile. simpl. rewrite PageFacts.remove_at_delete. simpl.
    rewrite Nat.sub_0_r. reflexivity. }
  split; [exact H|]. split.
  - intros Hlt. rewrite H.
    rewrite length_delete by (apply lookup_lt_is_Some_2; assumption). lia.
  - intros Hge. destruct st as [g fs e]. unfold Page.removeFile in *. simpl in *.
    f_equal. rewrite H. apply PageFacts.delete_out_of_range. assumption.
Qed.

Module ClientFacts.
Import ProcessImages.

(** What the resolver makes of the form the page sends when the gallery
    field is blank and files are selected. *)
Lemma page_form_resolves env sid st :
  Page.selectedFiles st <> [] ->
  nonempty (trim (Page.galleryUrl st)) = false ->
  (forall i f, Page.selectedFiles st !! i = Some f ->
     (exists blobUrl, put env i = Resolved blobUrl) \/ (exists b, base64 f = Resolved b)) ->
  exists imgs ext,
    resolve_images env (Page.formData sid st) = (inr imgs, ext)
    /\ filename <$> imgs = name <$> Page.selectedFiles st.
Proof.
  intros Hne Hg Hus.
  assert (Hidx : file_indices (Page.formData sid st) = seq 0 (length (Page.selectedFiles st))).
  { unfold file_indices. simpl. rewrite Nat2Z.id. reflexivity. }
  assert (Hn : filename <$> omap (fun i => ResolverSpec.uploaded_task env i
                                           <$> file (Page.formData sid st) i)
                              (file_indices (Page.formData sid st))
               = name <$> Page.selectedFiles st).
  { rewrite Hidx, list_fmap_omap. simpl.
    rewrite <- (SchedulerFacts.omap_lookup_seq name (Page.selectedFiles st)).
    apply SchedulerFacts.omap_ext_in. intros i _.
    destruct (Page.selectedFiles st !! i); reflexivity. }
  unfold resolve_images.
  rewrite (ResolverFacts.upload_files_spec env (Page.formData sid st) _ [] []).
  2:{ intros i _ f Hf. apply (Hus i f Hf). }
  rewrite ResolverFacts.extract_step_no_gallery.
  2:{ unfold ResolverSpec.no_gallery. simpl. rewrite Hg. exact I. }
  simpl app at 1.
  set (imgs := omap _ _) in *.
  assert (Hlen : length imgs = length (Page.selectedFiles st)).
  { rewrite <- (length_fmap filename), Hn, length_fmap. reflexivity. }
  destruct (Nat.eqb_spec (length imgs) 0) as [H0|H0].
  - exfalso. apply Hne. apply length_zero_iff_nil. lia.
  - eexists. eexists. split; [reflexivity|exact Hn].
Qed.

End ClientFacts.

(** X24. From the page to the answer: when the page sends a selection of
    files with a blank gallery field to a live server whose storage (or,
    failing that, the file itself) can be read, the reply is a 200 with one
    result per selected file, in the order of the selection and under the
    files' names; and the poll the page then issues with its session id
    finds the batch completed, with as many tasks as files. *)
Theorem page_selection_is_processed
    (env : ProcessImages.Env) (sid : string) (st : Page.State)
    (store0 : gmap (option string) ProcessingProgress.t) :
  RouteSpec.live env ->
  sid <> EmptyString ->
  Page.selectedFiles st <> [] ->
  nonempty (trim (Page.galleryUrl st)) = false ->
  (forall i f, Page.selectedFiles st !! i = Some f ->
     (exists blobUrl, ProcessImages.put env i = Resolved blobUrl)
     \/ (exists b, ProcessImages.base64 f = Resolved b)) ->
  RouteSpec.valid_schedule ProcessImages.concurrencyLimit
    (length (Page.selectedFiles st)) (ProcessImages.sched env) ->
  exists served results p,
    ProcessImages.POST env (Resolved (Page.formData sid st)) store0 = Some served
    /\ ProcessImages.reply served
       = {| Reply.code := 200; Reply.body := Reply.Results results (Some sid) false |}
    /\ ProcessingResult.filename <$> results
       = ProcessImages.name <$> Page.selectedFiles st
    /\ ProcessImages.GET (Some sid) (ProcessImages.store_after served)
       = {| Reply.code := 200; Reply.body := Reply.Progress p |}
    /\ ProcessingProgress.status p = ProcessingProgress.Completed
    /\ ProcessingProgress.total p = length (Page.selectedFiles st).
Proof.
  intros Hlive Hsid Hne Hg Hus Hs.
  destruct (ClientFacts.page_form_resolves env sid st Hne Hg Hus) as (imgs & ext & Hres & Hn).
  assert (Hlen : length imgs = length (Page.selectedFiles st)).
  { rewrite <- (length_fmap ProcessImages.filename), Hn, length_fmap. reflexivity. }
  rewrite <- Hlen in Hs. rewrite <- Hlen.
  destruct (PollFacts.live_batch_served env (Page.formData sid st) store0 imgs ext
              Hlive Hres Hs)
    as (served & r & HP & Hr & Hserved & p & Hp & _ & Ht & Hst & _).
  destruct (BatchFacts.processBatch_spec ProcessImages.concurrencyLimit
              (ProcessImages.apiSettings env) (ProcessImages.oracle env)
              (ProcessImages.sched env) (Some sid) imgs store0
              ltac:(unfold ProcessImages.concurrencyLimit; lia) Hs)
    as (r' & ws & Hr' & _ & _ & _ & _ & _ & HR & _).
  simpl in Hr. rewrite Hr in Hr'. injection Hr' as <-.
  exists served, (ProcessImages.results r), p.
  split; [exact HP|]. subst served. simpl in *.
  split; [reflexivity|]. split.
  { rewrite HR, <- Hn.
    rewrite <- (WindowFacts.indexed_snd imgs) at 2.
    generalize (ProcessImages.indexed imgs). intros tasks.
    induction tasks as [|task tasks IH]; [reflexivity|].
    simpl. f_equal; [|exact IH].
    apply (TaskFacts.processImageWithRetry_shape (ProcessImages.apiSettings env)
             (ProcessImages.oracle env task.1) (ProcessImages.url task.2)
             (ProcessImages.filename task.2)). }
  split; [|auto].
  unfold ProcessImages.GET. destruct sid; [congruence|]. simpl. rewrite Hp. reflexivity.
Qed.

(** X24, for the page with two photographs and a storage that accepts
    them. *)
Lemma page_selection_is_processed_witness :
  exists served results,
    ProcessImages.POST ResolverSpec.storing
      (Resolved (Page.formData "s1" PageSpec.two_selected)) ∅ = Some served
    /\ ProcessImages.reply served
       = {| Reply.code := 200; Reply.body := Reply.Results results (Some "s1") false |}
    /\ ProcessingResult.filename <$> results = ["a.jpg"; "b.jpg"].
Proof.
  destruct (page_selection_is_processed ResolverSpec.storing "s1" PageSpec.two_selected ∅)
    as (served & results & p & HP & HR & Hn & _).
  - split; reflexivity.
  - discriminate.
  - discriminate.
  - reflexivity.
  - intros i f _. left. eexists. reflexivity.
  - exact Samples.swapped_valid_2.
  - exists served, results. auto.
Defined.

(** X25. Deduplication keeps, of the images that share a URL, the one
    discovered first: every returned image stands in the discovered list at
    a position before which no image has its URL.  A list without duplicate
    URLs is returned as it is, so deduplicating twice changes nothing. *)
Theorem dedup_keeps_first_occurrence (images : list ExtractGallery.GalleryImage) :
  (forall img, img ∈ ExtractGallery.uniqueImages images ->
     exists k, images !! k = Some img
               /\ forall j x, j < k -> images !! j = Some x ->
                    ExtractGallery.url x <> ExtractGallery.url img)
  /\ (NoDup (ExtractGallery.url <$> images) -> ExtractGallery.uniqueImages images = images)
  /\ ExtractGallery.uniqueImages (ExtractGallery.uniqueImages images)
     = ExtractGallery.uniqueImages images.
Proof.
  split; [|split].
  - intros img Hin. rewrite GalleryFacts.uniqueImages_keep_first in Hin.
    apply (DedupFacts.keep_first_is_first images [] img Hin).
  - apply DedupFacts.uniqueImages_fresh.
  - apply DedupFacts.uniqueImages_fresh.
    apply (GalleryFacts.uniqueImages_spec images).
Qed.

(** X26. The [src] strategy and the script strategy skip a URL that was
    already collected.  So on a page without [data-src] attributes and
    without structured data the collected list has no duplicate URL, and
    the deduplication step returns it unchanged. *)
Theorem checked_strategies_add_no_duplicate (p : ExtractGallery.Page) :
  ExtractGallery.img_data_src p = [] ->
  ExtractGallery.ld_json_images p = [] ->
  NoDup (ExtractGallery.url <$> ExtractGallery.discovered p)
  /\ ExtractGallery.uniqueImages (ExtractGallery.discovered p) = ExtractGallery.discovered p.
Proof.
  intros H1 H3.
  assert (Hnd : NoDup (ExtractGallery.url <$> ExtractGallery.discovered p)).
  { unfold ExtractGallery.discovered. rewrite H1, H3. simpl.
    apply (DedupFacts.foldl_invariant
             (fun images => NoDup (ExtractGallery.url <$> images))).
    - intros images matches. apply DedupFacts.strategy4_nodup.
    - apply (DedupFacts.foldl_invariant
               (fun images => NoDup (ExtractGallery.url <$> images))).
      + intros images src. apply DedupFacts.strategy2_nodup.
      + constructor. }
  split; [exact Hnd|apply DedupFacts.uniqueImages_fresh; exact Hnd].
Qed.

(** X26, for a page whose [src] attributes and scripts repeat a URL. *)
Lemma checked_strategies_add_no_duplicate_witness :
  ExtractGallery.uniqueImages (ExtractGallery.discovered GallerySamples.src_and_scripts)
  = ExtractGallery.discovered GallerySamples.src_and_scripts.
Proof.
  exact (proj2 (checked_strategies_add_no_duplicate GallerySamples.src_and_scripts
                  eq_refl eq_refl)).
Defined.

(** X27. No error of the scraper leaves it unwrapped: whatever goes wrong
    while fetching or reading the page, the error thrown carries a message
    that starts with [Failed to extract gallery: ], and this is the message
    of the 500 the route then answers.  For a page that answers with a
    non-success status the message names the status. *)
Theorem scraper_errors_are_wrapped
    (env : ExtractGallery.Env) (fetched : Outcome ExtractGallery.Fetched) :
  (forall e, ExtractGallery.extractPixiesetGallery fetched = inl e ->
     exists m, e = ErrorObj ("Failed to extract gallery: " +:+ m))
  /\ (forall response,
        fetched = Resolved response ->
        ExtractGallery.ok response = false ->
        ExtractGallery.extractPixiesetGallery fetched
        = inl (ErrorObj ("Failed to extract gallery: HTTP "
                         +:+ string_of_Z (ExtractGallery.status response) +:+ ": "
                         +:+ ExtractGallery.statusText response)))
  /\ (forall g,
        ExtractGallery.code (ExtractGallery.POST env (Resolved (Some g))) = 500%Z ->
        exists m,
          ExtractGallery.body (ExtractGallery.POST env (Resolved (Some g)))
          = ExtractGallery.ErrorBody ("Failed to extract gallery: " +:+ m)).
Proof.
  assert (Hwrap : forall f e, ExtractGallery.extractPixiesetGallery f = inl e ->
            exists m, e = ErrorObj ("Failed to extract gallery: " +:+ m)).
  { intros f e. unfold ExtractGallery.extractPixiesetGallery, WatermarkApi.try_catch.
    destruct (let* response := await f in _)%exc as [e'|images]; [|discriminate].
    intros H. injection H as <-. eexists. reflexivity. }
  split; [apply Hwrap|]. split.
  - intros response -> Hok. unfold ExtractGallery.extractPixiesetGallery. simpl.
    rewrite Hok. reflexivity.
  - intros g. unfold ExtractGallery.POST.
    destruct (negb (nonempty g)); [discriminate|].
    destruct (negb (ExtractGallery.url_parses env g)); [discriminate|].
    destruct (negb (includes g "pixieset.com")); [discriminate|].
    destruct (ExtractGallery.extractPixiesetGallery (ExtractGallery.fetch_gallery env g))
      as [e|images] eqn:He.
    + intros _. destruct (Hwrap _ _ He) as [m ->]. simpl. eexists. reflexivity.
    + destruct (length images =? 0)%nat; discriminate.
Qed.
